(** * Algo-Trading: the candle aggregator, the swing-structure engine, the
    Greeks-based risk model, the strike selector and the Greeks retry loop.

    A shallow embedding of
      - [src/models/option.py]      ([OptionData]),
      - [src/data/ohlcv.py]         ([LiveOHLCVData]),
      - [src/strategies/bullish_swing.py] ([BullishSwingStrategy]),
      - [src/brokers/angelone.py]   ([AngelOneBroker.get_option_greeks]),
      - the tick driver of [src/main.py].

    Modelling conventions.
      - Python floats are rationals [Q] with exact arithmetic: rounding, NaN
        and infinities are not represented.  Equalities between computed
        prices are stated with [==] (equality of rationals).
      - The one float operation of the code that raises is [x ** 2]
        (OverflowError); rationals never overflow, so the condition under
        which it raises is the section variable [pow_overflow].
      - A structure point of the engine is stored by the source in two
        attributes ([self.A], [self.A_idx]) that are always assigned
        together; here it is one optional [Point].
      - A Python exception escaping a method is [None] in the [option]
        monad; a method with its own [try/except] returns what its handler
        returns.
      - Logging, CSV files and wall-clock timestamps are left out. *)

From Stdlib Require Import QArith Qabs Qminmax Lqa ZArith Lia String Ascii.
From stdpp Require Import base option list strings.

Open Scope Q_scope.

(** ** Float comparisons and Python's [max]/[min] *)

(** [a > b] on floats. *)
Definition Qgtb (a b : Q) : bool := negb (Qle_bool a b).
(** [a < b] on floats. *)
Definition Qltb (a b : Q) : bool := Qgtb b a.

(** Python's [max(a, b)]: the first argument unless the second is greater. *)
Definition py_max (a b : Q) : Q := if Qgtb b a then b else a.
(** Python's [min(a, b)]: the first argument unless the second is smaller. *)
Definition py_min (a b : Q) : Q := if Qltb b a then b else a.

(** [list.sort(key=...)]: Python's sort is stable; on keys that are totally
    ordered every stable sort returns the same list, here by insertion. *)
Fixpoint insert_by_key {A : Type} (key : A -> Q) (x : A) (l : list A) : list A :=
  match l with
  | [] => [x]
  | y :: l' => if Qle_bool (key x) (key y) then x :: y :: l'
               else y :: insert_by_key key x l'
  end.

Definition sort_by_key {A : Type} (key : A -> Q) (l : list A) : list A :=
  foldr (insert_by_key key) [] l.

(** ** settings.py *)

Definition DEFAULT_LOT_SIZE : Z := 75.
Definition TARGET_RISK_MIN : Q := 800.
Definition TARGET_RISK_MAX : Q := 900.
Definition MAX_SIGNAL_ATTEMPTS : nat := 1.

(** ** models/option.py *)

Record OptionData := mkOptionData {
  symbol : string;
  token : string;
  strike : Q;
  option_type : string;
  expiry : string;
  lot_size : Z;
  delta : Q;
  gamma : Q;
  theta : Q;
  vega : Q;
  implied_volatility : Q;
  last_price : Q;
  bid_price : Q;
  ask_price : Q;
  volume : Z;
  open_interest : Z;
  stop_loss : option Q;
  target : option Q;
  risk_per_lot : option Q
}.

(** A row of the options table, as [row.to_dict()] with its numeric fields
    already numbers (['strike_float'], ['lotsize'], ['impliedVolatility'] and
    the expiry are the keys that [__init__] reads). *)
Record OptionRow := mkOptionRow {
  r_symbol : string;
  r_token : string;
  r_strike_float : Q;
  r_option_type : string;
  r_expiry : string;
  r_lotsize : Z;
  r_delta : Q;
  r_gamma : Q;
  r_theta : Q;
  r_vega : Q;
  r_impliedVolatility : Q;
  r_last_price : Q;
  r_bid_price : Q;
  r_ask_price : Q;
  r_volume : Z;
  r_open_interest : Z
}.

(** [OptionData.__init__] *)
Definition OptionData_init (data : OptionRow) : OptionData :=
  mkOptionData (r_symbol data) (r_token data) (r_strike_float data) (r_option_type data)
    (r_expiry data) (r_lotsize data) (r_delta data) (r_gamma data) (r_theta data)
    (r_vega data) (r_impliedVolatility data) (r_last_price data) (r_bid_price data)
    (r_ask_price data) (r_volume data) (r_open_interest data) None None None.

(** [self.risk_per_lot = v] *)
Definition set_risk_per_lot (v : Q) (o : OptionData) : OptionData :=
  mkOptionData (symbol o) (token o) (strike o) (option_type o) (expiry o)
    (lot_size o) (delta o) (gamma o) (theta o) (vega o) (implied_volatility o)
    (last_price o) (bid_price o) (ask_price o) (volume o) (open_interest o)
    (stop_loss o) (target o) (Some v).

(** [self.stop_loss = sl; self.target = tg] *)
Definition set_stop_target (sl tg : Q) (o : OptionData) : OptionData :=
  mkOptionData (symbol o) (token o) (strike o) (option_type o) (expiry o)
    (lot_size o) (delta o) (gamma o) (theta o) (vega o) (implied_volatility o)
    (last_price o) (bid_price o) (ask_price o) (volume o) (open_interest o)
    (Some sl) (Some tg) (risk_per_lot o).

(** The dictionary returned by [calculate_stop_loss]. *)
Record StopLossCalc := mkStopLossCalc {
  price_change : Q;
  total_sl : Q;
  delta_impact : Q;
  gamma_impact : Q;
  theta_impact : Q
}.

(** One recorded candidate of the lot scan:
    [(option, quantity, total_risk, abs(total_risk - target_mid))]. *)
Record Candidate := mkCandidate {
  cand_option : OptionData;
  cand_quantity : Z;
  cand_total_risk : Q;
  cand_distance : Q
}.

Section RiskModel.

(** [pow_overflow m] holds when [m ** 2] raises OverflowError. *)
Variable pow_overflow : Q -> bool.

(** [OptionData.calculate_stop_loss]: the mutated option and the returned
    dictionary, or [None] when the [except] branch is taken (nothing was
    assigned yet at the only operation that can raise). *)
Definition calculate_stop_loss (self : OptionData) (underlying_entry underlying_sl : Q)
  : option (OptionData * StopLossCalc) :=
  let underlying_move := Qabs (underlying_entry - underlying_sl) in
  let delta_impact := delta self * underlying_move in
  if pow_overflow underlying_move then None else
  let gamma_impact := 0.5 * gamma self * (underlying_move ^ 2) in
  let theta_impact := (Qabs (theta self) / inject_Z (24 * 6)) * (10 / 60) in
  let total_sl := delta_impact + gamma_impact + theta_impact in
  let self1 := set_risk_per_lot total_sl self in
  let self2 :=
    if Qgtb (last_price self1) 0 then
      let stop_loss := py_max (last_price self1 - total_sl) 0.1 in
      let risk := last_price self1 - stop_loss in
      set_stop_target stop_loss (last_price self1 + (2 * risk)) self1
    else self1 in
  Some (self2, mkStopLossCalc total_sl total_sl delta_impact gamma_impact theta_impact).

(** The first loop of [select_optimal_strike]: the options whose risk
    computation returned a dictionary, each as mutated by it. *)
Fixpoint valid_options_of (options : list OptionData) (current_price : Q) : list OptionData :=
  match options with
  | [] => []
  | option :: rest =>
      match calculate_stop_loss option current_price (current_price * 0.995) with
      | Some (option', _) => option' :: valid_options_of rest current_price
      | None => valid_options_of rest current_price
      end
  end.

(** [option.risk_per_lot] of a valid option (always set by then). *)
Definition risk_of (o : OptionData) : Q := default 0 (risk_per_lot o).

(** The inner loop [for lots in range(1, 51)], from [lots] on, with [fuel]
    iterations left. *)
Fixpoint scan_lots (option : OptionData) (lot_size : Z) (target_min target_max target_mid : Q)
    (lots : Z) (fuel : nat) : list Candidate :=
  match fuel with
  | O => []
  | S fuel' =>
      let quantity := (lots * lot_size)%Z in
      let total_risk := risk_of option * inject_Z quantity in
      let here :=
        if Qle_bool target_min total_risk && Qle_bool total_risk target_max
        then [mkCandidate option quantity total_risk (Qabs (total_risk - target_mid))]
        else [] in
      if Qgtb total_risk target_max then here
      else here ++ scan_lots option lot_size target_min target_max target_mid (lots + 1)%Z fuel'
  end.

(** The outer loop: [options_in_range] over all valid options. *)
Definition options_in_range_of (valid_options : list OptionData) (lot_size : Z)
    (target_min target_max target_mid : Q) : list Candidate :=
  concat (map (fun option => scan_lots option lot_size target_min target_max target_mid 1%Z 50)
              valid_options).

(** [OptionData.select_optimal_strike]; [options_data] is the table, [None]
    for Python's [None]. *)
Definition select_optimal_strike (options_data : option (list OptionRow)) (current_price : Q)
    (target_risk_range : Q * Q) (lot_size : Z) : option OptionData * option Z * option Q :=
  match options_data with
  | None => (None, None, None)
  | Some [] => (None, None, None)
  | Some rows =>
      let '(target_min, target_max) := target_risk_range in
      let target_mid := (target_min + target_max) / 2 in
      let options := map OptionData_init rows in
      let valid_options := valid_options_of options current_price in
      match valid_options with
      | [] => (None, None, None)
      | _ =>
          let options_in_range :=
            options_in_range_of valid_options lot_size target_min target_max target_mid in
          match sort_by_key cand_distance options_in_range with
          | best :: _ =>
              (Some (cand_option best), Some (cand_quantity best), Some (cand_total_risk best))
          | [] =>
              match sort_by_key
                      (fun opt => Qabs (risk_of opt * inject_Z lot_size - target_mid))
                      valid_options with
              | closest_option :: _ =>
                  (Some closest_option, Some lot_size,
                   Some (risk_of closest_option * inject_Z lot_size))
              | [] => (None, None, None)
              end
          end
      end
  end.

End RiskModel.

(** ** data/ohlcv.py *)

(** A [datetime]; comparison is lexicographic on the fields. *)
Record DateTime := mkDateTime {
  year : Z;
  month : Z;
  day : Z;
  hour : Z;
  minute : Z;
  second : Z;
  microsecond : Z
}.

Definition dt_fields (t : DateTime) : list Z :=
  [year t; month t; day t; hour t; minute t; second t; microsecond t].

Fixpoint lex_gtb (a b : list Z) : bool :=
  match a, b with
  | x :: a', y :: b' =>
      if (y <? x)%Z then true else if (x <? y)%Z then false else lex_gtb a' b'
  | _, _ => false
  end.

(** [t1 > t2] on datetimes. *)
Definition dt_gtb (t1 t2 : DateTime) : bool := lex_gtb (dt_fields t1) (dt_fields t2).

(** A candle dictionary (also a row of the engine's DataFrame). *)
Record Candle := mkCandle {
  c_time : DateTime;
  c_open : Q;
  c_high : Q;
  c_low : Q;
  c_close : Q;
  c_volume : Q
}.

(** A tick dictionary; a key that is absent is [None]. *)
Record Tick := mkTick {
  tick_timestamp : option DateTime;
  tick_ltp : option Q;
  tick_volume : option Q
}.

Record LiveOHLCVData := mkLive {
  timeframe_minutes : Z;
  current_candle : option Candle;
  completed_candles : list Candle
}.

(** [tick_time.replace(minute=(tick_time.minute // tf) * tf, second=0,
    microsecond=0)]; [None] when the division (by zero) or [replace] (minute
    outside 0..59) raises. *)
Definition candle_start_of (tf : Z) (tick_time : DateTime) : option DateTime :=
  if (tf =? 0)%Z then None
  else
    let m := ((minute tick_time / tf) * tf)%Z in
    if ((0 <=? m) && (m <=? 59))%Z
    then Some (mkDateTime (year tick_time) (month tick_time) (day tick_time)
                          (hour tick_time) m 0 0)
    else None.

(** [LiveOHLCVData.update_from_tick]; every exception is caught by the
    method, before anything was assigned. *)
Definition update_from_tick (self : LiveOHLCVData) (tick : Tick) : LiveOHLCVData :=
  match tick_timestamp tick, tick_ltp tick with
  | Some tick_time, Some price =>
      match candle_start_of (timeframe_minutes self) tick_time with
      | None => self
      | Some candle_start =>
          let fresh := mkCandle candle_start price price price price 0 in
          match current_candle self with
          | None =>
              mkLive (timeframe_minutes self) (Some fresh) (completed_candles self)
          | Some cur =>
              if dt_gtb candle_start (c_time cur)
              then mkLive (timeframe_minutes self) (Some fresh)
                          (completed_candles self ++ [cur])
              else mkLive (timeframe_minutes self)
                          (Some (mkCandle (c_time cur) (c_open cur)
                                          (py_max (c_high cur) price)
                                          (py_min (c_low cur) price)
                                          price (c_volume cur)))
                          (completed_candles self)
          end
      end
  | _, _ => self
  end.

(** ** brokers/angelone.py: the retry loop of [get_option_greeks] *)

(** What [self.api.optionGreek] does at one attempt. *)
Inductive GreekResponse :=
| GreekOk (data : list OptionRow)     (* truthy response with a truthy status *)
| GreekError (message : string)      (* a response without status; its message *)
| GreekRaise.                        (* the call, or reading the response, raises *)

(** What the loop does, in order. *)
Inductive RetryEvent :=
| Sleep (seconds : Q)
| Call (retry : nat).

Fixpoint is_prefix (p s : list ascii) : bool :=
  match p, s with
  | [], _ => true
  | a :: p', b :: s' => Ascii.eqb a b && is_prefix p' s'
  | _ :: _, [] => false
  end.

(** [phrase in s] *)
Fixpoint contains (phrase s : list ascii) : bool :=
  is_prefix phrase s ||
  match s with
  | [] => false
  | _ :: s' => contains phrase s'
  end.

(** [str.lower] on ASCII letters. *)
Definition lower_ascii (c : ascii) : ascii :=
  let n := nat_of_ascii c in
  if ((65 <=? n) && (n <=? 90))%nat then ascii_of_nat (n + 32) else c.

Definition transient_phrases : list string :=
  ["rate limit"; "too many requests"; "exceeding access"]%string.

(** [any(phrase in str(error_msg).lower() for phrase in [...])] *)
Definition is_transient (error_msg : string) : bool :=
  let lowered := map lower_ascii (list_ascii_of_string error_msg) in
  existsb (fun phrase => contains (list_ascii_of_string phrase) lowered) transient_phrases.

(** The body of [for retry in range(max_retries)], from attempt [retry] on,
    with [remaining] attempts left.  [responses] and [jitters] are what the
    provider and [random.uniform(0, 0.1)] return at each attempt (a missing
    response is a call that raises, a missing jitter is 0). *)
Fixpoint greeks_loop (responses : list GreekResponse) (jitters : list Q)
    (retry remaining : nat) : list RetryEvent * option (list OptionRow) :=
  match remaining with
  | O => ([], None)
  | S remaining' =>
      let backoff_events :=
        match retry with
        | O => []
        | S _ =>
            let jitter := default 0 (head jitters) in
            [Sleep (py_min (inject_Z (2 ^ Z.of_nat retry) + jitter) 5)]
        end in
      let jitters' := match retry with O => jitters | S _ => tail jitters end in
      match default GreekRaise (head responses) with
      | GreekOk data => (backoff_events ++ [Call retry], Some data)
      | GreekError error_msg =>
          let limit_events :=
            if is_transient error_msg
            then [Sleep (py_min (inject_Z (5 * (Z.of_nat retry + 1))) 30)]
            else [] in
          let '(events, result) :=
            greeks_loop (tail responses) jitters' (S retry) remaining' in
          (backoff_events ++ [Call retry] ++ limit_events ++ events, result)
      | GreekRaise =>
          let '(events, result) :=
            greeks_loop (tail responses) jitters' (S retry) remaining' in
          (backoff_events ++ [Call retry] ++ events, result)
      end
  end.

(** [AngelOneBroker.get_option_greeks], once [self.connect()] succeeded. *)
Definition get_option_greeks (responses : list GreekResponse) (jitters : list Q)
    (max_retries : nat) : list RetryEvent * option (list OptionRow) :=
  greeks_loop responses jitters 0 max_retries.

(** ** strategies/bullish_swing.py *)

(** A structure point: the price ([self.X]) and the position of its candle
    ([self.X_idx]). *)
Record Point := mkPoint {
  pt_price : Q;
  pt_idx : nat
}.

(** The ['structure'] dictionary of a pending setup. *)
Record Structure := mkStructure {
  s_H1 : option Point;
  s_L1 : option Point;
  s_A : option Point;
  s_B : option Point;
  s_C : option Point;
  s_D : option Point
}.

(** [self.pending_setup]; ['strategy_type'] is present only in the setup
    built by [calculate_point_D]. *)
Record Setup := mkSetup {
  su_entry_price : Q;
  su_stop_loss : Q;
  su_target : Q;
  su_structure : Structure;
  su_strategy_type : option string
}.

(** A row of [self.signals]; [None] is NaN. *)
Record SignalRow := mkSignalRow {
  row_signal : Z;
  row_entry_price : option Q;
  row_stop_loss : option Q;
  row_target : option Q
}.

(** An element of [self.structures]. *)
Record StructureRecord := mkStructureRecord {
  sr_structure : Structure;
  sr_entry : nat * Q;
  sr_stop_loss : nat * Q;
  sr_target : nat * Q
}.

(** The dictionary returned by [check_live_tick] (without its timestamp). *)
Record SignalData := mkSignalData {
  sd_signal : Z;
  sd_entry_price : Q;
  sd_stop_loss : Q;
  sd_target : Q;
  sd_option_data : OptionData;
  sd_quantity : option Z;
  sd_total_risk : option Q
}.

(** The attributes of a [BullishSwingStrategy]; [has_broker] is
    [self.broker] being an [AngelOneBroker] (which always has [api]). *)
Record Engine := mkEngine {
  data : list Candle;
  has_broker : bool;
  signals : list SignalRow;
  H1_pt : option Point;
  L1_pt : option Point;
  A_pt : option Point;
  B_pt : option Point;
  C_pt : option Point;
  D_pt : option Point;
  pending_setup : option Setup;
  structures : list StructureRecord;
  cached_options_data : option (list OptionRow);
  last_order_id : option string;
  order_counter : nat;
  signal_counter : nat
}.

Definition set_signals (v : list SignalRow) (e : Engine) : Engine :=
  mkEngine (data e) (has_broker e) v (H1_pt e) (L1_pt e) (A_pt e) (B_pt e) (C_pt e)
    (D_pt e) (pending_setup e) (structures e) (cached_options_data e)
    (last_order_id e) (order_counter e) (signal_counter e).

Definition set_H1 (v : option Point) (e : Engine) : Engine :=
  mkEngine (data e) (has_broker e) (signals e) v (L1_pt e) (A_pt e) (B_pt e) (C_pt e)
    (D_pt e) (pending_setup e) (structures e) (cached_options_data e)
    (last_order_id e) (order_counter e) (signal_counter e).

Definition set_L1 (v : option Point) (e : Engine) : Engine :=
  mkEngine (data e) (has_broker e) (signals e) (H1_pt e) v (A_pt e) (B_pt e) (C_pt e)
    (D_pt e) (pending_setup e) (structures e) (cached_options_data e)
    (last_order_id e) (order_counter e) (signal_counter e).

Definition set_A (v : option Point) (e : Engine) : Engine :=
  mkEngine (data e) (has_broker e) (signals e) (H1_pt e) (L1_pt e) v (B_pt e) (C_pt e)
    (D_pt e) (pending_setup e) (structures e) (cached_options_data e)
    (last_order_id e) (order_counter e) (signal_counter e).

Definition set_B (v : option Point) (e : Engine) : Engine :=
  mkEngine (data e) (has_broker e) (signals e) (H1_pt e) (L1_pt e) (A_pt e) v (C_pt e)
    (D_pt e) (pending_setup e) (structures e) (cached_options_data e)
    (last_order_id e) (order_counter e) (signal_counter e).

Definition set_C (v : option Point) (e : Engine) : Engine :=
  mkEngine (data e) (has_broker e) (signals e) (H1_pt e) (L1_pt e) (A_pt e) (B_pt e) v
    (D_pt e) (pending_setup e) (structures e) (cached_options_data e)
    (last_order_id e) (order_counter e) (signal_counter e).

Definition set_D (v : option Point) (e : Engine) : Engine :=
  mkEngine (data e) (has_broker e) (signals e) (H1_pt e) (L1_pt e) (A_pt e) (B_pt e)
    (C_pt e) v (pending_setup e) (structures e) (cached_options_data e)
    (last_order_id e) (order_counter e) (signal_counter e).

Definition set_pending_setup (v : option Setup) (e : Engine) : Engine :=
  mkEngine (data e) (has_broker e) (signals e) (H1_pt e) (L1_pt e) (A_pt e) (B_pt e)
    (C_pt e) (D_pt e) v (structures e) (cached_options_data e)
    (last_order_id e) (order_counter e) (signal_counter e).

Definition set_structures (v : list StructureRecord) (e : Engine) : Engine :=
  mkEngine (data e) (has_broker e) (signals e) (H1_pt e) (L1_pt e) (A_pt e) (B_pt e)
    (C_pt e) (D_pt e) (pending_setup e) v (cached_options_data e)
    (last_order_id e) (order_counter e) (signal_counter e).

Definition set_cached_options_data (v : option (list OptionRow)) (e : Engine) : Engine :=
  mkEngine (data e) (has_broker e) (signals e) (H1_pt e) (L1_pt e) (A_pt e) (B_pt e)
    (C_pt e) (D_pt e) (pending_setup e) (structures e) v
    (last_order_id e) (order_counter e) (signal_counter e).

Definition set_order (id : string) (e : Engine) : Engine :=
  mkEngine (data e) (has_broker e) (signals e) (H1_pt e) (L1_pt e) (A_pt e) (B_pt e)
    (C_pt e) (D_pt e) (pending_setup e) (structures e) (cached_options_data e)
    (Some id) (S (order_counter e)) (signal_counter e).

Definition set_signal_counter (v : nat) (e : Engine) : Engine :=
  mkEngine (data e) (has_broker e) (signals e) (H1_pt e) (L1_pt e) (A_pt e) (B_pt e)
    (C_pt e) (D_pt e) (pending_setup e) (structures e) (cached_options_data e)
    (last_order_id e) (order_counter e) v.

(** [BullishSwingStrategy.__init__]: one all-zero, all-NaN signal row per
    candle, no point, no setup. *)
Definition new_strategy (data : list Candle) (broker : bool) : Engine :=
  mkEngine data broker (map (fun _ => mkSignalRow 0 None None None) data)
    None None None None None None None [] None None 0 0.

(** The six points as the ['structure'] dictionary records them. *)
Definition structure_of (e : Engine) : Structure :=
  mkStructure (H1_pt e) (L1_pt e) (A_pt e) (B_pt e) (C_pt e) (D_pt e).

(** [is_swing_high]: [idx <= 0 or idx >= len(self.data) - 1] is the absence
    of a left or of a right neighbour. *)
Definition is_swing_high (data : list Candle) (idx : nat) : bool :=
  match idx with
  | O => false
  | S before =>
      match data !! before, data !! idx, data !! S idx with
      | Some prev, Some current, Some next =>
          Qgtb (c_high current) (c_high prev) && Qgtb (c_high current) (c_high next)
      | _, _, _ => false
      end
  end.

(** [is_swing_low] *)
Definition is_swing_low (data : list Candle) (idx : nat) : bool :=
  match idx with
  | O => false
  | S before =>
      match data !! before, data !! idx, data !! S idx with
      | Some prev, Some current, Some next =>
          Qltb (c_low current) (c_low prev) && Qltb (c_low current) (c_low next)
      | _, _, _ => false
      end
  end.

(** [initialize_H1_L1] *)
Definition initialize_H1_L1 (self : Engine) : Engine :=
  match data self with
  | first :: _ => set_H1 None (set_L1 (Some (mkPoint (c_low first) 0)) self)
  | [] => self
  end.

(** One iteration of the loop of [reset_points]. *)
Definition reset_point (self : Engine) (point : string) : Engine :=
  if String.eqb point "H1" then set_H1 None self
  else if String.eqb point "L1" then set_L1 None self
  else if String.eqb point "A" then set_A None self
  else if String.eqb point "B" then set_B None self
  else if String.eqb point "C" then set_C None self
  else if String.eqb point "D" then set_pending_setup None (set_D None self)
  else self.

(** [reset_points] *)
Definition reset_points (which_points : list string) (self : Engine) : Engine :=
  foldl reset_point self which_points.

(** [refresh_option_greeks(force_refresh=True)], as both callers invoke it:
    the placeholder of the source stores an empty table. *)
Definition refresh_option_greeks (self : Engine) : Engine * bool :=
  if has_broker self
  then (set_cached_options_data (Some []) self, true)
  else (self, false).

(** The loop of [calculate_point_D] over [range(B_idx + 1, C_idx + 1)]. *)
Fixpoint scan_highs (data : list Candle) (indices : list nat) (highest : Q * nat)
  : option (Q * nat) :=
  match indices with
  | [] => Some highest
  | i :: rest =>
      candle ← data !! i;
      scan_highs data rest
        (if Qgtb (c_high candle) (fst highest) then (c_high candle, i) else highest)
  end.

(** [calculate_point_D]; [None] when an [iloc] is out of bounds. *)
Definition calculate_point_D (self : Engine) : option Engine :=
  match H1_pt self, B_pt self, C_pt self with
  | Some _, Some b, Some c =>
      first ← data self !! pt_idx b;
      found ← scan_highs (data self) (seq (S (pt_idx b)) (pt_idx c - pt_idx b))
                         (c_high first, pt_idx b);
      let self := set_D (Some (mkPoint (fst found) (snd found))) self in
      let entry_price := fst found + 0.05 in
      let stop_loss := pt_price c - 0.05 in
      let risk := entry_price - stop_loss in
      let target := entry_price + (risk * 2) in
      let self :=
        set_pending_setup
          (Some (mkSetup entry_price stop_loss target (structure_of self)
                         (Some "CE_BUYING"%string))) self in
      Some (if has_broker self then fst (refresh_option_greeks self) else self)
  | _, _, _ => Some self
  end.

(** The body of the loop of [generate_signals] at candle [i], one definition
    per commented block of the source. *)

(** "L1 detection and updates": comparing with an unset L1 raises. *)
Definition update_L1 (i : nat) (current_candle : Candle) (self : Engine) : option Engine :=
  if is_swing_low (data self) i then
    l1 ← L1_pt self;
    if Qltb (c_low current_candle) (pt_price l1)
    then Some (reset_points ["H1"; "A"; "B"; "C"; "D"]%string
                 (set_L1 (Some (mkPoint (c_low current_candle) i)) self))
    else Some self
  else Some self.

(** "H1 detection and updates" *)
Definition update_H1 (i : nat) (current_candle : Candle) (self : Engine) : Engine :=
  match L1_pt self with
  | Some l1 =>
      if is_swing_high (data self) i then
        if (pt_idx l1 <? i)%nat && Qgtb (c_high current_candle) (pt_price l1) then
          match H1_pt self with
          | None => set_H1 (Some (mkPoint (c_high current_candle) i)) self
          | Some h1 =>
              if Qgtb (c_high current_candle) (pt_price h1)
              then reset_points ["A"; "B"; "C"; "D"]%string
                     (set_H1 (Some (mkPoint (c_high current_candle) i)) self)
              else self
          end
        else self
      else self
  | None => self
  end.

(** "A point detection" *)
Definition detect_A (i : nat) (current_candle : Candle) (self : Engine) : Engine :=
  match H1_pt self, L1_pt self with
  | Some h1, Some l1 =>
      match A_pt self with
      | None =>
          if is_swing_low (data self) i then
            if (pt_idx h1 <? i)%nat && Qgtb (c_low current_candle) (pt_price l1)
            then set_A (Some (mkPoint (c_low current_candle) i)) self
            else self
          else self
      | Some _ => self
      end
  | _, _ => self
  end.

(** "B point detection" *)
Definition detect_B (i : nat) (current_candle : Candle) (self : Engine) : Engine :=
  match A_pt self with
  | Some a =>
      match B_pt self with
      | None =>
          if is_swing_low (data self) i then
            if (pt_idx a + 1 <? i)%nat && Qgtb (c_low current_candle) (pt_price a)
            then set_B (Some (mkPoint (c_low current_candle) i)) self
            else self
          else self
      | Some _ => self
      end
  | None => self
  end.

(** "C and D point detection" *)
Definition detect_C (i : nat) (current_candle prev_candle : Candle) (self : Engine)
  : option Engine :=
  match B_pt self with
  | Some b =>
      match C_pt self with
      | None =>
          if (pt_idx b <? i)%nat
             && Qltb (c_low current_candle) (c_low prev_candle)
             && Qgtb (c_low current_candle) (pt_price b)
          then calculate_point_D (set_C (Some (mkPoint (c_low current_candle) i)) self)
          else Some self
      | Some _ => Some self
      end
  | None => Some self
  end.

(** "Breakout detection": comparing with an unset D raises, and so does
    writing a signal row that does not exist. *)
Definition detect_breakout (i : nat) (current_candle : Candle) (self : Engine)
  : option Engine :=
  match pending_setup self with
  | Some setup =>
      d ← D_pt self;
      if Qgtb (c_high current_candle) (pt_price d) then
        _ ← signals self !! i;
        let self :=
          set_signals
            (<[i := mkSignalRow 1 (Some (su_entry_price setup))
                     (Some (su_stop_loss setup)) (Some (su_target setup))]> (signals self))
            self in
        let self :=
          set_structures
            (structures self ++
               [mkStructureRecord (su_structure setup) (i, su_entry_price setup)
                  (i, su_stop_loss setup) (i, su_target setup)])
            self in
        let self := reset_points ["H1"; "L1"; "A"; "B"; "C"; "D"]%string self in
        Some (set_L1 (Some (mkPoint (c_low current_candle) i)) self)
      else Some self
  | None => Some self
  end.

(** The whole body at index [i]. *)
Definition process_candle (i : nat) (self : Engine) : option Engine :=
  current_candle ← data self !! i;
  prev_candle ← data self !! (i - 1)%nat;
  self ← update_L1 i current_candle self;
  let self := update_H1 i current_candle self in
  let self := detect_A i current_candle self in
  let self := detect_B i current_candle self in
  self ← detect_C i current_candle prev_candle self;
  detect_breakout i current_candle self.

(** [for i in range(1, len(self.data))] over the given indices. *)
Fixpoint process_candles (indices : list nat) (self : Engine) : option Engine :=
  match indices with
  | [] => Some self
  | i :: rest => self ← process_candle i self; process_candles rest self
  end.

(** [generate_signals]: the engine it leaves, whose [signals] it returns. *)
Definition generate_signals (self : Engine) : option Engine :=
  process_candles (seq 1 (length (data self) - 1)) (initialize_H1_L1 self).

Section Strategy.

Variable pow_overflow : Q -> bool.

(** [check_live_tick]: the engine it leaves and the signal it returns. *)
Definition check_live_tick (self : Engine) (price : Q) : Engine * option SignalData :=
  match C_pt self, D_pt self with
  | Some c, Some d =>
      if Qgtb price (pt_price d) then
        if (MAX_SIGNAL_ATTEMPTS <=? order_counter self)%nat then (self, None)
        else
          let setup :=
            match pending_setup self with
            | Some setup => setup
            | None =>
                let entry_price := pt_price d + 0.05 in
                let stop_loss := pt_price c - 0.05 in
                let risk_points := entry_price - stop_loss in
                let target := entry_price + (2 * risk_points) in
                mkSetup entry_price stop_loss target (structure_of self) None
            end in
          let self := set_pending_setup (Some setup) self in
          let self :=
            match cached_options_data self with
            | Some (_ :: _) => self
            | _ => fst (refresh_option_greeks self)
            end in
          match cached_options_data self with
          | None | Some [] => (self, None)
          | Some options_data =>
              match select_optimal_strike pow_overflow (Some options_data) price
                      (TARGET_RISK_MIN, TARGET_RISK_MAX) DEFAULT_LOT_SIZE with
              | (Some option, quantity, total_risk) =>
                  (set_signal_counter (S (signal_counter self)) self,
                   Some (mkSignalData 1 (su_entry_price setup) (su_stop_loss setup)
                           (su_target setup) option quantity total_risk))
              | (None, _, _) => (self, None)
              end
          end
      else (self, None)
  | _, _ => (self, None)
  end.

(** [place_order], given what [self.broker.place_order] answers; the outer
    [None] is the TypeError of the bracket-order arithmetic on an option
    without target or stop-loss, raised before anything is assigned. *)
Definition place_order (self : Engine) (signal_data : SignalData)
    (broker_answer : option string) : option (Engine * option string) :=
  if negb (has_broker self) then Some (self, None)
  else
    match target (sd_option_data signal_data), stop_loss (sd_option_data signal_data) with
    | Some _, Some _ =>
        match broker_answer with
        | Some order_id =>
            if String.eqb order_id "" then Some (self, None)
            else Some (set_order order_id self, Some order_id)
        | None => Some (self, None)
        end
    | _, _ => None
    end.

(** [AlgoTradingApp._check_breakout_signals] of main.py for the spot
    strategy: an exception is caught and logged. *)
Definition check_breakout_signals (spot_strategy : Engine) (price : Q)
    (broker_answer : option string) : Engine :=
  let '(self, signal_data) := check_live_tick spot_strategy price in
  match signal_data with
  | Some signal =>
      match place_order self signal broker_answer with
      | Some (self', _) => self'
      | None => self
      end
  | None => self
  end.

End Strategy.


(** ** main.py: the periodic re-evaluation *)

(** [AlgoTradingApp._update_strategies]: a new engine over the current
    candles, the six points and the setup of the old one copied over when a
    setup is pending, then a batch pass; [None] when that pass raises. *)
Definition update_strategies (spot_strategy : Engine) (spot_df : list Candle) : option Engine :=
  match spot_df with
  | [] => Some spot_strategy
  | _ :: _ =>
      let fresh := new_strategy spot_df (has_broker spot_strategy) in
      let restored :=
        match pending_setup spot_strategy with
        | Some _ =>
            set_pending_setup (pending_setup spot_strategy)
              (set_D (D_pt spot_strategy)
                 (set_C (C_pt spot_strategy)
                    (set_B (B_pt spot_strategy)
                       (set_A (A_pt spot_strategy)
                          (set_L1 (L1_pt spot_strategy)
                             (set_H1 (H1_pt spot_strategy) fresh))))))
        | None => fresh
        end in
      generate_signals restored
  end.

(** * Vocabulary of the statements *)

(** [x] is the first element of [l] whose key is minimal: every element
    before it has a strictly greater key, every element after it a key at
    least as great (ties are broken by encounter order). *)
Definition first_min {A : Type} (key : A -> Q) (l : list A) (x : A) : Prop :=
  exists pre post : list A,
    l = pre ++ x :: post /\
    (forall y, y ∈ pre -> key x < key y) /\
    (forall y, y ∈ post -> key x <= key y).

(** What the lot scan records for [option] at [lots] lots. *)
Definition candidate_at (option : OptionData) (lot_size : Z) (target_mid : Q) (lots : Z)
  : Candidate :=
  let total_risk := risk_of option * inject_Z (lots * lot_size) in
  mkCandidate option (lots * lot_size) total_risk (Qabs (total_risk - target_mid)).







(** The six points, the setup and the signal table: what the statements about
    the detector observe. *)
Definition structure_state (e : Engine)
  : option Point * option Point * option Point * option Point * option Point
    * option Point * option Setup * list SignalRow :=
  (L1_pt e, H1_pt e, A_pt e, B_pt e, C_pt e, D_pt e, pending_setup e, signals e).

(** The part of an engine the detector reads and the statements observe: the
    candles, the six points, the setup and the signal table.  [observable]
    blanks everything else (broker, recorded structures, options cache,
    order bookkeeping). *)
Definition observable (e : Engine) : Engine :=
  mkEngine (data e) false (signals e) (H1_pt e) (L1_pt e) (A_pt e) (B_pt e) (C_pt e)
    (D_pt e) (pending_setup e) [] None None 0 0.

(** A step respects the observable part when its effect on it depends on
    the observable part only. *)
Definition respects (f : Engine -> option Engine) : Prop :=
  forall e, observable <$> f e = observable <$> f (observable e).


(** The setup and point D are set and cleared together. *)
Definition in_sync (e : Engine) : Prop :=
  is_Some (pending_setup e) <-> is_Some (D_pt e).

(** What every block of the detection loop keeps: the candles, the size of
    the signal table, the broker and the order bookkeeping, a seeded L1, and
    the setup in step with point D. *)
Definition keeps (e e' : Engine) : Prop :=
  data e' = data e /\
  length (signals e') = length (signals e) /\
  has_broker e' = has_broker e /\
  order_counter e' = order_counter e /\
  signal_counter e' = signal_counter e /\
  last_order_id e' = last_order_id e /\
  (is_Some (L1_pt e) -> is_Some (L1_pt e')) /\
  (in_sync e -> in_sync e').

(** The engines the application can hold: a new one, one after a batch
    pass, after a tick of the live driver (whatever the broker answers), or
    after the periodic re-evaluation.  Nothing else writes to an engine; in
    particular the options cache is only written by the refresh inside the
    live check. *)
Inductive reachable (pow_overflow : Q -> bool) : Engine -> Prop :=
| reach_new (candles : list Candle) (broker : bool) :
    reachable pow_overflow (new_strategy candles broker)
| reach_generate (e e' : Engine) :
    reachable pow_overflow e -> generate_signals e = Some e' ->
    reachable pow_overflow e'
| reach_tick (e : Engine) (price : Q) (broker_answer : option string) :
    reachable pow_overflow e ->
    reachable pow_overflow (check_breakout_signals pow_overflow e price broker_answer)
| reach_update (e e' : Engine) (spot_df : list Candle) :
    reachable pow_overflow e -> update_strategies e spot_df = Some e' ->
    reachable pow_overflow e'.

(** The setup a live tick works with: the pending one, or the one it
    derives from C and D when none is pending. *)
Definition live_setup (self : Engine) (c d : Point) : Setup :=
  match pending_setup self with
  | Some setup => setup
  | None =>
      mkSetup (pt_price d + 0.05) (pt_price c - 0.05)
        (pt_price d + 0.05 + 2 * (pt_price d + 0.05 - (pt_price c - 0.05)))
        (structure_of self) None
  end.


(** * Sample data for the worked runs *)

(** Exact arithmetic never overflows. *)
Definition no_overflow (_ : Q) : bool := false.

Definition at_minute (m : Z) : DateTime := mkDateTime 2024 1 15 9 m 0 0.

(** A five-minute candle opening at 09:[m] with the given high and low. *)
Definition candle_at (m : Z) (high low : Q) : Candle :=
  mkCandle (at_minute m) low high low low 0.

(** The candle sequence of the specification's example: lows 100, 95, -,
    105, 102, 108 and a high of 110 at index 2. *)
Definition spec_example_candles : list Candle :=
  [candle_at 15 101 100; candle_at 20 100 95; candle_at 25 110 106;
   candle_at 30 108 105; candle_at 35 107 102; candle_at 40 109 108].

(** A sequence on which the whole structure forms: L1 at 1, H1 at 2, A at 3,
    B at 5, C at 7 and D, the high of candle 6. *)
Definition pending_candles : list Candle :=
  [candle_at 15 101 100; candle_at 20 100 95; candle_at 25 110 106;
   candle_at 30 108 105; candle_at 35 109 107; candle_at 40 108.5 106;
   candle_at 45 109 108; candle_at 50 109 107].

(** A sequence whose first candle has the lowest low, so that L1 stays where
    it is seeded: H1 at 2 with a high of 112, A at 3, B at 5, C at 7 and D,
    the high 106 of candle 6, below the high of H1. *)
Definition replay_candles : list Candle :=
  [candle_at 15 101 90; candle_at 20 105 95; candle_at 25 112 100;
   candle_at 30 108 97; candle_at 35 107 99; candle_at 40 104 98;
   candle_at 45 106 100; candle_at 50 105 99].

(** The engine after the batch pass over [replay_candles]. *)
Definition replay_engine : Engine :=
  Eval vm_compute in
    default (new_strategy [] true) (generate_signals (new_strategy replay_candles true)).

(** The engine after the batch pass over [pending_candles]. *)
Definition pending_engine : Engine :=
  Eval vm_compute in
    default (new_strategy [] true) (generate_signals (new_strategy pending_candles true)).

(** The same run stopped before candle 7, where C is about to form. *)
Definition before_C_engine : Engine :=
  Eval vm_compute in
    default (new_strategy [] true)
      (process_candles (seq 1 6) (initialize_H1_L1 (new_strategy pending_candles true))).

Definition example_row : OptionRow :=
  mkOptionRow "NIFTY24JAN21500CE" "43210" 21500 "CE" "25JAN2024" 75
    0.5 0.001 (-12) 10 0.15 120 119.5 120.5 1000 5000.

(** A contract without a quote: its last price is zero. *)
Definition unquoted_row : OptionRow :=
  mkOptionRow "NIFTY24JAN23000CE" "43999" 23000 "CE" "25JAN2024" 75
    0.05 0.0001 (-1) 2 0.2 0 0 0.5 0 10.

(** A contract without a quote whose risk for 40 lots falls in the middle
    of the default band. *)
Definition unquoted_near_row : OptionRow :=
  mkOptionRow "NIFTY24JAN21550CE" "43215" 21550 "CE" "25JAN2024" 75
    0.52 0 0 8 0.16 0 0 0.5 0 25.

(** [pending_engine] once an options table is in its cache. *)
Definition live_engine : Engine :=
  set_cached_options_data (Some [example_row]) pending_engine.

(** A candle breaking out above D = 109. *)
Definition breakout_candle : Candle := candle_at 55 109.5 107.5.

(** A five-minute aggregator whose candle in progress opened at 09:20. *)
Definition spot_5min : LiveOHLCVData :=
  mkLive 5 (Some (mkCandle (at_minute 20) 100 100 100 100 0)) [].

(** A tick stamped 09:17:30, in the bucket before the one in progress,
    carrying a volume. *)
Definition late_tick : Tick :=
  mkTick (Some (mkDateTime 2024 1 15 9 17 30 0)) (Some 120) (Some 10).
(** * More of the program: the rest of the aggregator, swing listing, the
    broker's order calls and the tick driver *)

(** ** data/ohlcv.py: reading the candles back *)

(** [l[start:]] on a Python list: a negative [start] counts from the end,
    and the start is clipped to the list. *)
Definition py_slice_from {A : Type} (start : Z) (l : list A) : list A :=
  let len := Z.of_nat (length l) in
  let first := if (start <? 0)%Z then Z.max (len + start) 0 else Z.min start len in
  drop (Z.to_nat first) l.

(** [self.completed_candles + [self.current_candle] if self.current_candle
    else self.completed_candles] *)
Definition all_candles (self : LiveOHLCVData) : list Candle :=
  match current_candle self with
  | Some cur => completed_candles self ++ [cur]
  | None => completed_candles self
  end.

(** [get_latest_candles]: [all_candles[-count:]]. *)
Definition get_latest_candles (self : LiveOHLCVData) (count : Z) : list Candle :=
  py_slice_from (- count) (all_candles self).

(** [get_dataframe]: the rows of the frame in order, each indexed by its
    [time]; the empty list is the empty frame. *)
Definition get_dataframe (self : LiveOHLCVData) : list Candle :=
  get_latest_candles self 100.

(** A row of the historical frame; [h_volume] is [None] when the frame has
    no volume column. *)
Record HistoricalRow := mkHistoricalRow {
  h_timestamp : DateTime;
  h_open : Q;
  h_high : Q;
  h_low : Q;
  h_close : Q;
  h_volume : option Q
}.

(** The candle dictionary built from one row. *)
Definition candle_of_row (row : HistoricalRow) : Candle :=
  mkCandle (h_timestamp row) (h_open row) (h_high row) (h_low row) (h_close row)
    (default 0 (h_volume row)).

Section Historical.

(** [historical_df.sort_values('timestamp')]: pandas does not fix the order
    of rows with equal timestamps, so the sort is a parameter; the
    statements assume of it what every sort provides. *)
Variable sort_values : list HistoricalRow -> list HistoricalRow.

(** [initialize_from_historical]: the aggregator it leaves and the boolean
    it returns. *)
Definition initialize_from_historical (self : LiveOHLCVData)
    (historical_df : list HistoricalRow) : LiveOHLCVData * bool :=
  match historical_df with
  | [] => (self, false)
  | _ :: _ =>
      (mkLive (timeframe_minutes self) (current_candle self)
              (completed_candles self ++ map candle_of_row (sort_values historical_df)),
       true)
  end.

End Historical.

(** ** Vocabulary for the aggregator *)

(** A well-formed candle: open and close lie between low and high. *)
Definition candle_ok (c : Candle) : Prop :=
  c_low c <= c_open c /\ c_open c <= c_high c /\
  c_low c <= c_close c /\ c_close c <= c_high c.

(** Candle times strictly increase along the list. *)
Definition times_increasing (candles : list Candle) : Prop :=
  forall (i j : nat) (ci cj : Candle),
    (i < j)%nat -> candles !! i = Some ci -> candles !! j = Some cj ->
    dt_gtb (c_time cj) (c_time ci) = true.

(** Rows in timestamp order (equal timestamps allowed). *)
Definition rows_in_time_order (rows : list HistoricalRow) : Prop :=
  forall (i j : nat) (ri rj : HistoricalRow),
    (i < j)%nat -> rows !! i = Some ri -> rows !! j = Some rj ->
    dt_gtb (h_timestamp ri) (h_timestamp rj) = false.

(** ** strategies/bullish_swing.py: listing the swings, reading a signal *)

(** The body of the loop of [detect_swings] at index [i]. *)
Definition swing_step (data : list Candle) (swings : list (nat * Q) * list (nat * Q))
    (i : nat) : list (nat * Q) * list (nat * Q) :=
  match data !! i with
  | Some candle =>
      (if is_swing_high data i then fst swings ++ [(i, c_high candle)] else fst swings,
       if is_swing_low data i then snd swings ++ [(i, c_low candle)] else snd swings)
  | None => swings
  end.

(** [detect_swings]: ([self.swing_highs], [self.swing_lows]), each a list of
    [(i, price)] in the order of the loop over [range(1, len(self.data) - 1)]. *)
Definition detect_swings (data : list Candle) : list (nat * Q) * list (nat * Q) :=
  foldl (swing_step data) ([], []) (seq 1 (length data - 2)).

(** [_check_for_entry_trigger]; [None] is the IndexError of [iloc]. *)
Definition check_for_entry_trigger (self : Engine) (idx : nat) : option bool :=
  row ← signals self !! idx;
  Some (row_signal row =? 1)%Z.

(** ** Vocabulary for the detector *)

(** The row of a candle without a signal, as [__init__] fills it. *)
Definition zero_row : SignalRow := mkSignalRow 0 None None None.

(** The price of a point is the [side] (low or high) of the candle at its
    index. *)
Definition anchored (candles : list Candle) (side : Candle -> Q) (p : Point) : Prop :=
  side <$> candles !! pt_idx p = Some (pt_price p).

(** The setup [calculate_point_D] derives from C and D. *)
Definition setup_of (structure : Structure) (c d : Point) : Setup :=
  mkSetup (pt_price d + 0.05) (pt_price c - 0.05)
    (pt_price d + 0.05 + (pt_price d + 0.05 - (pt_price c - 0.05)) * 2)
    structure (Some "CE_BUYING"%string).

(** D is at least every high from the candle of B up to the candle of C,
    and up to the candles before [done]. *)
Definition D_dominates (candles : list Candle) (done : nat) (b c d : Point) : Prop :=
  forall (k : nat) (ck : Candle),
    (pt_idx b <= k)%nat -> (k <= pt_idx c)%nat \/ (k < done)%nat ->
    candles !! k = Some ck -> c_high ck <= pt_price d.

(** The shape of the points while the batch pass is at candle [done]: the
    points form in the order L1, H1, A, B, C with D; each lies on its candle,
    after the point before it, and the lows rise from L1 over A and B to C. *)
Record structure_shape (e : Engine) (done : nat) : Prop := {
  shape_L1 : forall l, L1_pt e = Some l ->
    (pt_idx l <= done)%nat /\ anchored (data e) c_low l;
  shape_H1 : forall h, H1_pt e = Some h ->
    exists l, L1_pt e = Some l /\ (pt_idx l < pt_idx h <= done)%nat /\
              pt_price l < pt_price h /\ anchored (data e) c_high h;
  shape_A : forall a, A_pt e = Some a ->
    exists h l, H1_pt e = Some h /\ L1_pt e = Some l /\
                (pt_idx h < pt_idx a <= done)%nat /\
                pt_price l < pt_price a /\ anchored (data e) c_low a;
  shape_B : forall b, B_pt e = Some b ->
    exists a, A_pt e = Some a /\ (pt_idx a + 1 < pt_idx b <= done)%nat /\
              pt_price a < pt_price b /\ anchored (data e) c_low b;
  shape_C : forall c, C_pt e = Some c ->
    exists b d, B_pt e = Some b /\ D_pt e = Some d /\
                (pt_idx b < pt_idx c <= done)%nat /\
                pt_price b < pt_price c /\ anchored (data e) c_low c /\
                (pt_idx b <= pt_idx d <= pt_idx c)%nat /\
                anchored (data e) c_high d /\
                D_dominates (data e) done b c d;
  shape_D : forall d, D_pt e = Some d -> is_Some (C_pt e);
  shape_setup :
    pending_setup e =
    match C_pt e, D_pt e with
    | Some c, Some d => Some (setup_of (structure_of e) c d)
    | _, _ => None
    end
}.

(** What a recorded structure says: the signal at candle [j] was written
    for a complete structure, whose lows rise from L1 over A and B to C,
    formed before [j]; D is the highest high from B to the candle before
    [j], and the high of candle [j] is the first to exceed it. *)
Definition recorded_breakout (candles : list Candle) (signals : list SignalRow)
    (done : nat) (rec : StructureRecord) : Prop :=
  exists (j : nat) (l1 h1 a b c d : Point) (cj : Candle),
    (j < done)%nat /\
    rec = mkStructureRecord
            (mkStructure (Some h1) (Some l1) (Some a) (Some b) (Some c) (Some d))
            (j, pt_price d + 0.05) (j, pt_price c - 0.05)
            (j, pt_price d + 0.05 + (pt_price d + 0.05 - (pt_price c - 0.05)) * 2) /\
    signals !! j =
      Some (mkSignalRow 1 (Some (pt_price d + 0.05)) (Some (pt_price c - 0.05))
              (Some (pt_price d + 0.05 + (pt_price d + 0.05 - (pt_price c - 0.05)) * 2))) /\
    (pt_idx l1 < pt_idx h1 < pt_idx a)%nat /\
    (pt_idx a + 1 < pt_idx b < pt_idx c)%nat /\ (pt_idx c < j)%nat /\
    (pt_idx b <= pt_idx d <= pt_idx c)%nat /\
    pt_price l1 < pt_price h1 /\ pt_price l1 < pt_price a /\
    pt_price a < pt_price b /\ pt_price b < pt_price c /\
    anchored candles c_low l1 /\ anchored candles c_high h1 /\
    anchored candles c_low a /\ anchored candles c_low b /\
    anchored candles c_low c /\ anchored candles c_high d /\
    candles !! j = Some cj /\ pt_price d < c_high cj /\
    (forall (k : nat) (ck : Candle),
       (pt_idx b <= k < j)%nat -> candles !! k = Some ck -> c_high ck <= pt_price d).

(** The signal table and the recorded structures while the batch pass is
    at candle [done]: one row per candle; every recorded structure is a
    breakout before [done]; every row is the untouched row or the row of a
    recorded structure. *)
Record ledger (e : Engine) (done : nat) : Prop := {
  ledger_length : length (signals e) = length (data e);
  ledger_records : forall rec, rec ∈ structures e ->
    recorded_breakout (data e) (signals e) done rec;
  ledger_rows : forall (j : nat) (row : SignalRow), signals e !! j = Some row ->
    row = zero_row \/
    (j < done)%nat /\
    exists rec, rec ∈ structures e /\ fst (sr_entry rec) = j /\
                row = mkSignalRow 1 (Some (snd (sr_entry rec)))
                        (Some (snd (sr_stop_loss rec))) (Some (snd (sr_target rec)))
}.

(** The names [reset_points] knows. *)
Definition point_names : list string := ["H1"; "L1"; "A"; "B"; "C"; "D"]%string.

(** The cache holds no options table: it is unset, or the empty frame that
    [refresh_option_greeks] stores. *)
Definition no_options_table (e : Engine) : Prop :=
  cached_options_data e = None \/ cached_options_data e = Some [].

(** ** main.py: the application *)

Definition SPOT_TOKEN : string := "99926000".

(** The attributes of [AlgoTradingApp] that the tick path and the periodic
    re-evaluation use ([self.spot_1min] is [app_spot_1min], and so on).
    The broker is the module's [AngelOneBroker], so every strategy is built
    with a broker. *)
Record App := mkApp {
  app_spot_1min : LiveOHLCVData;
  app_spot_5min : LiveOHLCVData;
  app_spot_15min : LiveOHLCVData;
  spot_strategy : option Engine;
  spot_ticks : list Tick;
  spot_ltp : Q;
  tick_count : nat
}.

(** [AlgoTradingApp.__init__] *)
Definition new_app : App :=
  mkApp (mkLive 1 None []) (mkLive 5 None []) (mkLive 15 None []) None [] 0 0.

(** An element of the ['data'] list of a tick message, together with what
    the environment answers while it is processed: the reading of
    [datetime.now()] and the broker's answer should an order be sent. *)
Record TickItem := mkTickItem {
  item_token : string;
  item_last_traded_price : Q;
  item_volume : option Q;
  item_now : DateTime;
  item_broker_answer : option string
}.

Section Application.

Variable pow_overflow : Q -> bool.
Variable sort_values : list HistoricalRow -> list HistoricalRow.

(** The body of the loop of [_process_tick] for one item: the price is
    converted from paise, the three aggregators take the same tick, and the
    strategy, if there is one, checks the price for a breakout. *)
Definition process_item (app : App) (item : TickItem) : App :=
  if String.eqb (item_token item) SPOT_TOKEN then
    let price := item_last_traded_price item * 0.01 in
    let structured_tick := mkTick (Some (item_now item)) (Some price) (item_volume item) in
    mkApp (update_from_tick (app_spot_1min app) structured_tick)
          (update_from_tick (app_spot_5min app) structured_tick)
          (update_from_tick (app_spot_15min app) structured_tick)
          (match spot_strategy app with
           | Some strategy =>
               Some (check_breakout_signals pow_overflow strategy price
                       (item_broker_answer item))
           | None => None
           end)
          (spot_ticks app ++ [structured_tick]) price (S (tick_count app))
  else app.

(** [_process_tick] on a message whose ['data'] is [tick_data]. *)
Definition process_tick (app : App) (tick_data : list TickItem) : App :=
  foldl process_item app tick_data.

(** [_initialize_historical_data], given the frame fetched from the broker;
    [None] when the batch pass raises (nothing catches it there). *)
Definition initialize_historical_data (app : App) (spot_historical : list HistoricalRow)
  : option App :=
  match spot_historical with
  | [] => Some app
  | _ :: _ =>
      let load live := fst (initialize_from_historical sort_values live spot_historical) in
      let live_1min := load (app_spot_1min app) in
      let live_5min := load (app_spot_5min app) in
      let live_15min := load (app_spot_15min app) in
      let spot_df := get_dataframe live_5min in
      strategy ← generate_signals (new_strategy spot_df true);
      Some (mkApp live_1min live_5min live_15min (Some strategy) (spot_ticks app)
                  (spot_ltp app) (tick_count app))
  end.

(** [_update_strategies] on the frame of the 5-minute aggregator; [None]
    when the batch pass raises (the source logs the exception and goes on
    with a strategy that stopped half-way). *)
Definition app_update_strategies (app : App) : option App :=
  match spot_strategy app with
  | Some strategy =>
      strategy' ← update_strategies strategy (get_dataframe (app_spot_5min app));
      Some (mkApp (app_spot_1min app) (app_spot_5min app) (app_spot_15min app)
                  (Some strategy') (spot_ticks app) (spot_ltp app) (tick_count app))
  | None => Some app
  end.

(** What happens to the application, one event at a time (the websocket
    callback and the main loop are taken not to interleave within an
    event). *)
Inductive AppEvent :=
| HistoricalData (spot_historical : list HistoricalRow)
| TickMessage (tick_data : list TickItem)
| UpdateStrategies.

Definition app_step (app : App) (event : AppEvent) : option App :=
  match event with
  | HistoricalData spot_historical => initialize_historical_data app spot_historical
  | TickMessage tick_data => Some (process_tick app tick_data)
  | UpdateStrategies => app_update_strategies app
  end.

Fixpoint run_app (app : App) (events : list AppEvent) : option App :=
  match events with
  | [] => Some app
  | event :: rest => app ← app_step app event; run_app app rest
  end.

End Application.

(** What the detector never writes: the candles, the broker and the order
    bookkeeping. *)
Definition bookkeeping (e : Engine)
  : list Candle * bool * option string * nat * nat :=
  (data e, has_broker e, last_order_id e, order_counter e, signal_counter e).

(** A strategy that has never signalled nor ordered and holds no options
    table, its setup in step with point D. *)
Definition idle (strategy : Engine) : Prop :=
  in_sync strategy /\ no_options_table strategy /\
  signal_counter strategy = 0%nat /\ order_counter strategy = 0%nat /\
  last_order_id strategy = None.

(** ** brokers/angelone.py: pacing, order placement, order status *)

Definition MAX_REQUESTS_PER_MINUTE : nat := 500.
Definition MIN_REQUEST_INTERVAL_MS : Q := 50.

(** The rate-limit bookkeeping of an [AngelOneBroker]. *)
Record Broker := mkBroker {
  last_order_time : Q;
  minute_order_count : nat;
  minute_start_time : Q;
  last_status_check : Q;
  minute_status_count : nat;
  minute_status_start : Q
}.

(** The durations slept, in order, and their sum. *)
Definition sleeps (events : list RetryEvent) : list Q :=
  omap (fun event => match event with Sleep seconds => Some seconds | Call _ => None end)
       events.

Definition total_sleep (events : list RetryEvent) : Q := foldr Qplus 0 (sleeps events).

(** The attempts made, in order. *)
Definition calls (events : list RetryEvent) : list nat :=
  omap (fun event => match event with Call retry => Some retry | Sleep _ => None end)
       events.

(** The minute window both request methods open with: the request count
    and the window start they go on with, and the wait.  [current_time] is
    the reading of [time.time()] on entry, [resumed] the one after the
    wait. *)
Definition minute_window (count : nat) (start current_time resumed : Q)
  : nat * Q * list RetryEvent :=
  if Qle_bool 60 (current_time - start) then (O, current_time, [])
  else if (MAX_REQUESTS_PER_MINUTE <=? count)%nat then
    let sleep_time := 60 - (current_time - start) in
    if Qgtb sleep_time 0 then (O, resumed, [Sleep sleep_time])
    else (count, start, [])
  else (count, start, []).

(** The wait that keeps requests [MIN_REQUEST_INTERVAL_MS] apart. *)
Definition pace (current_time last : Q) : list RetryEvent :=
  let time_since_last := current_time - last in
  let min_interval_sec := MIN_REQUEST_INTERVAL_MS / 1000 in
  if Qltb time_since_last min_interval_sec
  then [Sleep (min_interval_sec - time_since_last)] else [].

(** [str.isalnum] on ASCII strings. *)
Definition isalnum_ascii (c : ascii) : bool :=
  let n := nat_of_ascii c in
  ((48 <=? n) && (n <=? 57) || (65 <=? n) && (n <=? 90) || (97 <=? n) && (n <=? 122))%nat.

Definition isalnum (s : string) : bool :=
  match list_ascii_of_string s with
  | [] => false
  | chars => forallb isalnum_ascii chars
  end.

(** What [self.api.placeOrder] answers. *)
Inductive OrderResponse :=
| ResponseDict (status : bool) (data : option (option string))
    (* a dict and the truth of its 'status'; [data] is the 'orderid' of its
       'data' (a missing 'data' counts as an empty dict), or [None] when
       'data' is not a dict, so that reading it raises *)
| ResponseStr (text : string)
| ResponseOther                      (* anything else, [None] included *)
| ResponseRaise.                     (* the call raises *)

(** The order id read from the response; raising while reading gives none,
    as the handler of [place_order] returns [None]. *)
Definition order_id_of (response : OrderResponse) : option string :=
  match response with
  | ResponseDict true (Some orderid) => orderid
  | ResponseStr text => if isalnum text then Some text else None
  | _ => None
  end.

(** [AngelOneBroker.place_order]: the broker it leaves, what it did (the
    call is [Call 0]), the variety the order was sent with, and the order id
    it returns.  [connected] is what [self.connect()] answers, [variety] the
    'variety' of [order_params] if it has one, [placed_at] the reading of
    [time.time()] after the call. *)
Definition broker_place_order (self : Broker) (connected : bool) (variety : option string)
    (order_type : string) (current_time resumed placed_at : Q) (response : OrderResponse)
  : Broker * list RetryEvent * option string * option string :=
  if negb connected then (self, [], None, None)
  else
    let '(count, start, waits) :=
      minute_window (minute_order_count self) (minute_start_time self) current_time resumed in
    let events := waits ++ pace current_time (last_order_time self) ++ [Call 0] in
    let sent_variety := Some (default order_type variety) in
    match response with
    | ResponseRaise =>
        (mkBroker (last_order_time self) count start (last_status_check self)
                  (minute_status_count self) (minute_status_start self),
         events, sent_variety, None)
    | _ =>
        (mkBroker placed_at (S count) start (last_status_check self)
                  (minute_status_count self) (minute_status_start self),
         events, sent_variety,
         match order_id_of response with
         | Some order_id => if String.eqb order_id "" then None else Some order_id
         | None => None
         end)
    end.

(** An entry of the order book, and the dictionary [check_order_status]
    returns for it. *)
Record BookOrder := mkBookOrder {
  bo_orderid : option string;
  bo_status : option string;
  bo_filledqty : option string;
  bo_averageprice : option string;
  bo_ordertype : option string;
  bo_producttype : option string;
  bo_variety : option string
}.

Record OrderStatus := mkOrderStatus {
  os_order_id : string;
  os_status : option string;
  os_filled_quantity : option string;
  os_average_price : option string;
  os_order_type : option string;
  os_product_type : option string;
  os_variety : option string
}.

(** What [self.api.orderBook] answers. *)
Inductive BookResponse :=
| BookOrders (orders : list BookOrder)  (* a truthy response whose 'data' lists orders *)
| BookNoData                            (* a falsy response, or one without 'data' *)
| BookUnreadable                        (* 'data' is there but iterating it raises *)
| BookRaise.                            (* the call raises *)

(** The loop over [order_book['data']]. *)
Fixpoint find_order (order_id : string) (orders : list BookOrder) : option OrderStatus :=
  match orders with
  | [] => None
  | order :: rest =>
      if bool_decide (bo_orderid order = Some order_id)
      then Some (mkOrderStatus order_id (bo_status order) (bo_filledqty order)
                   (bo_averageprice order) (bo_ordertype order) (bo_producttype order)
                   (bo_variety order))
      else find_order order_id rest
  end.

(** [self._last_status_check = time.time(); self._minute_status_count += 1] *)
Definition note_status_check (checked_at : Q) (self : Broker) : Broker :=
  mkBroker (last_order_time self) (minute_order_count self) (minute_start_time self)
           checked_at (S (minute_status_count self)) (minute_status_start self).

(** The body of [for retry in range(max_retries)] of [check_order_status],
    from attempt [retry] on with [remaining] attempts left.  [attempts] gives,
    per attempt, what the provider answers and the reading of [time.time()]
    after the call (a missing one is a call that raises).  [current_time] is
    the reading taken on entry, which the pacing keeps using. *)
Fixpoint status_loop (order_id : string) (current_time : Q)
    (attempts : list (BookResponse * Q)) (self : Broker) (retry remaining : nat)
  : Broker * list RetryEvent * option OrderStatus :=
  match remaining with
  | O => (self, [], None)
  | S remaining' =>
      let before := pace current_time (last_status_check self) ++ [Call retry] in
      let retry_wait := match remaining' with O => [] | S _ => [Sleep 0.5] end in
      let '(response, checked_at) := default (BookRaise, 0) (head attempts) in
      match response with
      | BookOrders orders =>
          (note_status_check checked_at self, before, find_order order_id orders)
      | BookNoData | BookUnreadable =>
          let '(self', events, result) :=
            status_loop order_id current_time (tail attempts)
              (note_status_check checked_at self) (S retry) remaining' in
          (self', before ++ retry_wait ++ events, result)
      | BookRaise =>
          let '(self', events, result) :=
            status_loop order_id current_time (tail attempts) self (S retry) remaining' in
          (self', before ++ retry_wait ++ events, result)
      end
  end.

(** [AngelOneBroker.check_order_status]; [order_id] is [None] for Python's
    [None]. *)
Definition check_order_status (self : Broker) (order_id : option string) (max_retries : nat)
    (current_time resumed : Q) (attempts : list (BookResponse * Q))
  : Broker * list RetryEvent * option OrderStatus :=
  match order_id with
  | None => (self, [], None)
  | Some order_id =>
      if String.eqb order_id "" then (self, [], None)
      else
        let '(count, start, waits) :=
          minute_window (minute_status_count self) (minute_status_start self)
                        current_time resumed in
        let self := mkBroker (last_order_time self) (minute_order_count self)
                             (minute_start_time self) (last_status_check self) count start in
        let '(self', events, result) :=
          status_loop order_id current_time attempts self 0 max_retries in
        (self', waits ++ events, result)
  end.

(** ** More sample data *)

(** A stable sort of the historical rows by timestamp: one [sort_values]. *)
Fixpoint insert_row (row : HistoricalRow) (rows : list HistoricalRow) : list HistoricalRow :=
  match rows with
  | [] => [row]
  | first :: rest =>
      if dt_gtb (h_timestamp row) (h_timestamp first)
      then first :: insert_row row rest
      else row :: first :: rest
  end.

Definition sort_rows (rows : list HistoricalRow) : list HistoricalRow :=
  foldr insert_row [] rows.

(** Three one-minute rows, out of order, the last without a volume. *)
Definition history_rows : list HistoricalRow :=
  [mkHistoricalRow (at_minute 17) 101 102 100 101.5 (Some 10);
   mkHistoricalRow (at_minute 15) 100 101 99 100.5 (Some 20);
   mkHistoricalRow (at_minute 16) 100.5 101.5 100 101 None].

(** A tick stamped 09:26:10, in the bucket after the one of [spot_5min]. *)
Definition later_tick : Tick :=
  mkTick (Some (mkDateTime 2024 1 15 9 26 10 0)) (Some 98) None.

(** [pending_candles] followed by a candle that breaks out above D. *)
Definition breakout_run : list Candle := pending_candles ++ [breakout_candle].

(** [live_engine] after an order was placed. *)
Definition capped_engine : Engine := set_order "A1" live_engine.

(** [pending_engine] with a table that holds only a contract without a
    quote. *)
Definition unquoted_engine : Engine :=
  set_cached_options_data (Some [unquoted_row]) pending_engine.

(** A spot tick item at 21500.00 (in paise), stamped 09:17:30. *)
Definition spot_item : TickItem :=
  mkTickItem SPOT_TOKEN 2150000 None (mkDateTime 2024 1 15 9 17 30 0) None.

(** An option whose risk per lot is 11. *)
Definition priced_option : OptionData := set_risk_per_lot 11 (OptionData_init example_row).
(** * Properties *)

(** ** Comparisons, [max] and [min], the stable sort *)

Lemma Qgtb_true (a b : Q) : Qgtb a b = true <-> b < a.
Proof.
  unfold Qgtb. rewrite negb_true_iff, <- not_true_iff_false, Qle_bool_iff.
  split; [apply Qnot_le_lt | apply Qlt_not_le].
Qed.

Lemma Qgtb_false (a b : Q) : Qgtb a b = false <-> a <= b.
Proof. unfold Qgtb. rewrite negb_false_iff. apply Qle_bool_iff. Qed.

Lemma Qltb_true (a b : Q) : Qltb a b = true <-> a < b.
Proof. apply Qgtb_true. Qed.

Lemma Qltb_false (a b : Q) : Qltb a b = false <-> b <= a.
Proof. apply Qgtb_false. Qed.

Lemma Qle_bool_false (a b : Q) : Qle_bool a b = false <-> b < a.
Proof. rewrite <- Qgtb_true. unfold Qgtb. symmetry. apply negb_true_iff. Qed.

Lemma Qcompare_cases (a b : Q) :
  (a ?= b) = Lt /\ a < b \/ (a ?= b) = Eq /\ a == b \/ (a ?= b) = Gt /\ b < a.
Proof.
  destruct (a ?= b) eqn:Hc.
  - right. left. split; [reflexivity|]. now apply Qeq_alt.
  - left. split; [reflexivity|]. now apply Qlt_alt.
  - right. right. split; [reflexivity|]. now apply Qgt_alt.
Qed.

Lemma py_max_Qmax (a b : Q) : py_max a b = Qmax a b.
Proof.
  unfold py_max, Qmax, GenericMinMax.gmax.
  destruct (Qcompare_cases a b) as [[-> H]|[[-> H]|[-> H]]];
    destruct (Qgtb b a) eqn:E; try reflexivity;
    first [apply Qgtb_true in E|apply Qgtb_false in E]; lra.
Qed.

Lemma py_min_Qmin (a b : Q) : py_min a b = Qmin a b.
Proof.
  unfold py_min, Qmin, GenericMinMax.gmin.
  destruct (Qcompare_cases a b) as [[-> H]|[[-> H]|[-> H]]];
    destruct (Qltb b a) eqn:E; try reflexivity;
    first [apply Qltb_true in E|apply Qltb_false in E]; lra.
Qed.

Lemma insert_by_key_not_nil {A : Type} (key : A -> Q) (x : A) (l : list A) :
  insert_by_key key x l <> [].
Proof. destruct l as [|y l]; simpl; [|destruct (Qle_bool _ _)]; discriminate. Qed.

Lemma sort_by_key_nil {A : Type} (key : A -> Q) (l : list A) :
  sort_by_key key l = [] <-> l = [].
Proof.
  destruct l as [|x l]; simpl; [tauto|].
  split; [|discriminate]. intros H. exfalso. exact (insert_by_key_not_nil _ _ _ H).
Qed.

(** The head of the stable sort is the first minimal element. *)
Lemma sort_by_key_head {A : Type} (key : A -> Q) (l : list A) (x : A) (rest : list A) :
  sort_by_key key l = x :: rest -> first_min key l x.
Proof.
  revert x rest. induction l as [|a l IH]; intros x rest; simpl; [discriminate|].
  destruct (sort_by_key key l) as [|y sorted] eqn:Hs; simpl.
  - intros [= <- _]. apply sort_by_key_nil in Hs as ->.
    exists [], []. split; [reflexivity|]. split; intros y Hy; inversion Hy.
  - destruct (IH y sorted eq_refl) as (pre & post & -> & Hpre & Hpost).
    destruct (Qle_bool (key a) (key y)) eqn:Hle.
    + intros [= <- _]. apply Qle_bool_iff in Hle.
      exists [], (pre ++ y :: post). split; [reflexivity|].
      split; [intros z Hz; inversion Hz|].
      intros z Hz. apply elem_of_app in Hz as [Hz|Hz].
      * specialize (Hpre z Hz). lra.
      * apply elem_of_cons in Hz as [->|Hz]; [lra|]. specialize (Hpost z Hz). lra.
    + intros [= <- _]. apply Qle_bool_false in Hle.
      exists (a :: pre), post. split; [reflexivity|]. split; [|exact Hpost].
      intros z Hz. apply elem_of_cons in Hz as [->|Hz]; [exact Hle|auto].
Qed.

Lemma first_min_elem {A : Type} (key : A -> Q) (l : list A) (x : A) :
  first_min key l x -> x ∈ l /\ forall y, y ∈ l -> key x <= key y.
Proof.
  intros (pre & post & -> & Hpre & Hpost). split.
  - apply elem_of_app. right. apply elem_of_cons. now left.
  - intros y Hy. apply elem_of_app in Hy as [Hy|Hy].
    + apply Qlt_le_weak. auto.
    + apply elem_of_cons in Hy as [->|Hy]; [apply Qle_refl|auto].
Qed.

Lemma first_min_lookup {A : Type} (key : A -> Q) (l : list A) (x : A) :
  first_min key l x <->
  exists i : nat,
    l !! i = Some x /\
    (forall j y, (j < i)%nat -> l !! j = Some y -> key x < key y) /\
    (forall j y, (i < j)%nat -> l !! j = Some y -> key x <= key y).
Proof.
  split.
  - intros (pre & post & -> & Hpre & Hpost). exists (length pre). split_and!.
    + rewrite lookup_app_r, Nat.sub_diag by lia. reflexivity.
    + intros j y Hj Hy. rewrite lookup_app_l in Hy by lia.
      apply Hpre, list_elem_of_lookup. eauto.
    + intros j y Hj Hy. rewrite lookup_app_r in Hy by lia.
      destruct (j - length pre)%nat as [|k] eqn:Hk; [lia|]. simpl in Hy.
      apply Hpost, list_elem_of_lookup. eauto.
  - intros (i & Hi & Hlt & Hgt). exists (take i l), (drop (S i) l). split_and!.
    + rewrite <- (take_drop_middle l i x Hi) at 1. reflexivity.
    + intros y Hy. apply list_elem_of_lookup in Hy as (j & Hj).
      pose proof (lookup_lt_Some _ _ _ Hj) as Hlen. rewrite length_take in Hlen.
      rewrite lookup_take_lt in Hj by lia. apply (Hlt j); [lia|exact Hj].
    + intros y Hy. apply list_elem_of_lookup in Hy as (j & Hj).
      rewrite lookup_drop in Hj. apply (Hgt (S i + j)%nat); [lia|exact Hj].
Qed.

(** The first minimal element is unique: the choice is deterministic. *)
Lemma first_min_unique {A : Type} (key : A -> Q) (l : list A) (x y : A) :
  first_min key l x -> first_min key l y -> x = y.
Proof.
  rewrite !first_min_lookup.
  intros (i & Hi & Hilt & Higt) (j & Hj & Hjlt & Hjgt).
  destruct (Nat.lt_trichotomy i j) as [Hlt|[->|Hlt]].
  - pose proof (Hjlt i x Hlt Hi). pose proof (Higt j y Hlt Hj). lra.
  - congruence.
  - pose proof (Hilt j y Hlt Hj). pose proof (Hjgt i x Hlt Hi). lra.
Qed.

(** ** The risk model: [calculate_stop_loss] *)

Section RiskProperties.

Variable pow_overflow : Q -> bool.

Lemma calculate_stop_loss_None (o : OptionData) (e s : Q) :
  calculate_stop_loss pow_overflow o e s = None <-> pow_overflow (Qabs (e - s)) = true.
Proof.
  unfold calculate_stop_loss. destruct (pow_overflow (Qabs (e - s))); split; congruence.
Qed.

(** The option keeps every attribute but the three that the computation
    assigns. *)
Lemma calculate_stop_loss_frame (o o' : OptionData) (e s : Q) (r : StopLossCalc) :
  calculate_stop_loss pow_overflow o e s = Some (o', r) ->
  last_price o' = last_price o /\ delta o' = delta o /\ gamma o' = gamma o /\
  theta o' = theta o /\ symbol o' = symbol o /\ token o' = token o /\
  risk_per_lot o' = Some (total_sl r).
Proof.
  unfold calculate_stop_loss. destruct (pow_overflow _); [discriminate|].
  intros [= <- <-]. simpl. destruct (Qgtb (last_price o) 0); simpl; repeat split.
Qed.

(** C5. For every option and every underlying entry/stop pair, with
    [move = |entry - stop|]: the computation fails exactly when the
    arithmetic raises (which does not depend on the Greeks or their sign);
    otherwise it returns [delta_impact = delta * move],
    [gamma_impact = 0.5 * gamma * move^2],
    [theta_impact = (|theta| / 144) * (10/60)] and their sum as total, stores
    the total as [risk_per_lot], and, when [last_price > 0], sets
    [stop_loss = max(last_price - total, 0.1)] and
    [target = last_price + 2 * (last_price - stop_loss)]; when
    [last_price <= 0] it leaves [stop_loss] and [target] as they were. *)
Theorem calculate_stop_loss_spec (o : OptionData) (underlying_entry underlying_sl : Q) :
  let move := Qabs (underlying_entry - underlying_sl) in
  let total :=
    delta o * move + 0.5 * gamma o * (move * move) + (Qabs (theta o) / 144) * (10 / 60) in
  if pow_overflow move
  then calculate_stop_loss pow_overflow o underlying_entry underlying_sl = None
  else exists (o' : OptionData) (r : StopLossCalc),
    calculate_stop_loss pow_overflow o underlying_entry underlying_sl = Some (o', r) /\
    delta_impact r == delta o * move /\
    gamma_impact r == 0.5 * gamma o * (move * move) /\
    theta_impact r == (Qabs (theta o) / 144) * (10 / 60) /\
    total_sl r == total /\ price_change r == total /\
    risk_per_lot o' = Some (total_sl r) /\
    ((0 < last_price o /\
      exists sl tg : Q,
        stop_loss o' = Some sl /\ target o' = Some tg /\
        sl == Qmax (last_price o - total) 0.1 /\
        tg == last_price o + 2 * (last_price o - sl))
     \/
     (last_price o <= 0 /\ stop_loss o' = stop_loss o /\ target o' = target o)).
Proof.
  intros move total. unfold calculate_stop_loss. fold move.
  destruct (pow_overflow move); [reflexivity|].
  eexists _, _. split; [reflexivity|]. cbn [delta_impact gamma_impact theta_impact total_sl price_change].
  assert (Hpow : move ^ 2 == move * move) by (simpl; reflexivity).
  assert (Htot : delta o * move + 0.5 * gamma o * move ^ 2
                 + Qabs (theta o) / inject_Z (24 * 6) * (10 / 60) == total).
  { unfold total. rewrite Hpow. reflexivity. }
  split; [reflexivity|]. split; [now rewrite Hpow|]. split; [reflexivity|].
  split; [exact Htot|]. split; [exact Htot|].
  cbn [last_price set_risk_per_lot].
  destruct (Qgtb (last_price o) 0) eqn:Hlp.
  - split; [reflexivity|]. left. apply Qgtb_true in Hlp. split; [exact Hlp|].
    eexists _, _. cbn [stop_loss target set_stop_target].
    split; [reflexivity|]. split; [reflexivity|]. split.
    + rewrite py_max_Qmax. apply Q.max_compat; [|reflexivity]. now rewrite Htot.
    + reflexivity.
  - split; [reflexivity|]. right. apply Qgtb_false in Hlp. repeat split. exact Hlp.
Qed.

(** ** The strike selector: [select_optimal_strike] *)

Lemma elem_of_valid_options (options : list OptionData) (price : Q) (o' : OptionData) :
  o' ∈ valid_options_of pow_overflow options price <->
  exists (o : OptionData) (r : StopLossCalc),
    o ∈ options /\
    calculate_stop_loss pow_overflow o price (price * 0.995) = Some (o', r).
Proof.
  induction options as [|o options IH]; simpl.
  - split; [intros H; inversion H|intros (o & r & H & _); inversion H].
  - destruct (calculate_stop_loss pow_overflow o price (price * 0.995))
      as [[o1 r1]|] eqn:Hc.
    + rewrite elem_of_cons, IH. split.
      * intros [->|(o2 & r2 & Hin & H2)].
        -- exists o, r1. split; [apply elem_of_cons; now left|exact Hc].
        -- exists o2, r2. split; [apply elem_of_cons; now right|exact H2].
      * intros (o2 & r2 & Hin & H2). apply elem_of_cons in Hin as [->|Hin].
        -- left. congruence.
        -- right. eauto.
    + rewrite IH. split.
      * intros (o2 & r2 & Hin & H2). exists o2, r2.
        split; [apply elem_of_cons; now right|exact H2].
      * intros (o2 & r2 & Hin & H2). apply elem_of_cons in Hin as [->|Hin].
        -- congruence.
        -- eauto.
Qed.

Lemma valid_options_nil (options : list OptionData) (price : Q) :
  valid_options_of pow_overflow options price = [] <->
  forall o, o ∈ options ->
    calculate_stop_loss pow_overflow o price (price * 0.995) = None.
Proof.
  induction options as [|o options IH]; simpl.
  - split; [intros _ o H; inversion H|reflexivity].
  - destruct (calculate_stop_loss pow_overflow o price (price * 0.995))
      as [[o1 r1]|] eqn:Hc.
    + split; [discriminate|]. intros H.
      specialize (H o (list_elem_of_here _ _)). congruence.
    + rewrite IH. split.
      * intros H o2 Hin. apply elem_of_cons in Hin as [->|Hin]; auto.
      * intros H o2 Hin. apply H, elem_of_cons. now right.
Qed.

Lemma scan_lots_S (o : OptionData) (ls : Z) (tmin tmax mid : Q) (lots : Z) (fuel : nat) :
  scan_lots o ls tmin tmax mid lots (S fuel) =
  let quantity := (lots * ls)%Z in
  let total_risk := risk_of o * inject_Z quantity in
  let here :=
    if Qle_bool tmin total_risk && Qle_bool total_risk tmax
    then [mkCandidate o quantity total_risk (Qabs (total_risk - mid))]
    else [] in
  if Qgtb total_risk tmax then here
  else here ++ scan_lots o ls tmin tmax mid (lots + 1)%Z fuel.
Proof. reflexivity. Qed.

(** What the scan of one contract records: the lot counts in range whose
    risk is in the band, as long as no smaller lot count exceeded the band
    maximum. *)
Lemma elem_of_scan_lots (o : OptionData) (ls : Z) (tmin tmax mid : Q)
    (fuel : nat) (lots0 : Z) (c : Candidate) :
  c ∈ scan_lots o ls tmin tmax mid lots0 fuel <->
  exists k : nat,
    (k < fuel)%nat /\
    c = candidate_at o ls mid (lots0 + Z.of_nat k) /\
    tmin <= cand_total_risk c /\ cand_total_risk c <= tmax /\
    forall j : nat, (j < k)%nat ->
      risk_of o * inject_Z ((lots0 + Z.of_nat j) * ls) <= tmax.
Proof.
  revert lots0. induction fuel as [|fuel IH]; intros lots0.
  - simpl. split; [intros H; inversion H|intros (k & Hk & _); lia].
  - rewrite scan_lots_S. cbv zeta.
    set (total := risk_of o * inject_Z (lots0 * ls)).
    assert (Hhere : forall l, c ∈ (if Qle_bool tmin total && Qle_bool total tmax
                      then [mkCandidate o (lots0 * ls) total (Qabs (total - mid))]
                      else []) ++ l <->
                    (c = candidate_at o ls mid lots0 /\ tmin <= total /\ total <= tmax)
                    \/ c ∈ l).
    { intros l. destruct (Qle_bool tmin total && Qle_bool total tmax) eqn:Hb.
      - apply andb_true_iff in Hb as [H1 H2]. apply Qle_bool_iff in H1, H2.
        simpl. rewrite elem_of_cons. unfold candidate_at. fold total. tauto.
      - simpl. split; [tauto|]. intros [(_ & H1 & H2)|H]; [|exact H].
        apply Qle_bool_iff in H1, H2. rewrite H1, H2 in Hb. discriminate. }
    destruct (Qgtb total tmax) eqn:Hg.
    + apply Qgtb_true in Hg. specialize (Hhere []). rewrite app_nil_r in Hhere.
      rewrite Hhere.
      split.
      * intros [(-> & H1 & H2)|H]; [|inversion H]. exfalso. lra.
      * intros (k & _ & -> & _ & H2 & Hj). exfalso. destruct k as [|k].
        -- simpl in H2. rewrite Z.add_0_r in H2. fold total in H2. lra.
        -- specialize (Hj O ltac:(lia)). simpl in Hj. rewrite Z.add_0_r in Hj.
           fold total in Hj. lra.
    + apply Qgtb_false in Hg. rewrite Hhere, IH. split.
      * intros [(-> & H1 & H2)|(k & Hk & -> & H1 & H2 & Hj)].
        -- exists O. rewrite Z.add_0_r. simpl. fold total.
           repeat split; [lia|assumption|assumption|intros j Hj; lia].
        -- exists (S k). replace (lots0 + Z.of_nat (S k))%Z with (lots0 + 1 + Z.of_nat k)%Z by lia.
           repeat split; [lia|assumption|assumption|].
           intros [|j] Hlt.
           ++ simpl. rewrite Z.add_0_r. exact Hg.
           ++ replace (lots0 + Z.of_nat (S j))%Z with (lots0 + 1 + Z.of_nat j)%Z by lia.
              apply Hj. lia.
      * intros ([|k] & Hk & -> & H1 & H2 & Hj).
        -- left. rewrite Z.add_0_r in *. simpl in H1, H2. fold total in H1, H2. tauto.
        -- right. exists k.
           replace (lots0 + Z.of_nat (S k))%Z with (lots0 + 1 + Z.of_nat k)%Z in * by lia.
           repeat split; [lia|assumption|assumption|].
           intros j Hlt.
           replace (lots0 + 1 + Z.of_nat j)%Z with (lots0 + Z.of_nat (S j))%Z by lia.
           apply Hj. lia.
Qed.

Lemma elem_of_options_in_range (valid : list OptionData) (ls : Z) (tmin tmax mid : Q)
    (c : Candidate) :
  c ∈ options_in_range_of valid ls tmin tmax mid <->
  exists (o : OptionData) (lots : Z),
    o ∈ valid /\ (1 <= lots <= 50)%Z /\
    c = candidate_at o ls mid lots /\
    tmin <= cand_total_risk c /\ cand_total_risk c <= tmax /\
    forall l' : Z, (1 <= l' < lots)%Z -> risk_of o * inject_Z (l' * ls) <= tmax.
Proof.
  unfold options_in_range_of. rewrite list_elem_of_In, in_concat. split.
  - intros (l & Hl & Hc). apply in_map_iff in Hl as (o & <- & Ho).
    apply list_elem_of_In, elem_of_scan_lots in Hc as (k & Hk & -> & H1 & H2 & Hj).
    exists o, (1 + Z.of_nat k)%Z. apply list_elem_of_In in Ho.
    repeat split; [assumption|lia|lia|assumption|assumption|].
    intros l' Hl'. replace l' with (1 + Z.of_nat (Z.to_nat (l' - 1)))%Z by lia.
    apply Hj. lia.
  - intros (o & lots & Ho & Hlots & -> & H1 & H2 & Hj).
    exists (scan_lots o ls tmin tmax mid 1 50). split.
    + apply in_map_iff. exists o. split; [reflexivity|]. now apply list_elem_of_In.
    + apply list_elem_of_In, elem_of_scan_lots. exists (Z.to_nat (lots - 1)).
      replace (1 + Z.of_nat (Z.to_nat (lots - 1)))%Z with lots by lia.
      repeat split; [lia|assumption|assumption|].
      intros j Hlt. apply Hj. lia.
Qed.

(** C4. For every options table [rows], with [valid] the contracts whose
    risk computation succeeded and [cands] the recorded candidates:
    (1) [valid] holds exactly the contracts whose computation returned a
        result (the others are discarded);
    (2) [cands] holds exactly the triples of a valid contract and a lot
        count in 1..50 with [total_risk = risk_per_lot * lots * lot_size]
        inside the band, such that no smaller lot count exceeded the band
        maximum (the scan of a contract stops there);
    (3) when a candidate exists, the result is the first candidate, in
        encounter order, that minimises [|total_risk - midpoint|];
    (4) when there is none but a valid contract exists, the result is the
        first valid contract minimising [|risk_per_lot * lot_size - midpoint|],
        with quantity [lot_size];
    (5) the result is (none, none, none) exactly when the table is empty or
        every contract's risk computation failed. *)
Theorem select_optimal_strike_spec (rows : list OptionRow) (price tmin tmax : Q) (ls : Z) :
  let mid := (tmin + tmax) / 2 in
  let valid := valid_options_of pow_overflow (map OptionData_init rows) price in
  let cands := options_in_range_of valid ls tmin tmax mid in
  let result := select_optimal_strike pow_overflow (Some rows) price (tmin, tmax) ls in
  (forall o' : OptionData,
     o' ∈ valid <->
     exists (row : OptionRow) (r : StopLossCalc),
       row ∈ rows /\
       calculate_stop_loss pow_overflow (OptionData_init row) price (price * 0.995)
         = Some (o', r))
  /\
  (forall c : Candidate,
     c ∈ cands <->
     exists (o : OptionData) (lots : Z),
       o ∈ valid /\ (1 <= lots <= 50)%Z /\
       cand_option c = o /\ cand_quantity c = (lots * ls)%Z /\
       cand_total_risk c = risk_of o * inject_Z (lots * ls) /\
       cand_distance c = Qabs (cand_total_risk c - mid) /\
       cand_total_risk c == risk_of o * inject_Z lots * inject_Z ls /\
       tmin <= cand_total_risk c /\ cand_total_risk c <= tmax /\
       forall l' : Z, (1 <= l' < lots)%Z -> risk_of o * inject_Z (l' * ls) <= tmax)
  /\
  (cands <> [] ->
     exists best : Candidate,
       first_min cand_distance cands best /\
       result = (Some (cand_option best), Some (cand_quantity best),
                 Some (cand_total_risk best)))
  /\
  (cands = [] -> valid <> [] ->
     exists o : OptionData,
       first_min (fun opt => Qabs (risk_of opt * inject_Z ls - mid)) valid o /\
       result = (Some o, Some ls, Some (risk_of o * inject_Z ls)))
  /\
  (result = (None, None, None) <->
     rows = [] \/
     forall row : OptionRow, row ∈ rows ->
       calculate_stop_loss pow_overflow (OptionData_init row) price (price * 0.995) = None).
Proof.
  intros mid valid cands result.
  assert (Hvalid : forall o' : OptionData,
     o' ∈ valid <->
     exists (row : OptionRow) (r : StopLossCalc),
       row ∈ rows /\
       calculate_stop_loss pow_overflow (OptionData_init row) price (price * 0.995)
         = Some (o', r)).
  { intros o'. unfold valid. rewrite elem_of_valid_options. split.
    - intros (o & r & Ho & Hc). apply list_elem_of_fmap in Ho as (row & -> & Hrow). eauto.
    - intros (row & r & Hrow & Hc). exists (OptionData_init row), r.
      split; [|exact Hc]. apply list_elem_of_fmap. eauto. }
  assert (Hnil : valid = [] <->
     forall row : OptionRow, row ∈ rows ->
       calculate_stop_loss pow_overflow (OptionData_init row) price (price * 0.995) = None).
  { unfold valid. rewrite valid_options_nil. split.
    - intros H row Hrow. apply H, list_elem_of_fmap. eauto.
    - intros H o Ho. apply list_elem_of_fmap in Ho as (row & -> & Hrow). auto. }
  assert (Hres : result =
     match rows with
     | [] => (None, None, None)
     | _ =>
       match valid with
       | [] => (None, None, None)
       | _ =>
         match sort_by_key cand_distance cands with
         | best :: _ =>
             (Some (cand_option best), Some (cand_quantity best), Some (cand_total_risk best))
         | [] =>
             match sort_by_key (fun opt => Qabs (risk_of opt * inject_Z ls - mid)) valid with
             | o :: _ => (Some o, Some ls, Some (risk_of o * inject_Z ls))
             | [] => (None, None, None)
             end
         end
       end
     end).
  { unfold result, select_optimal_strike. destruct rows; reflexivity. }
  split; [exact Hvalid|]. split; [|split; [|split]].
  - intros c. unfold cands. rewrite elem_of_options_in_range. split.
    + intros (o & lots & Ho & Hlots & -> & H1 & H2 & Hj). exists o, lots.
      cbn [candidate_at cand_option cand_quantity cand_total_risk cand_distance] in *.
      split_and!; try assumption; try reflexivity; try lia.
      rewrite inject_Z_mult. ring.
    + intros (o & lots & Ho & Hlots & Hco & Hcq & Hct & Hcd & _ & H1 & H2 & Hj).
      exists o, lots. split_and!; try assumption; try lia.
      destruct c as [co cq ct cd]. cbn in *. subst. reflexivity.
  - intros Hc. destruct (sort_by_key cand_distance cands) as [|best rest] eqn:Hs.
    { apply sort_by_key_nil in Hs. contradiction. }
    exists best. split; [exact (sort_by_key_head _ _ _ _ Hs)|].
    rewrite Hres. destruct rows as [|row rows'].
    { exfalso. apply Hc. reflexivity. }
    destruct valid eqn:Hv; [|reflexivity].
    exfalso. apply Hc. reflexivity.
  - intros Hc Hv.
    destruct (sort_by_key (fun opt => Qabs (risk_of opt * inject_Z ls - mid)) valid)
      as [|o rest] eqn:Hs.
    { apply sort_by_key_nil in Hs. contradiction. }
    exists o. split; [exact (sort_by_key_head _ _ _ _ Hs)|].
    rewrite Hres. destruct rows as [|row rows'].
    { exfalso. apply Hv. reflexivity. }
    destruct valid; [contradiction|]. now rewrite Hc.
  - rewrite Hres. destruct rows as [|row rows'] eqn:Hrows.
    { split; [now left|reflexivity]. }
    rewrite <- Hnil. destruct valid as [|v valid'] eqn:Hv.
    { split; [now right|reflexivity]. }
    split; [|intros [H|H]; discriminate].
    destruct (sort_by_key cand_distance cands) as [|best rest]; [|discriminate].
    destruct (sort_by_key _ (v :: valid')) as [|o rest] eqn:Hs; [|discriminate].
    apply sort_by_key_nil in Hs. discriminate.
Qed.

(** What the computation leaves of an option whose last price is not
    positive: everything but [risk_per_lot]. *)
Lemma calculate_stop_loss_unquoted (o o' : OptionData) (e s : Q) (r : StopLossCalc) :
  calculate_stop_loss pow_overflow o e s = Some (o', r) ->
  last_price o <= 0 ->
  o' = set_risk_per_lot (total_sl r) o /\
  total_sl r == delta o * Qabs (e - s) + 0.5 * gamma o * (Qabs (e - s) * Qabs (e - s))
                + (Qabs (theta o) / 144) * (10 / 60).
Proof.
  unfold calculate_stop_loss. destruct (pow_overflow _); [discriminate|].
  intros Hc Hlp. cbn [last_price set_risk_per_lot] in Hc.
  apply Qgtb_false in Hlp. rewrite Hlp in Hc. injection Hc as <- <-.
  cbn [total_sl]. split; [reflexivity|].
  assert (Hpow : Qabs (e - s) ^ 2 == Qabs (e - s) * Qabs (e - s)) by (simpl; reflexivity).
  rewrite Hpow. reflexivity.
Qed.

(** A valid contract without a quote has neither stop-loss nor target. *)
Lemma valid_unquoted_unset (rows : list OptionRow) (price : Q) (sel : OptionData) :
  sel ∈ valid_options_of pow_overflow (map OptionData_init rows) price ->
  last_price sel <= 0 ->
  stop_loss sel = None /\ target sel = None.
Proof.
  intros Hsel Hlp. apply elem_of_valid_options in Hsel as (o & r & Ho & Hc).
  apply list_elem_of_fmap in Ho as (row & -> & _).
  pose proof (calculate_stop_loss_frame _ _ _ _ _ Hc) as (Hlast & _).
  rewrite Hlast in Hlp.
  apply calculate_stop_loss_unquoted in Hc as [-> _]; [|exact Hlp].
  split; reflexivity.
Qed.

(** With a valid contract the selector always returns one of the valid
    contracts. *)
Lemma select_optimal_strike_returns (rows : list OptionRow) (price tmin tmax : Q) (ls : Z) :
  valid_options_of pow_overflow (map OptionData_init rows) price <> [] ->
  exists (sel : OptionData) (quantity : Z) (total_risk : Q),
    select_optimal_strike pow_overflow (Some rows) price (tmin, tmax) ls
    = (Some sel, Some quantity, Some total_risk) /\
    sel ∈ valid_options_of pow_overflow (map OptionData_init rows) price.
Proof.
  intros Hne. unfold select_optimal_strike.
  destruct rows as [|row rows]; [now destruct Hne|].
  set (valid := valid_options_of pow_overflow (map OptionData_init (row :: rows)) price) in *.
  destruct valid as [|v valid'] eqn:Hv; [now destruct Hne|]. rewrite <- Hv.
  destruct (sort_by_key cand_distance _) as [|best rest] eqn:Hs.
  - destruct (sort_by_key _ valid) as [|closest rest] eqn:Hs'.
    + apply sort_by_key_nil in Hs'. congruence.
    + apply sort_by_key_head, first_min_elem in Hs' as [Hel _]. eauto 6.
  - apply sort_by_key_head, first_min_elem in Hs as [Hel _].
    apply elem_of_options_in_range in Hel as (o1 & lots & Ho1 & _ & -> & _).
    cbn [candidate_at cand_option cand_quantity cand_total_risk]. eauto 6.
Qed.

(** C10. An option whose last price is zero or negative still gets a result
    from [calculate_stop_loss] (whenever the arithmetic does not raise): its
    [risk_per_lot] is set to the computed total,
    [delta * move + 0.5 * gamma * move^2 + (|theta| / 144) * (10/60)] with
    [move = |entry - stop|], and nothing else of the option changes, so
    [stop_loss] and [target] stay as they were; built from a table row they
    stay unset.  [select_optimal_strike] therefore discards such a contract
    from no table: with its risk set from the Greeks it is among the valid
    options of every table holding it, and every row of the table is valid.
    The selector then returns one of the valid options; whenever the one it
    returns has no positive last price, it is returned with [stop_loss] and
    [target] unset; this is the case for every table without a quote, and
    over the table holding only that contract it is the contract
    returned. *)
Theorem nonpositive_last_price_selected (o : OptionData) (underlying_entry underlying_sl : Q)
    (row : OptionRow) (rows : list OptionRow) (price tmin tmax : Q) (ls : Z) :
  last_price o <= 0 ->
  pow_overflow (Qabs (underlying_entry - underlying_sl)) = false ->
  r_last_price row <= 0 ->
  row ∈ rows ->
  pow_overflow (Qabs (price - price * 0.995)) = false ->
  let risk (opt : OptionData) (move : Q) : Q :=
    delta opt * move + 0.5 * gamma opt * (move * move)
    + (Qabs (theta opt) / 144) * (10 / 60) in
  (exists (o' : OptionData) (r : StopLossCalc),
     calculate_stop_loss pow_overflow o underlying_entry underlying_sl = Some (o', r) /\
     total_sl r == risk o (Qabs (underlying_entry - underlying_sl)) /\
     o' = set_risk_per_lot (total_sl r) o /\
     risk_per_lot o' = Some (total_sl r) /\
     stop_loss o' = stop_loss o /\ target o' = target o)
  /\
  (exists (o' : OptionData) (r : StopLossCalc),
     calculate_stop_loss pow_overflow (OptionData_init row) price (price * 0.995)
       = Some (o', r) /\
     total_sl r == risk (OptionData_init row) (Qabs (price - price * 0.995)) /\
     o' = set_risk_per_lot (total_sl r) (OptionData_init row) /\
     stop_loss o' = None /\ target o' = None /\
     o' ∈ valid_options_of pow_overflow (map OptionData_init rows) price /\
     length (valid_options_of pow_overflow (map OptionData_init rows) price) = length rows /\
     exists (sel : OptionData) (quantity : Z) (total_risk : Q),
       select_optimal_strike pow_overflow (Some rows) price (tmin, tmax) ls
         = (Some sel, Some quantity, Some total_risk) /\
       sel ∈ valid_options_of pow_overflow (map OptionData_init rows) price /\
       (last_price sel <= 0 -> stop_loss sel = None /\ target sel = None) /\
       (Forall (fun other => r_last_price other <= 0) rows -> last_price sel <= 0) /\
       (rows = [row] -> sel = o')).
Proof.
  intros Hlp Hov Hrow Hin Hovp risk.
  assert (Hcalc : forall (opt : OptionData) (e s : Q),
            pow_overflow (Qabs (e - s)) = false ->
            exists o' r, calculate_stop_loss pow_overflow opt e s = Some (o', r)).
  { intros opt e s Hno.
    destruct (calculate_stop_loss pow_overflow opt e s) as [[o' r]|] eqn:Hc; [eauto|].
    apply calculate_stop_loss_None in Hc. congruence. }
  split.
  - destruct (Hcalc o _ _ Hov) as (o' & r & Hc). exists o', r.
    destruct (calculate_stop_loss_unquoted _ _ _ _ _ Hc Hlp) as [-> Htotal].
    split_and!; [exact Hc|exact Htotal|reflexivity..].
  - destruct (Hcalc (OptionData_init row) _ _ Hovp) as (o' & r & Hc). exists o', r.
    destruct (calculate_stop_loss_unquoted _ _ _ _ _ Hc Hrow) as [Ho' Htotal].
    assert (Hvalid : o' ∈ valid_options_of pow_overflow (map OptionData_init rows) price).
    { apply elem_of_valid_options. exists (OptionData_init row), r.
      split; [apply list_elem_of_fmap; eauto|exact Hc]. }
    split_and!; [exact Hc|exact Htotal|exact Ho'|now rewrite Ho'|now rewrite Ho'|exact Hvalid| |].
    + clear -Hovp Hcalc. induction rows as [|other rows IH]; [reflexivity|].
      cbn [map valid_options_of].
      destruct (Hcalc (OptionData_init other) _ _ Hovp) as (o1 & r1 & ->).
      cbn [length]. now rewrite IH.
    + destruct (select_optimal_strike_returns rows price tmin tmax ls)
        as (sel & quantity & total_risk & Hsel & Hel).
      { intros Hnil. rewrite Hnil in Hvalid. inversion Hvalid. }
      exists sel, quantity, total_risk. split_and!; [exact Hsel|exact Hel| | |].
      * apply valid_unquoted_unset with (rows := rows) (price := price). exact Hel.
      * intros Hall. apply elem_of_valid_options in Hel as (o0 & r0 & Ho0 & Hc0).
        apply list_elem_of_fmap in Ho0 as (row0 & -> & Hrow0).
        rewrite Forall_forall in Hall. specialize (Hall row0 Hrow0).
        apply calculate_stop_loss_frame in Hc0 as (-> & _). exact Hall.
      * intros ->. cbn [map valid_options_of] in Hel. rewrite Hc in Hel.
        now apply list_elem_of_singleton in Hel.
Qed.

End RiskProperties.

(** ** The candle aggregator: [update_from_tick] *)

Lemma lex_gtb_irrefl (a : list Z) : lex_gtb a a = false.
Proof.
  induction a as [|x a IH]; simpl; [reflexivity|].
  rewrite Z.ltb_irrefl. exact IH.
Qed.

Lemma lex_gtb_trichotomy (a b : list Z) :
  length a = length b -> lex_gtb a b = false -> lex_gtb b a = false -> a = b.
Proof.
  revert b. induction a as [|x a IH]; intros [|y b]; simpl; try discriminate; [reflexivity|].
  intros [= Hlen]. destruct (Z.ltb_spec y x), (Z.ltb_spec x y); try discriminate; try lia.
  intros Hab Hba. assert (x = y) as -> by lia. f_equal. auto.
Qed.

Lemma lex_gtb_asym (a b : list Z) : lex_gtb a b = true -> lex_gtb b a = false.
Proof.
  revert b. induction a as [|x a IH]; intros [|y b]; simpl; try discriminate.
  destruct (Z.ltb_spec y x), (Z.ltb_spec x y); try discriminate; try lia; auto.
Qed.

(** Datetimes are totally ordered: a bucket that is not later than another
    is the same bucket or an earlier one. *)
Lemma dt_gtb_false (t1 t2 : DateTime) :
  dt_gtb t1 t2 = false <-> t1 = t2 \/ dt_gtb t2 t1 = true.
Proof.
  unfold dt_gtb. split.
  - intros H. destruct (lex_gtb (dt_fields t2) (dt_fields t1)) eqn:H'; [now right|left].
    pose proof (lex_gtb_trichotomy (dt_fields t1) (dt_fields t2) eq_refl H H') as Heq.
    destruct t1, t2. unfold dt_fields in Heq. simpl in Heq. congruence.
  - intros [->|H]; [apply lex_gtb_irrefl|now apply lex_gtb_asym].
Qed.

(** C6 (as the code has it). For a tick with a timestamp and a price whose
    bucket start is [candle_start], while a candle [cur] is in progress:
    a bucket strictly later than that of [cur] seals [cur] into the completed
    sequence and opens a candle with open = high = low = close = price and
    volume 0; a bucket that is the same as, or earlier than, that of [cur]
    is merged into [cur]: high = max(high, price), low = min(low, price),
    close = price, while time, open and volume stay as they were, whether or
    not the tick carries a volume, and the completed sequence is unchanged. *)
Theorem update_from_tick_spec (self : LiveOHLCVData) (tick_time candle_start : DateTime)
    (price : Q) (vol : option Q) (cur : Candle) :
  candle_start_of (timeframe_minutes self) tick_time = Some candle_start ->
  current_candle self = Some cur ->
  let self' := update_from_tick self (mkTick (Some tick_time) (Some price) vol) in
  timeframe_minutes self' = timeframe_minutes self /\
  (dt_gtb candle_start (c_time cur) = true ->
     completed_candles self' = completed_candles self ++ [cur] /\
     current_candle self' = Some (mkCandle candle_start price price price price 0))
  /\
  (candle_start = c_time cur \/ dt_gtb (c_time cur) candle_start = true ->
     completed_candles self' = completed_candles self /\
     exists cur' : Candle,
       current_candle self' = Some cur' /\
       c_time cur' = c_time cur /\ c_open cur' = c_open cur /\
       c_high cur' == Qmax (c_high cur) price /\
       c_low cur' == Qmin (c_low cur) price /\
       c_close cur' = price /\ c_volume cur' = c_volume cur).
Proof.
  intros Hstart Hcur self'. unfold self', update_from_tick.
  cbn [tick_timestamp tick_ltp]. rewrite Hstart, Hcur. split_and!.
  - destruct (dt_gtb candle_start (c_time cur)); reflexivity.
  - intros ->. split; reflexivity.
  - intros H. apply dt_gtb_false in H. rewrite H. split; [reflexivity|].
    eexists. split; [reflexivity|]. cbn.
    split_and!; try reflexivity; [now rewrite py_max_Qmax|now rewrite py_min_Qmin].
Qed.

(** Without a candle in progress the tick opens one and seals nothing; a
    tick without timestamp or price, or whose bucket cannot be computed,
    changes nothing. *)
Lemma update_from_tick_first (self : LiveOHLCVData) (tick_time candle_start : DateTime)
    (price : Q) (vol : option Q) :
  candle_start_of (timeframe_minutes self) tick_time = Some candle_start ->
  current_candle self = None ->
  update_from_tick self (mkTick (Some tick_time) (Some price) vol) =
  mkLive (timeframe_minutes self)
         (Some (mkCandle candle_start price price price price 0))
         (completed_candles self).
Proof.
  intros Hstart Hcur. unfold update_from_tick. cbn. now rewrite Hstart, Hcur.
Qed.

Lemma update_from_tick_skip (self : LiveOHLCVData) (tick : Tick) :
  tick_timestamp tick = None \/ tick_ltp tick = None \/
  (exists tick_time, tick_timestamp tick = Some tick_time /\
                     candle_start_of (timeframe_minutes self) tick_time = None) ->
  update_from_tick self tick = self.
Proof.
  unfold update_from_tick. intros [->|[H|(tick_time & -> & H)]].
  - reflexivity.
  - rewrite H. now destruct (tick_timestamp tick).
  - rewrite H. now destruct (tick_ltp tick).
Qed.

(** For a positive timeframe the bucket of a well-formed time always
    exists: it is the tick's time with its minute rounded down to a multiple
    of the timeframe and seconds zeroed. *)
Lemma candle_start_of_positive (tf : Z) (tick_time : DateTime) :
  (0 < tf)%Z -> (0 <= minute tick_time <= 59)%Z ->
  exists m : Z,
    candle_start_of tf tick_time =
      Some (mkDateTime (year tick_time) (month tick_time) (day tick_time)
                       (hour tick_time) m 0 0) /\
    (m <= minute tick_time < m + tf)%Z /\ (tf | m)%Z.
Proof.
  intros Htf Hmin. unfold candle_start_of.
  destruct (Z.eqb_spec tf 0) as [->|_]; [lia|].
  pose proof (Z.mul_div_le (minute tick_time) tf Htf) as Hle.
  pose proof (Z.mul_succ_div_gt (minute tick_time) tf Htf) as Hgt.
  pose proof (Z.div_pos (minute tick_time) tf ltac:(lia) Htf) as Hpos.
  exists (minute tick_time / tf * tf)%Z.
  destruct (Z.leb_spec 0 (minute tick_time / tf * tf)); [|nia].
  destruct (Z.leb_spec (minute tick_time / tf * tf) 59); [|nia].
  simpl. split; [reflexivity|]. split; [nia|]. exists (minute tick_time / tf)%Z. reflexivity.
Qed.

(** ** The Greeks-fetch retry loop *)


Lemma lookup_tail' {A : Type} (l : list A) (i : nat) : tail l !! i = l !! S i.
Proof. destruct l; reflexivity. Qed.







(** ** The swing-structure engine *)

(** *** Point D and the pending setup *)

(** The scan returns the first maximal high among the start candle and the
    candles of [seq first len]. *)
Lemma scan_highs_spec (data : list Candle) (len first : nat) (h0 : Q) (i0 : nat) :
  (first + len <= length data)%nat ->
  (i0 < first)%nat ->
  exists (h : Q) (i : nat),
    scan_highs data (seq first len) (h0, i0) = Some (h, i) /\
    h0 <= h /\
    ((h, i) = (h0, i0) \/
     ((first <= i < first + len)%nat /\ h0 < h /\ c_high <$> data !! i = Some h)) /\
    (forall j c, (first <= j < first + len)%nat -> data !! j = Some c -> c_high c <= h) /\
    (forall j c, (first <= j < i)%nat -> data !! j = Some c -> c_high c < h).
Proof.
  revert first h0 i0. induction len as [|len IH]; intros first h0 i0 Hlen Hi0.
  - exists h0, i0. simpl. split_and!; [reflexivity|lra|now left|intros; lia|intros; lia].
  - cbn [seq scan_highs]. destruct (data !! first) as [candle|] eqn:Hc.
    2:{ apply lookup_ge_None in Hc. lia. }
    cbn [mbind option_bind fst].
    destruct (Qgtb (c_high candle) h0) eqn:Hg.
    + apply Qgtb_true in Hg.
      destruct (IH (S first) (c_high candle) first ltac:(lia) ltac:(lia))
        as (h & i & Hscan & Hle & Hwhere & Hall & Hbefore).
      exists h, i. split_and!.
      * exact Hscan.
      * lra.
      * right. destruct Hwhere as [[= -> ->]|(Hr & Hlt & Hd)].
        -- split; [lia|]. split; [exact Hg|now rewrite Hc].
        -- split; [lia|]. split; [lra|exact Hd].
      * intros j c Hj Hjc. destruct (decide (j = first)) as [->|Hne].
        -- rewrite Hc in Hjc. injection Hjc as <-. exact Hle.
        -- apply (Hall j c); [lia|exact Hjc].
      * intros j c Hj Hjc. destruct Hwhere as [[= -> ->]|(Hr & Hlt & Hd)]; [lia|].
        destruct (decide (j = first)) as [->|Hne].
        -- rewrite Hc in Hjc. injection Hjc as <-. exact Hlt.
        -- apply (Hbefore j c); [lia|exact Hjc].
    + apply Qgtb_false in Hg.
      destruct (IH (S first) h0 i0 ltac:(lia) ltac:(lia))
        as (h & i & Hscan & Hle & Hwhere & Hall & Hbefore).
      exists h, i. split_and!.
      * exact Hscan.
      * exact Hle.
      * destruct Hwhere as [Heq|(Hr & Hlt & Hd)]; [now left|right].
        split; [lia|]. split; [exact Hlt|exact Hd].
      * intros j c Hj Hjc. destruct (decide (j = first)) as [->|Hne].
        -- rewrite Hc in Hjc. injection Hjc as <-. lra.
        -- apply (Hall j c); [lia|exact Hjc].
      * intros j c Hj Hjc. destruct Hwhere as [[= -> ->]|(Hr & Hlt & Hd)]; [lia|].
        destruct (decide (j = first)) as [->|Hne].
        -- rewrite Hc in Hjc. injection Hjc as <-. lra.
        -- apply (Hbefore j c); [lia|exact Hjc].
Qed.

Lemma calculate_point_D_spec (self : Engine) (h1 b c : Point) :
  H1_pt self = Some h1 -> B_pt self = Some b -> C_pt self = Some c ->
  (pt_idx b <= pt_idx c < length (data self))%nat ->
  exists (self' : Engine) (d : Point),
    calculate_point_D self = Some self' /\
    data self' = data self /\ signals self' = signals self /\
    L1_pt self' = L1_pt self /\ H1_pt self' = H1_pt self /\ A_pt self' = A_pt self /\
    B_pt self' = B_pt self /\ C_pt self' = C_pt self /\
    D_pt self' = Some d /\
    pending_setup self' =
      Some (mkSetup (pt_price d + 0.05) (pt_price c - 0.05)
              (pt_price d + 0.05 + (pt_price d + 0.05 - (pt_price c - 0.05)) * 2)
              (mkStructure (H1_pt self) (L1_pt self) (A_pt self) (B_pt self) (C_pt self)
                           (Some d))
              (Some "CE_BUYING"%string)) /\
    (pt_idx b <= pt_idx d <= pt_idx c)%nat /\
    c_high <$> data self !! pt_idx d = Some (pt_price d) /\
    (forall j cj, (pt_idx b <= j <= pt_idx c)%nat -> data self !! j = Some cj ->
                  c_high cj <= pt_price d) /\
    (forall j cj, (pt_idx b <= j < pt_idx d)%nat -> data self !! j = Some cj ->
                  c_high cj < pt_price d).
Proof.
  intros Hh1 Hb Hc Hrange. unfold calculate_point_D. rewrite Hh1, Hb, Hc.
  destruct (data self !! pt_idx b) as [first|] eqn:Hfirst.
  2:{ apply lookup_ge_None in Hfirst. lia. }
  cbn [mbind option_bind].
  destruct (scan_highs_spec (data self) (pt_idx c - pt_idx b) (S (pt_idx b))
              (c_high first) (pt_idx b) ltac:(lia) ltac:(lia))
    as (h & i & Hscan & Hle & Hwhere & Hall & Hbefore).
  rewrite Hscan. cbn [mbind option_bind fst snd].
  eexists _, (mkPoint h i). split; [reflexivity|].
  assert (Hidx : (pt_idx b <= i <= pt_idx c)%nat).
  { destruct Hwhere as [[= _ ->]|(Hr & _)]; lia. }
  assert (Hhigh : c_high <$> data self !! i = Some h).
  { destruct Hwhere as [[= -> ->]|(_ & _ & Hd)]; [now rewrite Hfirst|exact Hd]. }
  unfold refresh_option_greeks. cbn [has_broker set_pending_setup set_D].
  split_and!; try (destruct (has_broker self); cbn; congruence).
  - destruct (has_broker self); cbn; unfold structure_of; cbn;
      rewrite ?Hh1, ?Hb, ?Hc; reflexivity.
  - simpl. lia.
  - simpl. lia.
  - intros j cj Hj Hjc. cbn [pt_price]. destruct (decide (j = pt_idx b)) as [->|Hne].
    + rewrite Hfirst in Hjc. injection Hjc as <-. exact Hle.
    + apply (Hall j cj); [lia|exact Hjc].
  - intros j cj Hj Hjc. cbn [pt_price pt_idx] in *.
    destruct Hwhere as [[= -> ->]|(Hr & Hlt & Hd)]; [lia|].
    destruct (decide (j = pt_idx b)) as [->|Hne].
    + rewrite Hfirst in Hjc. injection Hjc as <-. exact Hlt.
    + apply (Hbefore j cj); [lia|exact Hjc].
Qed.

(** C2. Whenever the C point forms at candle [i] (H1 and B being set, B
    before [i]), the step sets C to the low of the candle, D to the maximum
    high over the candles [B_index .. i] inclusive together with the index of
    its first occurrence, and the setup it derives has
    [entry_price = D + 0.05], [stop_loss = C - 0.05] and
    [target = entry_price + 2 * (entry_price - stop_loss)]. *)
Theorem C_forms_D_is_max (self : Engine) (i : nat) (current_candle prev_candle : Candle)
    (h1 b : Point) :
  H1_pt self = Some h1 -> B_pt self = Some b -> C_pt self = None ->
  data self !! i = Some current_candle ->
  (pt_idx b < i)%nat ->
  c_low current_candle < c_low prev_candle ->
  pt_price b < c_low current_candle ->
  exists (self' : Engine) (d : Point) (setup : Setup),
    detect_C i current_candle prev_candle self = Some self' /\
    C_pt self' = Some (mkPoint (c_low current_candle) i) /\
    D_pt self' = Some d /\
    pending_setup self' = Some setup /\
    (pt_idx b <= pt_idx d <= i)%nat /\
    c_high <$> data self !! pt_idx d = Some (pt_price d) /\
    (forall j cj, (pt_idx b <= j <= i)%nat -> data self !! j = Some cj ->
                  c_high cj <= pt_price d) /\
    (forall j cj, (pt_idx b <= j < pt_idx d)%nat -> data self !! j = Some cj ->
                  c_high cj < pt_price d) /\
    su_entry_price setup == pt_price d + 0.05 /\
    su_stop_loss setup == c_low current_candle - 0.05 /\
    su_target setup ==
      su_entry_price setup + 2 * (su_entry_price setup - su_stop_loss setup) /\
    s_D (su_structure setup) = Some d /\
    s_C (su_structure setup) = Some (mkPoint (c_low current_candle) i) /\
    s_B (su_structure setup) = Some b.
Proof.
  intros Hh1 Hb Hc Hcur Hbi Hlow Hgt. unfold detect_C. rewrite Hb, Hc.
  apply Nat.ltb_lt in Hbi as Hbi'. apply Qltb_true in Hlow. apply Qgtb_true in Hgt.
  rewrite Hbi', Hlow, Hgt. cbn [andb].
  pose proof (lookup_lt_Some _ _ _ Hcur) as Hlen.
  destruct (calculate_point_D_spec
              (set_C (Some (mkPoint (c_low current_candle) i)) self) h1 b
              (mkPoint (c_low current_candle) i) Hh1 Hb eq_refl)
    as (self' & d & Hcalc & _ & _ & _ & _ & _ & HB & HC & HD & Hsetup & Hidx & Hhigh & Hall
        & Hbefore).
  { cbn. lia. }
  exists self', d. eexists. split; [exact Hcalc|].
  split; [exact HC|]. split; [exact HD|]. split; [exact Hsetup|].
  cbn [pt_idx pt_price data set_C su_entry_price su_stop_loss su_target su_structure
       s_D s_C s_B B_pt C_pt] in *.
  split_and!; try assumption; try reflexivity; try lia.
  ring.
Qed.

(** *** Determinism of the batch detector *)

Lemma observable_structure_state (e1 e2 : Engine) :
  observable e1 = observable e2 <->
  data e1 = data e2 /\ structure_state e1 = structure_state e2.
Proof.
  unfold observable, structure_state. split.
  - intros [= -> -> -> -> -> -> -> -> ->]. split; reflexivity.
  - intros [-> [= -> -> -> -> -> -> -> ->]]. reflexivity.
Qed.

Ltac phase_cases :=
  repeat match goal with
         | |- context [match ?x with _ => _ end] =>
             lazymatch x with
             | context [match _ with _ => _ end] => fail
             | _ => destruct x eqn:?; cbn
             end
         end.

Lemma reset_points_observable (which : list string) (e : Engine) :
  observable (reset_points which e) = observable (reset_points which (observable e)).
Proof.
  unfold reset_points. revert e. induction which as [|p which IH]; intros e; [reflexivity|].
  cbn [foldl]. rewrite IH, (IH (reset_point (observable e) p)). f_equal.
  unfold reset_point. phase_cases; reflexivity.
Qed.

Ltac observable_phase :=
  intros;
  match goal with e : Engine |- _ => destruct e end;
  unfold observable, mbind, option_bind;
  cbn -[is_swing_high is_swing_low Qgtb Qltb scan_highs];
  phase_cases; try reflexivity; try congruence.

Lemma update_L1_observable (i : nat) (cur : Candle) (e : Engine) :
  observable <$> update_L1 i cur e = observable <$> update_L1 i cur (observable e).
Proof. unfold update_L1. observable_phase. Qed.

Lemma update_H1_observable (i : nat) (cur : Candle) (e : Engine) :
  observable (update_H1 i cur e) = observable (update_H1 i cur (observable e)).
Proof. unfold update_H1. observable_phase. Qed.

Lemma detect_A_observable (i : nat) (cur : Candle) (e : Engine) :
  observable (detect_A i cur e) = observable (detect_A i cur (observable e)).
Proof. unfold detect_A. observable_phase. Qed.

Lemma detect_B_observable (i : nat) (cur : Candle) (e : Engine) :
  observable (detect_B i cur e) = observable (detect_B i cur (observable e)).
Proof. unfold detect_B. observable_phase. Qed.

Lemma calculate_point_D_observable (e : Engine) :
  observable <$> calculate_point_D e = observable <$> calculate_point_D (observable e).
Proof. unfold calculate_point_D, refresh_option_greeks, structure_of. observable_phase. Qed.

Lemma detect_C_observable (i : nat) (cur prev : Candle) (e : Engine) :
  observable <$> detect_C i cur prev e = observable <$> detect_C i cur prev (observable e).
Proof.
  unfold detect_C. cbn [B_pt C_pt observable].
  destruct (B_pt e); [|reflexivity]. destruct (C_pt e); [reflexivity|].
  destruct (_ && _); [|reflexivity].
  rewrite calculate_point_D_observable. symmetry. rewrite calculate_point_D_observable.
  reflexivity.
Qed.

Lemma detect_breakout_observable (i : nat) (cur : Candle) (e : Engine) :
  observable <$> detect_breakout i cur e = observable <$> detect_breakout i cur (observable e).
Proof. unfold detect_breakout. observable_phase. Qed.

Lemma respects_bind (f g : Engine -> option Engine) :
  respects f -> respects g -> respects (fun e => f e ≫= g).
Proof.
  intros Hf Hg e. specialize (Hf e).
  destruct (f e) as [e1|], (f (observable e)) as [e2|]; try discriminate; [|reflexivity].
  change (Some (observable e1) = Some (observable e2)) in Hf. apply (inj Some) in Hf.
  change (observable <$> g e1 = observable <$> g e2).
  now rewrite (Hg e1), (Hg e2), Hf.
Qed.

Lemma respects_total (h : Engine -> Engine) :
  (forall e, observable (h e) = observable (h (observable e))) ->
  respects (fun e => Some (h e)).
Proof. intros H e. cbn. now rewrite H. Qed.

Lemma process_candle_observable (i : nat) : respects (process_candle i).
Proof.
  intros e. unfold process_candle. cbn [data observable].
  destruct (data e !! i) as [cur|]; [|reflexivity].
  destruct (data e !! (i - 1)%nat) as [prev|]; [|reflexivity].
  cbn [mbind option_bind].
  apply (respects_bind (update_L1 i cur)
           (fun e => detect_C i cur prev (detect_B i cur (detect_A i cur (update_H1 i cur e)))
                     ≫= detect_breakout i cur)).
  - intros e'. apply update_L1_observable.
  - apply (respects_bind
             (fun e => detect_C i cur prev
                         (detect_B i cur (detect_A i cur (update_H1 i cur e))))
             (detect_breakout i cur)).
    + intros e'. rewrite detect_C_observable, detect_B_observable, detect_A_observable,
        update_H1_observable.
      symmetry.
      rewrite detect_C_observable, detect_B_observable, detect_A_observable.
      reflexivity.
    + intros e'. apply detect_breakout_observable.
Qed.

Lemma process_candles_observable (indices : list nat) : respects (process_candles indices).
Proof.
  induction indices as [|i rest IH]; [intros e; reflexivity|].
  exact (respects_bind _ _ (process_candle_observable i) IH).
Qed.

Lemma initialize_H1_L1_observable (e : Engine) :
  observable (initialize_H1_L1 e) = initialize_H1_L1 (observable e).
Proof. unfold initialize_H1_L1. cbn [data observable]. destruct (data e); reflexivity. Qed.

(** Two passes over the same candles that agree on the six points, the
    setup and the signal table once L1 is seeded end with the same points,
    setup and signal rows, and one raises exactly when the other does;
    nothing else the engine holds influences them. *)
Lemma generate_signals_seeded (e1 e2 : Engine) :
  data e1 = data e2 ->
  structure_state (initialize_H1_L1 e1) = structure_state (initialize_H1_L1 e2) ->
  structure_state <$> generate_signals e1 = structure_state <$> generate_signals e2.
Proof.
  intros Hdata Hstate. unfold generate_signals. rewrite <- Hdata.
  assert (Hobs : observable (initialize_H1_L1 e1) = observable (initialize_H1_L1 e2)).
  { apply observable_structure_state. split; [|exact Hstate].
    unfold initialize_H1_L1. rewrite <- Hdata. destruct (data e1) eqn:E; cbn; congruence. }
  pose proof (process_candles_observable (seq 1 (length (data e1) - 1))
                (initialize_H1_L1 e1)) as H1.
  pose proof (process_candles_observable (seq 1 (length (data e1) - 1))
                (initialize_H1_L1 e2)) as H2.
  rewrite Hobs, <- H2 in H1.
  destruct (process_candles _ (initialize_H1_L1 e1)) as [r1|],
           (process_candles _ (initialize_H1_L1 e2)) as [r2|];
    try discriminate; [|reflexivity].
  change (Some (observable r1) = Some (observable r2)) in H1. apply (inj Some) in H1.
  apply observable_structure_state in H1 as [_ H1].
  change (Some (structure_state r1) = Some (structure_state r2)). now rewrite H1.
Qed.

(** *** What the detection loop keeps *)

Lemma keeps_refl (e : Engine) : keeps e e.
Proof. unfold keeps. tauto. Qed.

Lemma keeps_trans (e1 e2 e3 : Engine) : keeps e1 e2 -> keeps e2 e3 -> keeps e1 e3.
Proof.
  unfold keeps. intros (Hd & Hs & Hb & Ho & Hc & Hl & HL & Hy) (Hd' & Hs' & Hb' & Ho' & Hc' & Hl' & HL' & Hy').
  split_and!; try congruence; tauto.
Qed.

Ltac solve_keeps :=
  unfold keeps, in_sync; cbn;
  split_and!; try reflexivity; try tauto; try (intros; eauto; fail);
  try (split; intros [? ?]; discriminate).

Ltac keeps_phase :=
  intros;
  match goal with e : Engine |- _ => destruct e end;
  cbn -[is_swing_high is_swing_low Qgtb Qltb scan_highs];
  phase_cases; try apply keeps_refl; solve_keeps.

Lemma update_H1_keeps (i : nat) (cur : Candle) (e : Engine) : keeps e (update_H1 i cur e).
Proof. unfold update_H1. keeps_phase. Qed.

Lemma detect_A_keeps (i : nat) (cur : Candle) (e : Engine) : keeps e (detect_A i cur e).
Proof. unfold detect_A. keeps_phase. Qed.

Lemma detect_B_keeps (i : nat) (cur : Candle) (e : Engine) : keeps e (detect_B i cur e).
Proof. unfold detect_B. keeps_phase. Qed.

Lemma update_L1_keeps (i : nat) (cur : Candle) (e : Engine) :
  is_Some (L1_pt e) ->
  exists e', update_L1 i cur e = Some e' /\ keeps e e'.
Proof.
  intros [l1 Hl1]. unfold update_L1. rewrite Hl1. cbn [mbind option_bind].
  destruct (is_swing_low (data e) i); [|eexists; split; [reflexivity|apply keeps_refl]].
  destruct (Qltb _ _); [|eexists; split; [reflexivity|apply keeps_refl]].
  eexists. split; [reflexivity|]. destruct e. solve_keeps.
Qed.

Lemma scan_highs_total (candles : list Candle) (len first : nat) (highest : Q * nat) :
  (first + len <= length candles)%nat ->
  is_Some (scan_highs candles (seq first len) highest).
Proof.
  revert first highest. induction len as [|len IH]; intros first highest Hlen; cbn [seq scan_highs].
  - eauto.
  - destruct (candles !! first) as [candle|] eqn:Hc.
    + cbn [mbind option_bind]. apply IH. lia.
    + apply lookup_ge_None in Hc. lia.
Qed.

Lemma calculate_point_D_keeps (e : Engine) (b c : Point) :
  B_pt e = Some b -> C_pt e = Some c ->
  (pt_idx b <= pt_idx c < length (data e))%nat ->
  exists e', calculate_point_D e = Some e' /\ keeps e e'.
Proof.
  intros Hb Hc Hrange. unfold calculate_point_D. rewrite Hb, Hc.
  destruct (H1_pt e); [|eexists; split; [reflexivity|apply keeps_refl]].
  destruct (data e !! pt_idx b) as [first|] eqn:Hfirst.
  2:{ apply lookup_ge_None in Hfirst. lia. }
  cbn [mbind option_bind].
  destruct (scan_highs_total (data e) (pt_idx c - pt_idx b) (S (pt_idx b))
              (c_high first, pt_idx b) ltac:(lia)) as [found Hfound].
  rewrite Hfound. cbn [mbind option_bind].
  eexists. split; [reflexivity|].
  unfold refresh_option_greeks. destruct e. cbn [has_broker set_pending_setup set_D].
  destruct has_broker0; solve_keeps; split; intros _; eauto.
Qed.

Lemma detect_C_keeps (i : nat) (cur prev : Candle) (e : Engine) :
  (i < length (data e))%nat ->
  exists e', detect_C i cur prev e = Some e' /\ keeps e e'.
Proof.
  intros Hi. unfold detect_C.
  destruct (B_pt e) as [b|] eqn:Hb; [|eexists; split; [reflexivity|apply keeps_refl]].
  destruct (C_pt e) eqn:Hc; [eexists; split; [reflexivity|apply keeps_refl]|].
  destruct (pt_idx b <? i)%nat eqn:Hlt; cbn [andb];
    [|eexists; split; [reflexivity|apply keeps_refl]].
  destruct (Qltb _ _ && Qgtb _ _); [|eexists; split; [reflexivity|apply keeps_refl]].
  apply Nat.ltb_lt in Hlt.
  destruct (calculate_point_D_keeps
              (set_C (Some (mkPoint (c_low cur) i)) e) b (mkPoint (c_low cur) i))
    as (e' & Hcalc & Hkeeps).
  - destruct e; exact Hb.
  - destruct e; reflexivity.
  - destruct e; cbn in *; lia.
  - exists e'. split; [exact Hcalc|]. refine (keeps_trans _ _ _ _ Hkeeps).
    destruct e. cbn in Hc. subst. solve_keeps.
Qed.

Lemma detect_breakout_keeps (i : nat) (cur : Candle) (e : Engine) :
  in_sync e -> (i < length (signals e))%nat ->
  exists e', detect_breakout i cur e = Some e' /\ keeps e e'.
Proof.
  intros Hsync Hi. unfold detect_breakout.
  destruct (pending_setup e) as [setup|] eqn:Hp; [|eexists; split; [reflexivity|apply keeps_refl]].
  destruct (proj1 Hsync) as [d Hd]; [rewrite Hp; eauto|]. rewrite Hd. cbn [mbind option_bind].
  destruct (Qgtb _ _); [|eexists; split; [reflexivity|apply keeps_refl]].
  destruct (lookup_lt_is_Some_2 (signals e) i Hi) as [row Hrow]. rewrite Hrow.
  cbn [mbind option_bind]. eexists. split; [reflexivity|].
  destruct e. solve_keeps. cbn. apply length_insert.
Qed.

Lemma process_candle_keeps (i : nat) (e : Engine) :
  (0 < i < length (data e))%nat ->
  length (signals e) = length (data e) ->
  is_Some (L1_pt e) -> in_sync e ->
  exists e', process_candle i e = Some e' /\ keeps e e'.
Proof.
  intros Hi Hlen HL Hsync. unfold process_candle.
  destruct (lookup_lt_is_Some_2 (data e) i ltac:(lia)) as [cur ->].
  destruct (lookup_lt_is_Some_2 (data e) (i - 1) ltac:(lia)) as [prev ->].
  cbn [mbind option_bind].
  destruct (update_L1_keeps i cur e HL) as (e1 & -> & K1). cbn [mbind option_bind].
  pose proof (update_H1_keeps i cur e1) as K2.
  pose proof (detect_A_keeps i cur (update_H1 i cur e1)) as K3.
  pose proof (detect_B_keeps i cur (detect_A i cur (update_H1 i cur e1))) as K4.
  pose proof (keeps_trans _ _ _ (keeps_trans _ _ _ (keeps_trans _ _ _ K1 K2) K3) K4) as K.
  set (e4 := detect_B i cur (detect_A i cur (update_H1 i cur e1))) in *.
  destruct (detect_C_keeps i cur prev e4) as (e5 & -> & K5).
  { destruct K as (-> & _). lia. }
  cbn [mbind option_bind].
  pose proof (keeps_trans _ _ _ K K5) as K'.
  destruct (detect_breakout_keeps i cur e5) as (e6 & -> & K6).
  - destruct K' as (_ & _ & _ & _ & _ & _ & _ & Hs). auto.
  - destruct K' as (_ & -> & _). lia.
  - exists e6. split; [reflexivity|]. exact (keeps_trans _ _ _ K' K6).
Qed.

Lemma process_candles_keeps (len first : nat) (e : Engine) :
  (0 < first)%nat -> (first + len <= length (data e))%nat ->
  length (signals e) = length (data e) ->
  is_Some (L1_pt e) -> in_sync e ->
  exists e', process_candles (seq first len) e = Some e' /\ keeps e e'.
Proof.
  revert first e. induction len as [|len IH]; intros first e Hfirst Hlen Hsig HL Hsync.
  - exists e. split; [reflexivity|apply keeps_refl].
  - cbn [seq process_candles].
    destruct (process_candle_keeps first e ltac:(lia) Hsig HL Hsync) as (e1 & -> & K1).
    cbn [mbind option_bind].
    pose proof K1 as (Hd & Hs & _ & _ & _ & _ & HL1 & Hy1).
    assert (H1 : (S first + len <= length (data e1))%nat) by (rewrite Hd; lia).
    assert (H2 : length (signals e1) = length (data e1)) by congruence.
    destruct (IH (S first) e1 ltac:(lia) H1 H2 (HL1 HL) (Hy1 Hsync)) as (e2 & -> & K2).
    exists e2. split; [reflexivity|]. exact (keeps_trans _ _ _ K1 K2).
Qed.

(** From an engine whose setup is in step with point D and whose signal
    table has one row per candle, the batch pass never raises; it keeps the
    candles, the size of the signal table and the order bookkeeping. *)
Lemma generate_signals_total (e : Engine) :
  in_sync e -> length (signals e) = length (data e) ->
  exists e',
    generate_signals e = Some e' /\
    data e' = data e /\ length (signals e') = length (data e') /\
    has_broker e' = has_broker e /\
    order_counter e' = order_counter e /\ signal_counter e' = signal_counter e /\
    in_sync e'.
Proof.
  intros Hsync Hlen. unfold generate_signals.
  destruct (data e) as [|first rest] eqn:Hdata.
  - exists e. unfold initialize_H1_L1. rewrite Hdata. cbn.
    split_and!; try reflexivity; try assumption; now rewrite Hdata.
  - assert (K0 : keeps e (initialize_H1_L1 e)).
    { unfold initialize_H1_L1. rewrite Hdata. destruct e. solve_keeps. }
    assert (HL : is_Some (L1_pt (initialize_H1_L1 e))).
    { unfold initialize_H1_L1. rewrite Hdata. destruct e. cbn. eauto. }
    pose proof K0 as (Hd & Hs & _ & _ & _ & _ & _ & Hy).
    assert (H1 : (1 + (length (first :: rest) - 1) <= length (data (initialize_H1_L1 e)))%nat).
    { rewrite Hd, Hdata. cbn. lia. }
    assert (H2 : length (signals (initialize_H1_L1 e)) = length (data (initialize_H1_L1 e)))
      by congruence.
    destruct (process_candles_keeps (length (first :: rest) - 1) 1 (initialize_H1_L1 e)
                ltac:(lia) H1 H2 HL (Hy Hsync)) as (e' & He' & K).
    exists e'. split; [exact He'|].
    destruct (keeps_trans _ _ _ K0 K) as (Hd' & Hs' & Hb' & Ho' & Hc' & _ & _ & Hy').
    rewrite Hdata in Hd'.
    split_and!; try assumption; auto. congruence.
Qed.
(** *** Replaying a candle sequence *)

(** C9 (as the code has it). The batch pass is a function of the candle
    frame and of what the engine holds of an earlier structure when the pass
    starts: the points A, B, C and D, the pending setup and the signal rows.
    On a frame that is not empty L1 and H1 are overwritten by the seeding,
    and the broker, the options cache, the recorded structures and the order
    and signal counters are never read.  So two passes over the same candles
    from newly constructed strategies never raise and end with identical
    structure points (with their indices), setup and signal rows; and two
    passes from any two engines that hold the same candles and agree on A,
    B, C, D, the setup and the signal rows end alike, one raising exactly
    when the other does. *)
Theorem generate_signals_deterministic (candles : list Candle) :
  (forall broker1 broker2 : bool,
     exists e1 e2 : Engine,
       generate_signals (new_strategy candles broker1) = Some e1 /\
       generate_signals (new_strategy candles broker2) = Some e2 /\
       structure_state e1 = structure_state e2) /\
  (forall e1 e2 : Engine,
     candles <> [] -> data e1 = candles -> data e2 = candles ->
     A_pt e1 = A_pt e2 -> B_pt e1 = B_pt e2 -> C_pt e1 = C_pt e2 -> D_pt e1 = D_pt e2 ->
     pending_setup e1 = pending_setup e2 -> signals e1 = signals e2 ->
     structure_state <$> generate_signals e1 = structure_state <$> generate_signals e2).
Proof.
  split.
  - intros broker1 broker2.
    assert (Hnew : forall broker,
              in_sync (new_strategy candles broker) /\
              length (signals (new_strategy candles broker))
              = length (data (new_strategy candles broker))).
    { intros broker. split; [|cbn; apply length_map].
      unfold in_sync. cbn. split; intros [? ?]; discriminate. }
    destruct (Hnew broker1) as [Hs1 Hl1], (Hnew broker2) as [Hs2 Hl2].
    destruct (generate_signals_total _ Hs1 Hl1) as (e1 & He1 & _).
    destruct (generate_signals_total _ Hs2 Hl2) as (e2 & He2 & _).
    exists e1, e2. split; [exact He1|]. split; [exact He2|].
    pose proof (generate_signals_seeded (new_strategy candles broker1)
                  (new_strategy candles broker2)) as Heq.
    rewrite He1, He2 in Heq.
    assert (Hsome : Some (structure_state e1) = Some (structure_state e2));
      [|exact (inj Some _ _ Hsome)].
    apply Heq; [reflexivity|].
    unfold initialize_H1_L1. cbn [data new_strategy]. now destruct candles.
  - intros e1 e2 Hne Hd1 Hd2 HA HB HC HD Hp Hs.
    apply generate_signals_seeded; [congruence|].
    unfold initialize_H1_L1. rewrite Hd1, Hd2.
    destruct candles as [|first rest]; [now destruct Hne|].
    destruct e1, e2. cbn in *. unfold structure_state. cbn. congruence.
Qed.

(** *** The live path and the order counter *)

Section LiveProperties.

Variable pow_overflow : Q -> bool.

(** When the live check returns a signal: C and D are set, the price is
    strictly above D, the order counter is below the cap, the cache holds a
    non-empty table from which a strike was selected; the engine changes in
    its signal counter only (and holds the setup). *)
Lemma check_live_tick_signal (self self' : Engine) (price : Q) (sig : SignalData) :
  check_live_tick pow_overflow self price = (self', Some sig) ->
  exists (c d : Point) (row : OptionRow) (rows : list OptionRow) (opt : OptionData)
         (quantity : option Z) (total_risk : option Q),
    C_pt self = Some c /\ D_pt self = Some d /\ pt_price d < price /\
    (order_counter self < MAX_SIGNAL_ATTEMPTS)%nat /\
    cached_options_data self = Some (row :: rows) /\
    select_optimal_strike pow_overflow (Some (row :: rows)) price
      (TARGET_RISK_MIN, TARGET_RISK_MAX) DEFAULT_LOT_SIZE = (Some opt, quantity, total_risk) /\
    self' = set_signal_counter (S (signal_counter self))
              (set_pending_setup (Some (live_setup self c d)) self) /\
    sig = mkSignalData 1 (su_entry_price (live_setup self c d))
            (su_stop_loss (live_setup self c d)) (su_target (live_setup self c d))
            opt quantity total_risk.
Proof.
  unfold check_live_tick.
  destruct (C_pt self) as [c|] eqn:Hc; [|discriminate].
  destruct (D_pt self) as [d|] eqn:Hd; [|discriminate].
  destruct (Qgtb price (pt_price d)) eqn:Hg; [|discriminate].
  destruct (MAX_SIGNAL_ATTEMPTS <=? order_counter self)%nat eqn:Hcap; [discriminate|].
  apply Qgtb_true in Hg. apply Nat.leb_gt in Hcap.
  fold (live_setup self c d).
  destruct (cached_options_data self) as [[|row rows]|] eqn:Hcache;
    cbn [cached_options_data set_pending_setup].
  - rewrite Hcache. unfold refresh_option_greeks. cbn [has_broker set_pending_setup].
    destruct (has_broker self); cbn; [discriminate|]. rewrite Hcache. discriminate.
  - rewrite Hcache. cbn [cached_options_data set_pending_setup]. rewrite Hcache.
    destruct (select_optimal_strike _ _ _ _ _) as [[[opt|] quantity] total_risk] eqn:Hsel;
      [|discriminate].
    intros [= <- <-]. exists c, d, row, rows, opt, quantity, total_risk.
    split_and!; try reflexivity; try assumption.
  - rewrite Hcache. unfold refresh_option_greeks. cbn [has_broker set_pending_setup].
    destruct (has_broker self); cbn; [discriminate|]. rewrite Hcache. discriminate.
Qed.

(** Whatever a live tick returns, it leaves the candles, the signal table,
    the six points and the order counter alone, and the setup stays in step
    with point D. *)
Lemma check_live_tick_frame (self : Engine) (price : Q) :
  let self' := fst (check_live_tick pow_overflow self price) in
  data self' = data self /\ signals self' = signals self /\
  L1_pt self' = L1_pt self /\ H1_pt self' = H1_pt self /\ A_pt self' = A_pt self /\
  B_pt self' = B_pt self /\ C_pt self' = C_pt self /\ D_pt self' = D_pt self /\
  has_broker self' = has_broker self /\ order_counter self' = order_counter self /\
  last_order_id self' = last_order_id self /\
  (in_sync self -> in_sync self') /\
  (is_Some (pending_setup self) -> pending_setup self' = pending_setup self).
Proof.
  cbv zeta. destruct self as [dt br sg h1 l1 a b c d ps st cache lo oc sc].
  unfold check_live_tick, in_sync, refresh_option_greeks.
  cbn [C_pt D_pt order_counter].
  destruct c as [c|]; [|cbn; split_and!; auto].
  destruct d as [d|]; [|cbn; split_and!; auto].
  destruct (Qgtb price (pt_price d)); [|cbn; split_and!; auto].
  destruct (MAX_SIGNAL_ATTEMPTS <=? oc)%nat; [cbn; split_and!; auto|].
  destruct cache as [[|row rows]|]; try destruct br;
    cbn -[select_optimal_strike Qplus Qminus Qmult];
    try destruct (select_optimal_strike _ _ _ _ _) as [[[opt|] quantity] total_risk];
    cbn -[select_optimal_strike Qplus Qminus Qmult].
  all: split_and!; try reflexivity; try tauto.
  all: try (intros _; split; intros _; eauto; fail).
  all: intros [setup ->]; reflexivity.
Qed.

(** [place_order] moves the order counter by one, on a successful order
    only, and touches nothing of the structure. *)
Lemma place_order_frame (self self' : Engine) (signal : SignalData)
    (broker_answer result : option string) :
  place_order self signal broker_answer = Some (self', result) ->
  data self' = data self /\ signals self' = signals self /\
  structure_state self' = structure_state self /\
  has_broker self' = has_broker self /\
  cached_options_data self' = cached_options_data self /\
  (order_counter self' = order_counter self \/
   is_Some result /\ order_counter self' = S (order_counter self)).
Proof.
  unfold place_order. destruct (negb (has_broker self)).
  { intros [= <- <-]. split_and!; try reflexivity. now left. }
  destruct (target _); [|discriminate]. destruct (stop_loss _); [|discriminate].
  destruct broker_answer as [order_id|].
  - destruct (String.eqb order_id ""); intros [= <- <-].
    + split_and!; try reflexivity. now left.
    + destruct self. split_and!; try reflexivity. right. split; [eauto|reflexivity].
  - intros [= <- <-]. split_and!; try reflexivity. now left.
Qed.

Lemma reset_points_pending (which : list string) (e : Engine) :
  pending_setup (reset_points which e) =
  if bool_decide ("D"%string ∈ which) then None else pending_setup e.
Proof.
  unfold reset_points. revert e. induction which as [|p which IH]; intros e; [reflexivity|].
  cbn [foldl]. rewrite IH.
  destruct (decide (p = "D"%string)) as [->|Hne].
  - rewrite (bool_decide_eq_true_2 ("D"%string ∈ "D"%string :: which)) by (left).
    destruct (bool_decide _); destruct e; reflexivity.
  - assert (Hp : pending_setup (reset_point e p) = pending_setup e).
    { unfold reset_point. apply String.eqb_neq in Hne. rewrite Hne.
      destruct e, (String.eqb p "H1"), (String.eqb p "L1"), (String.eqb p "A"),
        (String.eqb p "B"), (String.eqb p "C"); reflexivity. }
    rewrite Hp. destruct (decide ("D"%string ∈ which)) as [Hin|Hnin].
    + rewrite !bool_decide_eq_true_2; [reflexivity|now right|exact Hin].
    + rewrite !bool_decide_eq_false_2; [reflexivity| |exact Hnin].
      intros Hin. apply elem_of_cons in Hin as [Heq|Hin]; [congruence|contradiction].
Qed.

(** A tick of the live driver, whatever the broker answers: the candles,
    the signal table, the six points stay as they are and the setup stays in
    step with point D; a setup that is pending is never removed; the order
    counter moves by one, and only from below the cap, when an order is
    placed. *)
Lemma check_breakout_signals_frame (e : Engine) (price : Q)
    (broker_answer : option string) :
  let e' := check_breakout_signals pow_overflow e price broker_answer in
  data e' = data e /\ signals e' = signals e /\
  L1_pt e' = L1_pt e /\ H1_pt e' = H1_pt e /\ A_pt e' = A_pt e /\
  B_pt e' = B_pt e /\ C_pt e' = C_pt e /\ D_pt e' = D_pt e /\
  (in_sync e -> in_sync e') /\
  (is_Some (pending_setup e) -> pending_setup e' = pending_setup e) /\
  (order_counter e' = order_counter e \/
   (order_counter e < MAX_SIGNAL_ATTEMPTS)%nat /\ is_Some broker_answer /\
   order_counter e' = S (order_counter e)).
Proof.
  cbv zeta. unfold check_breakout_signals.
  pose proof (check_live_tick_frame e price) as Hframe. cbv zeta in Hframe.
  destruct (check_live_tick pow_overflow e price) as [self [signal|]] eqn:Hlive;
    cbn [fst] in Hframe;
    destruct Hframe as (Hd & Hs & HL1 & HH1 & HA & HB & HC & HD & _ & Ho & _ & Hy & Hk).
  - apply check_live_tick_signal in Hlive
      as (c & d & row & rows & opt & q & t & _ & _ & _ & Hlt & _).
    destruct (place_order self signal broker_answer) as [[self' result]|] eqn:Hplace.
    + pose proof Hplace as Hanswer.
      apply place_order_frame in Hplace as (Hd' & Hs' & Hst & _ & _ & Hcount).
      injection Hst as HL1' HH1' HA' HB' HC' HD' Hp' _.
      split_and!; try congruence.
      * intros Hsync. unfold in_sync. rewrite Hp', HD'. exact (Hy Hsync).
      * intros Hsome. rewrite Hp'. exact (Hk Hsome).
      * destruct Hcount as [Hsame|[_ Hnext]]; [left; now rewrite Hsame|right].
        split; [exact Hlt|]. split; [|now rewrite Hnext, Ho].
        unfold place_order in Hanswer. destruct (negb (has_broker self)).
        { injection Hanswer as <- _. lia. }
        destruct (target _); [|discriminate]. destruct (stop_loss _); [|discriminate].
        destruct broker_answer; [eauto|]. injection Hanswer as <- _. lia.
    + split_and!; try assumption. now left.
  - split_and!; try assumption. now left.
Qed.

(** The invariants of the engines the application can hold. *)
Lemma reachable_invariant (e : Engine) :
  reachable pow_overflow e ->
  in_sync e /\ length (signals e) = length (data e) /\
  (order_counter e <= MAX_SIGNAL_ATTEMPTS)%nat.
Proof.
  induction 1 as [candles broker|e e' _ IH Hgen|e price answer _ IH|e e' df _ IH Hupd].
  - split_and!.
    + unfold in_sync. cbn. split; intros [? ?]; discriminate.
    + cbn. apply length_map.
    + cbn. unfold MAX_SIGNAL_ATTEMPTS. lia.
  - destruct IH as (Hsync & Hlen & Hcap).
    destruct (generate_signals_total e Hsync Hlen) as (e'' & He'' & Hd & Hs & _ & Ho & _ & Hy).
    rewrite Hgen in He''. injection He'' as <-. split_and!; [exact Hy|exact Hs|lia].
  - destruct IH as (Hsync & Hlen & Hcap).
    pose proof (check_breakout_signals_frame e price answer) as Hframe. cbv zeta in Hframe.
    destruct Hframe as (Hd & Hs & _ & _ & _ & _ & _ & _ & Hy & _ & Hcount).
    split_and!; [exact (Hy Hsync)|congruence|].
    destruct Hcount as [->|(Hlt & _ & ->)]; lia.
  - destruct IH as (Hsync & Hlen & Hcap). unfold update_strategies in Hupd.
    destruct df as [|first rest]; [injection Hupd as <-; auto|].
    match type of Hupd with generate_signals ?r = _ => set (restored := r) in * end.
    assert (Hr : in_sync restored /\ length (signals restored) = length (data restored)
                 /\ order_counter restored = O).
    { unfold restored, in_sync in *. destruct (pending_setup e) eqn:Hp; cbn.
      - split_and!; [exact Hsync|now rewrite length_map|reflexivity].
      - split_and!; [split; intros [? ?]; discriminate|now rewrite length_map|reflexivity]. }
    destruct Hr as (Hrs & Hrl & Hro).
    destruct (generate_signals_total restored Hrs Hrl)
      as (e'' & He'' & Hd & Hs & _ & Ho & _ & Hy).
    rewrite Hupd in He''. injection He'' as <-. split_and!; [exact Hy|exact Hs|lia].
Qed.

Lemma detect_breakout_fires (i : nat) (candle : Candle) (e : Engine) (setup : Setup)
    (d : Point) (row : SignalRow) :
  pending_setup e = Some setup -> D_pt e = Some d -> signals e !! i = Some row ->
  pt_price d < c_high candle ->
  detect_breakout i candle e =
    Some (mkEngine (data e) (has_broker e)
            (<[i := mkSignalRow 1 (Some (su_entry_price setup)) (Some (su_stop_loss setup))
                      (Some (su_target setup))]> (signals e))
            None (Some (mkPoint (c_low candle) i)) None None None None None
            (structures e ++
               [mkStructureRecord (su_structure setup) (i, su_entry_price setup)
                  (i, su_stop_loss setup) (i, su_target setup)])
            (cached_options_data e) (last_order_id e) (order_counter e) (signal_counter e)).
Proof.
  intros Hp Hd Hrow Hlt. unfold detect_breakout. rewrite Hp, Hd. cbn [mbind option_bind].
  apply Qgtb_true in Hlt. rewrite Hlt, Hrow. cbn [mbind option_bind].
  destruct e. reflexivity.
Qed.

Lemma detect_breakout_quiet (i : nat) (candle : Candle) (e : Engine) (d : Point) :
  D_pt e = Some d -> c_high candle <= pt_price d ->
  detect_breakout i candle e = Some e.
Proof.
  intros Hd Hle. unfold detect_breakout. rewrite Hd. cbn [mbind option_bind].
  apply Qgtb_false in Hle. rewrite Hle. now destruct (pending_setup e).
Qed.

Lemma check_live_tick_quiet (e : Engine) (price : Q) (d : Point) :
  D_pt e = Some d -> price <= pt_price d ->
  check_live_tick pow_overflow e price = (e, None).
Proof.
  intros Hd Hle. unfold check_live_tick. rewrite Hd. apply Qgtb_false in Hle. rewrite Hle.
  now destruct (C_pt e).
Qed.

Lemma check_live_tick_capped (e : Engine) (price : Q) :
  (MAX_SIGNAL_ATTEMPTS <= order_counter e)%nat ->
  check_live_tick pow_overflow e price = (e, None).
Proof.
  intros Hcap. unfold check_live_tick. apply Nat.leb_le in Hcap. rewrite Hcap.
  destruct (C_pt e), (D_pt e); try reflexivity. now destruct (Qgtb _ _).
Qed.

(** C1 (as the code has it). For every engine with a pending setup, C and D
    set, and every candle, whose high is the traded price:
    - the batch step signals exactly when the price is strictly greater than
      D; it then writes the signal row, clears all six points and the setup,
      and re-seeds L1 from the low of the triggering candle; otherwise it
      changes nothing;
    - the live check returns no signal when the price is not strictly
      greater than D, nor when the order counter has reached
      MAX_SIGNAL_ATTEMPTS; when it returns a signal the price is strictly
      greater than D and the counter below the cap, the signal carries the
      entry, stop and target of the setup, and the engine keeps all six
      points, the setup and the signal table: only its signal counter
      grows. *)
Theorem breakout_batch_and_live (self : Engine) (setup : Setup) (c d : Point) (i : nat)
    (candle : Candle) (row : SignalRow) :
  pending_setup self = Some setup -> C_pt self = Some c -> D_pt self = Some d ->
  signals self !! i = Some row ->
  let price := c_high candle in
  (pt_price d < price ->
     exists self' : Engine,
       detect_breakout i candle self = Some self' /\
       signals self' =
         <[i := mkSignalRow 1 (Some (su_entry_price setup)) (Some (su_stop_loss setup))
                  (Some (su_target setup))]> (signals self) /\
       L1_pt self' = Some (mkPoint (c_low candle) i) /\
       H1_pt self' = None /\ A_pt self' = None /\ B_pt self' = None /\
       C_pt self' = None /\ D_pt self' = None /\ pending_setup self' = None)
  /\
  (price <= pt_price d ->
     detect_breakout i candle self = Some self /\
     check_live_tick pow_overflow self price = (self, None))
  /\
  ((MAX_SIGNAL_ATTEMPTS <= order_counter self)%nat ->
     check_live_tick pow_overflow self price = (self, None))
  /\
  (forall (self' : Engine) (sig : SignalData),
     check_live_tick pow_overflow self price = (self', Some sig) ->
     pt_price d < price /\
     (order_counter self < MAX_SIGNAL_ATTEMPTS)%nat /\
     structure_state self' = structure_state self /\
     signal_counter self' = S (signal_counter self) /\
     sd_entry_price sig = su_entry_price setup /\
     sd_stop_loss sig = su_stop_loss setup /\
     sd_target sig = su_target setup).
Proof.
  intros Hp Hc Hd Hrow price. split_and!.
  - intros Hlt. eexists. split; [exact (detect_breakout_fires _ _ _ _ _ _ Hp Hd Hrow Hlt)|].
    cbn. split_and!; reflexivity.
  - intros Hle. split; [exact (detect_breakout_quiet _ _ _ _ Hd Hle)|].
    exact (check_live_tick_quiet _ _ _ Hd Hle).
  - apply check_live_tick_capped.
  - intros self' sig Hlive.
    apply check_live_tick_signal in Hlive
      as (c' & d' & r & rows & opt & q & t & Hc' & Hd' & Hlt & Hcap & _ & _ & -> & ->).
    rewrite Hd in Hd'. injection Hd' as <-.
    assert (Hsetup : live_setup self c' d = setup) by (unfold live_setup; now rewrite Hp).
    rewrite Hsetup. split_and!; try assumption; try reflexivity.
    destruct self. cbn in *. unfold structure_state. cbn. now rewrite Hp.
Qed.

End LiveProperties.

(** *** The iterations of the detection loop, and the example of the specification *)

(** Index 3 cannot be a swing low when the low of index 4 is below it. *)
Lemma adjacent_lows_not_both_swings (candles : list Candle) (i : nat) :
  is_swing_low candles i = true -> is_swing_low candles (S i) = false.
Proof.
  unfold is_swing_low. destruct i as [|before]; [discriminate|].
  destruct (candles !! before) as [p|]; [|discriminate].
  destruct (candles !! S before) as [c|]; [|discriminate].
  destruct (candles !! S (S before)) as [n|]; [|discriminate].
  intros H. apply andb_true_iff in H as [_ H]. apply Qltb_true in H.
  destruct (candles !! S (S (S before))); [|reflexivity].
  apply andb_false_iff. left. apply Qltb_false. lra.
Qed.

(** **** The blocks of the loop, case by case *)

Lemma update_L1_new (i : nat) (cur : Candle) (e : Engine) (l1 : Point) :
  is_swing_low (data e) i = true -> L1_pt e = Some l1 -> c_low cur < pt_price l1 ->
  update_L1 i cur e =
    Some (reset_points ["H1"; "A"; "B"; "C"; "D"]%string
            (set_L1 (Some (mkPoint (c_low cur) i)) e)).
Proof.
  intros Hlow HL Hlt. unfold update_L1. rewrite Hlow, HL. cbn [mbind option_bind].
  apply Qltb_true in Hlt. now rewrite Hlt.
Qed.

Lemma update_L1_skip (i : nat) (cur : Candle) (e : Engine) :
  is_swing_low (data e) i = false \/
  (exists l1, L1_pt e = Some l1 /\ pt_price l1 <= c_low cur) ->
  update_L1 i cur e = Some e.
Proof.
  unfold update_L1. intros [->|(l1 & -> & Hle)]; [reflexivity|].
  cbn [mbind option_bind]. apply Qltb_false in Hle. rewrite Hle.
  now destruct (is_swing_low _ _).
Qed.

Lemma update_H1_skip (i : nat) (cur : Candle) (e : Engine) :
  is_swing_high (data e) i = false \/
  (exists h1, H1_pt e = Some h1 /\ c_high cur <= pt_price h1) ->
  update_H1 i cur e = e.
Proof.
  unfold update_H1. intros [->|(h1 & -> & Hle)].
  - now destruct (L1_pt e).
  - apply Qgtb_false in Hle. rewrite Hle.
    destruct (L1_pt e); [|reflexivity]. destruct (is_swing_high _ _); [|reflexivity].
    now destruct (_ && _).
Qed.

Lemma update_H1_first (i : nat) (cur : Candle) (e : Engine) (l1 : Point) :
  is_swing_high (data e) i = true -> L1_pt e = Some l1 -> (pt_idx l1 < i)%nat ->
  pt_price l1 < c_high cur -> H1_pt e = None ->
  update_H1 i cur e = set_H1 (Some (mkPoint (c_high cur) i)) e.
Proof.
  intros Hhigh HL Hidx Hgt HH. unfold update_H1. rewrite HL, Hhigh, HH.
  apply Nat.ltb_lt in Hidx. apply Qgtb_true in Hgt. now rewrite Hidx, Hgt.
Qed.

Lemma detect_A_skip (i : nat) (cur : Candle) (e : Engine) :
  H1_pt e = None \/ is_swing_low (data e) i = false \/ is_Some (A_pt e) ->
  detect_A i cur e = e.
Proof.
  unfold detect_A. intros [->|[->|[a ->]]]; try reflexivity.
  - destruct (H1_pt e), (L1_pt e), (A_pt e); reflexivity.
  - destruct (H1_pt e), (L1_pt e); reflexivity.
Qed.

Lemma detect_A_sets (i : nat) (cur : Candle) (e : Engine) (l1 h1 : Point) :
  is_swing_low (data e) i = true -> L1_pt e = Some l1 -> H1_pt e = Some h1 ->
  A_pt e = None -> (pt_idx h1 < i)%nat -> pt_price l1 < c_low cur ->
  detect_A i cur e = set_A (Some (mkPoint (c_low cur) i)) e.
Proof.
  intros Hlow HL HH HA Hidx Hgt. unfold detect_A. rewrite HH, HL, HA, Hlow.
  apply Nat.ltb_lt in Hidx. apply Qgtb_true in Hgt. now rewrite Hidx, Hgt.
Qed.

Lemma detect_B_skip (i : nat) (cur : Candle) (e : Engine) :
  A_pt e = None \/ is_swing_low (data e) i = false \/ is_Some (B_pt e) \/
  (exists a, A_pt e = Some a /\ (i <= pt_idx a + 1)%nat) ->
  detect_B i cur e = e.
Proof.
  unfold detect_B. intros [->|[->|[[b ->]|(a & -> & Hidx)]]]; try reflexivity.
  - destruct (A_pt e), (B_pt e); reflexivity.
  - now destruct (A_pt e).
  - apply Nat.ltb_ge in Hidx. rewrite Hidx.
    destruct (B_pt e); [reflexivity|]. now destruct (is_swing_low _ _).
Qed.

Lemma detect_C_skip (i : nat) (cur prev : Candle) (e : Engine) :
  B_pt e = None \/ is_Some (C_pt e) -> detect_C i cur prev e = Some e.
Proof.
  unfold detect_C. intros [->|[c ->]]; [reflexivity|]. now destruct (B_pt e).
Qed.

Lemma detect_breakout_skip (i : nat) (cur : Candle) (e : Engine) :
  pending_setup e = None -> detect_breakout i cur e = Some e.
Proof. unfold detect_breakout. now intros ->. Qed.

Lemma process_candle_unfold (i : nat) (e : Engine) (cur prev : Candle) :
  data e !! i = Some cur -> data e !! (i - 1)%nat = Some prev ->
  process_candle i e =
    match update_L1 i cur e with
    | Some e1 =>
        match detect_C i cur prev (detect_B i cur (detect_A i cur (update_H1 i cur e1))) with
        | Some e5 => detect_breakout i cur e5
        | None => None
        end
    | None => None
    end.
Proof. intros Hcur Hprev. unfold process_candle. now rewrite Hcur, Hprev. Qed.

(** **** Whole iterations *)

(** A candle that is no swing, while B is unset and no setup is pending,
    changes nothing. *)
Lemma process_candle_quiet (i : nat) (e : Engine) (cur prev : Candle) :
  data e !! i = Some cur -> data e !! (i - 1)%nat = Some prev ->
  is_swing_low (data e) i = false -> is_swing_high (data e) i = false ->
  B_pt e = None -> pending_setup e = None ->
  process_candle i e = Some e.
Proof.
  intros Hcur Hprev Hlow Hhigh HB HP. rewrite (process_candle_unfold i e cur prev Hcur Hprev).
  rewrite update_L1_skip by (left; exact Hlow). cbv beta iota.
  rewrite update_H1_skip by (left; exact Hhigh). 
  rewrite detect_A_skip by (right; left; exact Hlow).
  rewrite detect_B_skip by (right; left; exact Hlow).
  rewrite detect_C_skip by (left; exact HB). cbv beta iota. 
  apply detect_breakout_skip. exact HP.
Qed.

(** A swing low below L1 that is no swing high re-anchors L1 there and
    clears H1, A, B, C, D and the setup. *)
Lemma process_candle_new_L1 (i : nat) (e : Engine) (cur prev : Candle) (l1 : Point) :
  data e !! i = Some cur -> data e !! (i - 1)%nat = Some prev ->
  is_swing_low (data e) i = true -> is_swing_high (data e) i = false ->
  L1_pt e = Some l1 -> c_low cur < pt_price l1 ->
  process_candle i e =
    Some (reset_points ["H1"; "A"; "B"; "C"; "D"]%string
            (set_L1 (Some (mkPoint (c_low cur) i)) e)).
Proof.
  intros Hcur Hprev Hlow Hhigh HL Hlt.
  rewrite (process_candle_unfold i e cur prev Hcur Hprev).
  rewrite (update_L1_new i cur e l1 Hlow HL Hlt). cbv beta iota.
  set (e1 := reset_points _ _).
  assert (Hd : data e1 = data e) by (destruct e; reflexivity).
  assert (HH : H1_pt e1 = None) by (destruct e; reflexivity).
  assert (HA : A_pt e1 = None) by (destruct e; reflexivity).
  assert (HB : B_pt e1 = None) by (destruct e; reflexivity).
  assert (HP : pending_setup e1 = None) by (destruct e; reflexivity).
  clearbody e1.
  rewrite update_H1_skip by (left; now rewrite Hd).
  rewrite detect_A_skip by now left.
  rewrite detect_B_skip by now left.
  rewrite detect_C_skip by now left. cbv beta iota.
  now apply detect_breakout_skip.
Qed.

(** The first swing high after L1 and above it becomes H1. *)
Lemma process_candle_first_H1 (i : nat) (e : Engine) (cur prev : Candle) (l1 : Point) :
  data e !! i = Some cur -> data e !! (i - 1)%nat = Some prev ->
  is_swing_low (data e) i = false -> is_swing_high (data e) i = true ->
  L1_pt e = Some l1 -> (pt_idx l1 < i)%nat -> pt_price l1 < c_high cur ->
  H1_pt e = None -> B_pt e = None -> pending_setup e = None ->
  process_candle i e = Some (set_H1 (Some (mkPoint (c_high cur) i)) e).
Proof.
  intros Hcur Hprev Hlow Hhigh HL Hidx Hgt HH HB HP.
  rewrite (process_candle_unfold i e cur prev Hcur Hprev).
  rewrite update_L1_skip by now left. cbv beta iota.
  rewrite (update_H1_first i cur e l1 Hhigh HL Hidx Hgt HH).
  set (e1 := set_H1 _ _).
  assert (Hd : data e1 = data e) by (destruct e; reflexivity).
  assert (HB1 : B_pt e1 = None) by (destruct e; exact HB).
  assert (HP1 : pending_setup e1 = None) by (destruct e; exact HP).
  clearbody e1.
  rewrite detect_A_skip by (right; left; now rewrite Hd).
  rewrite detect_B_skip by (right; left; now rewrite Hd).
  rewrite detect_C_skip by now left. cbv beta iota.
  now apply detect_breakout_skip.
Qed.

(** A swing low above L1 and after H1, on a candle whose high does not
    exceed H1, becomes A; it is not B as well, B lying at least two candles
    after A. *)
Lemma process_candle_sets_A (i : nat) (e : Engine) (cur prev : Candle) (l1 h1 : Point) :
  data e !! i = Some cur -> data e !! (i - 1)%nat = Some prev ->
  is_swing_low (data e) i = true ->
  L1_pt e = Some l1 -> pt_price l1 < c_low cur ->
  H1_pt e = Some h1 -> (pt_idx h1 < i)%nat -> c_high cur <= pt_price h1 ->
  A_pt e = None -> B_pt e = None -> pending_setup e = None ->
  process_candle i e = Some (set_A (Some (mkPoint (c_low cur) i)) e).
Proof.
  intros Hcur Hprev Hlow HL Hgt HH Hidx Hle HA HB HP.
  rewrite (process_candle_unfold i e cur prev Hcur Hprev).
  rewrite update_L1_skip by (right; exists l1; split; [exact HL|lra]).
  cbv beta iota.
  rewrite update_H1_skip by (right; exists h1; split; [exact HH|exact Hle]).
  rewrite (detect_A_sets i cur e l1 h1 Hlow HL HH HA Hidx Hgt).
  set (e1 := set_A _ _).
  assert (HA1 : A_pt e1 = Some (mkPoint (c_low cur) i)) by (destruct e; reflexivity).
  assert (HB1 : B_pt e1 = None) by (destruct e; exact HB).
  assert (HP1 : pending_setup e1 = None) by (destruct e; exact HP).
  clearbody e1.
  rewrite detect_B_skip
    by (right; right; right; exists (mkPoint (c_low cur) i); split; [exact HA1|cbn; lia]).
  rewrite detect_C_skip by now left. cbv beta iota.
  now apply detect_breakout_skip.
Qed.

Lemma process_candles_step (i : nat) (rest : list nat) (e e1 : Engine) (r : option Engine) :
  process_candle i e = Some e1 -> process_candles rest e1 = r ->
  process_candles (i :: rest) e = r.
Proof. intros H1 H2. cbn [process_candles]. rewrite H1. exact H2. Qed.

Ltac decide_cmp :=
  match goal with
  | |- context [Qgtb ?a ?b] =>
      first [ rewrite (proj2 (Qgtb_true a b)) by lra
            | rewrite (proj2 (Qgtb_false a b)) by lra ]
  | |- context [Qltb ?a ?b] =>
      first [ rewrite (proj2 (Qltb_true a b)) by lra
            | rewrite (proj2 (Qltb_false a b)) by lra ]
  end.

Ltac swing_fact :=
  unfold is_swing_low, is_swing_high; cbn [lookup list_lookup];
  repeat match goal with H : c_low _ = _ |- _ => rewrite H | H : c_high _ = _ |- _ => rewrite H end;
  repeat decide_cmp;
  rewrite ?andb_false_r; reflexivity.

Ltac engine_fact :=
  cbv -[is_swing_low is_swing_high Qlt Qle c_low c_high];
  repeat match goal with H : c_low _ = _ |- _ => rewrite H | H : c_high _ = _ |- _ => rewrite H end;
  first [reflexivity | assumption | lra | lia].

(** C8 (as the code has it). Over any six candles with lows 100, 95, l2,
    105, 102, 108 where index 1 is a swing low (l2 > 95) and index 2 is a
    swing high of 110 (the highs of indices 1 and 3 are below 110) that no
    later high exceeds (the high of index 4 is at most 110), the detection
    pass seeds L1 = 95 at index 1 and H1 = 110 at index 2; index 3 is not a
    swing low, its low 105 being above the low 102 of index 4, so A is the
    low 102 of index 4; B, C and D stay unset, no setup is pending and no
    signal row is written. *)
Theorem spec_example_run (c0 c1 c2 c3 c4 c5 : Candle) (broker : bool) :
  c_low c0 = 100 -> c_low c1 = 95 -> c_low c3 = 105 -> c_low c4 = 102 -> c_low c5 = 108 ->
  c_high c2 = 110 ->
  95 < c_low c2 -> c_high c1 < 110 -> c_high c3 < 110 -> c_high c4 <= 110 ->
  exists e : Engine,
    generate_signals (new_strategy [c0; c1; c2; c3; c4; c5] broker) = Some e /\
    L1_pt e = Some (mkPoint 95 1) /\ H1_pt e = Some (mkPoint 110 2) /\
    A_pt e = Some (mkPoint 102 4) /\ B_pt e = None /\ C_pt e = None /\ D_pt e = None /\
    pending_setup e = None /\
    signals e = signals (new_strategy [c0; c1; c2; c3; c4; c5] broker).
Proof.
  intros H0 H1 H3 H4 H5 H2 Hl2 Hh1 Hh3 Hh4.
  set (d := [c0; c1; c2; c3; c4; c5]).
  assert (L1t : is_swing_low d 1 = true) by (unfold d; swing_fact).
  assert (H1f : is_swing_high d 1 = false) by (unfold d; swing_fact).
  assert (L2f : is_swing_low d 2 = false) by (unfold d; swing_fact).
  assert (H2t : is_swing_high d 2 = true) by (unfold d; swing_fact).
  assert (L3f : is_swing_low d 3 = false) by (unfold d; swing_fact).
  assert (H3f : is_swing_high d 3 = false) by (unfold d; swing_fact).
  assert (L4t : is_swing_low d 4 = true) by (unfold d; swing_fact).
  assert (L5f : is_swing_low d 5 = false) by reflexivity.
  assert (H5f : is_swing_high d 5 = false) by reflexivity.
  set (e0 := initialize_H1_L1 (new_strategy d broker)).
  set (e1 := reset_points ["H1"; "A"; "B"; "C"; "D"]%string
               (set_L1 (Some (mkPoint (c_low c1) 1)) e0)).
  set (e2 := set_H1 (Some (mkPoint (c_high c2) 2)) e1).
  set (e4 := set_A (Some (mkPoint (c_low c4) 4)) e2).
  exists e4. split.
  - unfold generate_signals. change (process_candles [1; 2; 3; 4; 5]%nat e0 = Some e4).
    apply (process_candles_step 1 _ e0 e1).
    { apply (process_candle_new_L1 1 e0 c1 c0 (mkPoint (c_low c0) 0)); engine_fact. }
    apply (process_candles_step 2 _ e1 e2).
    { apply (process_candle_first_H1 2 e1 c2 c1 (mkPoint (c_low c1) 1)); engine_fact. }
    apply (process_candles_step 3 _ e2 e2).
    { apply (process_candle_quiet 3 e2 c3 c2); engine_fact. }
    apply (process_candles_step 4 _ e2 e4).
    { apply (process_candle_sets_A 4 e2 c4 c3 (mkPoint (c_low c1) 1) (mkPoint (c_high c2) 2));
        engine_fact. }
    apply (process_candles_step 5 _ e4 e4).
    { apply (process_candle_quiet 5 e4 c5 c4); engine_fact. }
    reflexivity.
  - rewrite <- H1, <- H2, <- H4. cbv -[c_low c_high]. split_and!; reflexivity.
Qed.
(** ** The aggregator over a stream of ticks *)

Lemma lex_gtb_trans (a b c : list Z) :
  lex_gtb a b = true -> lex_gtb b c = true -> lex_gtb a c = true.
Proof.
  revert b c. induction a as [|x a IH]; intros [|y b] [|z c]; simpl; try discriminate.
  destruct (Z.ltb_spec y x), (Z.ltb_spec x y), (Z.ltb_spec z y), (Z.ltb_spec y z),
    (Z.ltb_spec z x), (Z.ltb_spec x z); try discriminate; try lia; eauto.
Qed.

Lemma dt_gtb_trans (t1 t2 t3 : DateTime) :
  dt_gtb t1 t2 = true -> dt_gtb t2 t3 = true -> dt_gtb t1 t3 = true.
Proof. apply lex_gtb_trans. Qed.

(** What one tick does: nothing, a new candle opened after the one in
    progress (which is sealed), or a merge into the candle in progress. *)
Lemma update_from_tick_cases (self : LiveOHLCVData) (tick : Tick) :
  update_from_tick self tick = self \/
  (exists (start : DateTime) (price : Q),
     tick_ltp tick = Some price /\
     update_from_tick self tick =
       mkLive (timeframe_minutes self)
              (Some (mkCandle start price price price price 0)) (all_candles self) /\
     (forall cur, current_candle self = Some cur -> dt_gtb start (c_time cur) = true)) \/
  (exists (cur : Candle) (price : Q),
     current_candle self = Some cur /\ tick_ltp tick = Some price /\
     update_from_tick self tick =
       mkLive (timeframe_minutes self)
              (Some (mkCandle (c_time cur) (c_open cur) (py_max (c_high cur) price)
                              (py_min (c_low cur) price) price (c_volume cur)))
              (completed_candles self)).
Proof.
  unfold update_from_tick, all_candles.
  destruct (tick_timestamp tick) as [tick_time|]; [|now left].
  destruct (tick_ltp tick) as [price|]; [|now left].
  destruct (candle_start_of (timeframe_minutes self) tick_time) as [start|]; [|now left].
  destruct (current_candle self) as [cur|] eqn:Hcur.
  - destruct (dt_gtb start (c_time cur)) eqn:Hgt.
    + right; left. exists start, price. split_and!; [reflexivity..|].
      intros ? [= <-]. exact Hgt.
    + right; right. exists cur, price. split_and!; reflexivity.
  - right; left. exists start, price. split_and!; [reflexivity..|]. intros ? [=].
Qed.

Lemma merged_candle_ok (cur : Candle) (price : Q) :
  candle_ok cur ->
  candle_ok (mkCandle (c_time cur) (c_open cur) (py_max (c_high cur) price)
                      (py_min (c_low cur) price) price (c_volume cur)).
Proof.
  unfold candle_ok. cbn [c_low c_open c_high c_close].
  rewrite py_max_Qmax, py_min_Qmin. intros (H1 & H2 & H3 & H4).
  pose proof (Q.le_max_l (c_high cur) price). pose proof (Q.le_max_r (c_high cur) price).
  pose proof (Q.le_min_l (c_low cur) price). pose proof (Q.le_min_r (c_low cur) price).
  split_and!; lra.
Qed.

Lemma update_from_tick_candle_ok (self : LiveOHLCVData) (tick : Tick) :
  Forall candle_ok (all_candles self) ->
  Forall candle_ok (all_candles (update_from_tick self tick)).
Proof.
  intros Hok.
  destruct (update_from_tick_cases self tick)
    as [->|[(start & price & _ & -> & _)|(cur & price & Hcur & _ & ->)]]; [exact Hok|..].
  - unfold all_candles at 1. cbn [current_candle completed_candles].
    apply Forall_app. split; [exact Hok|]. apply Forall_singleton.
    unfold candle_ok. cbn. split_and!; lra.
  - revert Hok. unfold all_candles. rewrite Hcur. cbn [current_candle completed_candles].
    rewrite !Forall_app, !Forall_singleton. intros [Hdone Hc].
    split; [exact Hdone|]. now apply merged_candle_ok.
Qed.

(** Every candle the aggregator holds stays well-formed under any stream
    of ticks: a tick opens a candle with open = high = low = close, or
    widens the range of the one in progress to take in its price. *)
Theorem ticks_keep_candles_well_formed (self : LiveOHLCVData) (ticks : list Tick) :
  Forall candle_ok (all_candles self) ->
  Forall candle_ok (all_candles (foldl update_from_tick self ticks)).
Proof.
  revert self. induction ticks as [|tick ticks IH]; intros self Hok; [exact Hok|].
  cbn [foldl]. apply IH. now apply update_from_tick_candle_ok.
Qed.

Lemma times_increasing_snoc (candles : list Candle) (c : Candle) :
  times_increasing candles ->
  (forall x, x ∈ candles -> dt_gtb (c_time c) (c_time x) = true) ->
  times_increasing (candles ++ [c]).
Proof.
  intros Hinc Hlast i j ci cj Hij Hi Hj.
  destruct (decide (j < length candles)%nat) as [Hlt|Hge].
  - rewrite lookup_app_l in Hi by lia. rewrite lookup_app_l in Hj by lia. eauto.
  - rewrite lookup_app_r in Hj by lia.
    destruct (j - length candles)%nat as [|k] eqn:Hk; [|destruct k; discriminate].
    injection Hj as <-.
    rewrite lookup_app_l in Hi by lia. apply Hlast. eapply list_elem_of_lookup_2, Hi.
Qed.

Lemma times_increasing_last (candles : list Candle) (cur x : Candle) :
  times_increasing (candles ++ [cur]) -> x ∈ candles ->
  dt_gtb (c_time cur) (c_time x) = true.
Proof.
  intros Hinc [i Hi]%list_elem_of_lookup_1.
  pose proof (lookup_lt_Some _ _ _ Hi) as Hlt.
  apply (Hinc i (length candles) x cur); [lia| |].
  - now rewrite lookup_app_l by lia.
  - rewrite lookup_app_r by lia. now rewrite Nat.sub_diag.
Qed.

Lemma times_increasing_same_times (candles : list Candle) (cur cur' : Candle) :
  c_time cur' = c_time cur ->
  times_increasing (candles ++ [cur]) -> times_increasing (candles ++ [cur']).
Proof.
  intros Htime Hinc. apply times_increasing_snoc.
  - intros i j ci cj Hij Hi Hj. pose proof (lookup_lt_Some _ _ _ Hj).
    apply (Hinc i j ci cj Hij); rewrite lookup_app_l by lia; assumption.
  - intros x Hx. rewrite Htime. eapply times_increasing_last; eassumption.
Qed.

(** The aggregator is ordered: candle times strictly increase, and there
    are no completed candles without one in progress (as in a new
    aggregator fed by ticks only). *)
Lemma update_from_tick_ordered (self : LiveOHLCVData) (tick : Tick) :
  times_increasing (all_candles self) ->
  (current_candle self = None -> completed_candles self = []) ->
  times_increasing (all_candles (update_from_tick self tick)) /\
  (current_candle (update_from_tick self tick) = None ->
   completed_candles (update_from_tick self tick) = []).
Proof.
  intros Hinc Hnone.
  destruct (update_from_tick_cases self tick)
    as [->|[(start & price & _ & -> & Hlater)|(cur & price & Hcur & _ & ->)]];
    [now split|..]; (split; [|intros [=]]).
  - unfold all_candles at 1. cbn [current_candle completed_candles].
    apply times_increasing_snoc; [exact Hinc|].
    intros x. unfold all_candles in *. destruct (current_candle self) as [cur|].
    + intros [Hx| ->%list_elem_of_singleton]%elem_of_app; [|now apply Hlater].
      eapply dt_gtb_trans; [now apply Hlater|].
      eapply times_increasing_last; eassumption.
    + rewrite Hnone by reflexivity. intros Hx. inversion Hx.
  - revert Hinc. unfold all_candles. rewrite Hcur. cbn [current_candle completed_candles].
    now apply times_increasing_same_times.
Qed.

(** Under any stream of ticks the candles of an ordered aggregator keep
    strictly increasing times: no two candles share a timestamp and none
    is out of order, although late ticks are accepted. *)
Theorem ticks_keep_times_increasing (self : LiveOHLCVData) (ticks : list Tick) :
  times_increasing (all_candles self) ->
  (current_candle self = None -> completed_candles self = []) ->
  times_increasing (all_candles (foldl update_from_tick self ticks)).
Proof.
  revert self. induction ticks as [|tick ticks IH]; intros self Hinc Hnone; [exact Hinc|].
  cbn [foldl]. destruct (update_from_tick_ordered self tick Hinc Hnone). now apply IH.
Qed.

Lemma update_from_tick_appends (self : LiveOHLCVData) (tick : Tick) :
  let self' := update_from_tick self tick in
  timeframe_minutes self' = timeframe_minutes self /\
  completed_candles self `prefix_of` completed_candles self' /\
  (length (completed_candles self') <= S (length (completed_candles self)))%nat /\
  (is_Some (current_candle self) -> is_Some (current_candle self')).
Proof.
  cbv zeta.
  destruct (update_from_tick_cases self tick)
    as [->|[(start & price & _ & -> & _)|(cur & price & Hcur & _ & ->)]];
    cbn [timeframe_minutes completed_candles current_candle].
  - split_and!; [reflexivity|reflexivity|lia|tauto].
  - unfold all_candles. destruct (current_candle self).
    + split_and!; [reflexivity|now apply prefix_app_r| |eauto].
      rewrite length_app. cbn. lia.
    + split_and!; [reflexivity|reflexivity|lia|eauto].
  - split_and!; [reflexivity|reflexivity|lia|eauto].
Qed.

(** Sealed candles are never touched again: under any stream of ticks the
    completed sequence only grows at its end, by at most one candle per
    tick; the timeframe never changes and a candle in progress never
    disappears. *)
Theorem ticks_only_append (self : LiveOHLCVData) (ticks : list Tick) :
  let self' := foldl update_from_tick self ticks in
  timeframe_minutes self' = timeframe_minutes self /\
  completed_candles self `prefix_of` completed_candles self' /\
  (length (completed_candles self') <= length (completed_candles self) + length ticks)%nat /\
  (is_Some (current_candle self) -> is_Some (current_candle self')).
Proof.
  cbv zeta. revert self. induction ticks as [|tick ticks IH]; intros self.
  - cbn. split_and!; [reflexivity|reflexivity|lia|tauto].
  - cbn [foldl length].
    destruct (IH (update_from_tick self tick)) as (Htf & Hpre & Hlen & Hcur).
    destruct (update_from_tick_appends self tick) as (Htf1 & Hpre1 & Hlen1 & Hcur1).
    split_and!; [congruence|by etrans|lia|tauto].
Qed.
(** ** Buckets *)

(** The bucket of a tick: it starts on a minute that is a multiple of the
    timeframe, not after the tick and less than a timeframe before the
    tick's minute, with seconds and microseconds cleared; the start of a
    bucket is its own bucket start. *)
Theorem candle_start_of_bucket (tf : Z) (tick_time : DateTime) :
  (0 < tf)%Z -> (0 <= minute tick_time <= 59)%Z ->
  (0 <= second tick_time)%Z -> (0 <= microsecond tick_time)%Z ->
  exists start : DateTime,
    candle_start_of tf tick_time = Some start /\
    candle_start_of tf start = Some start /\
    dt_gtb start tick_time = false /\
    (tf | minute start)%Z /\
    (minute start <= minute tick_time < minute start + tf)%Z /\
    second start = 0%Z /\ microsecond start = 0%Z /\
    year start = year tick_time /\ month start = month tick_time /\
    day start = day tick_time /\ hour start = hour tick_time.
Proof.
  intros Htf Hmin Hsec Hmicro.
  destruct (candle_start_of_positive tf tick_time Htf Hmin) as (m & Hstart & Hm & Hdiv).
  eexists. split; [exact Hstart|].
  assert ((m / tf * tf)%Z = m) as Hidem.
  { destruct Hdiv as [k ->]. now rewrite Z.div_mul by lia. }
  assert (0 <= m)%Z as Hm0.
  { destruct Hdiv as [k ->]. destruct (Z.le_gt_cases 0 k); [nia|].
    assert ((k + 1) * tf <= 0)%Z by (apply Z.mul_nonpos_nonneg; lia). lia. }
  split_and!; cbn [minute second microsecond year month day hour];
    try reflexivity; try assumption; try lia.
  - unfold candle_start_of. cbn [minute year month day hour].
    destruct (Z.eqb_spec tf 0); [lia|]. rewrite Hidem.
    destruct (Z.leb_spec 0 m), (Z.leb_spec m 59); try lia. reflexivity.
  - unfold dt_gtb, dt_fields. cbn [year month day hour minute second microsecond lex_gtb].
    rewrite !Z.ltb_irrefl.
    destruct (Z.ltb_spec (minute tick_time) m); [lia|].
    destruct (Z.ltb_spec m (minute tick_time)); [reflexivity|].
    destruct (Z.ltb_spec (second tick_time) 0); [lia|].
    destruct (Z.ltb_spec 0 (second tick_time)); [reflexivity|].
    destruct (Z.ltb_spec (microsecond tick_time) 0); [lia|].
    destruct (Z.ltb_spec 0 (microsecond tick_time)); reflexivity.
Qed.

(** Nested timeframes agree: when one timeframe divides another (1, 5 and
    15 minutes in the driver), the coarse bucket of a tick is the coarse
    bucket of the start of its fine bucket, so a coarse candle is made of
    whole fine candles. *)
Theorem candle_start_of_nested (fine coarse : Z) (tick_time fine_start : DateTime) :
  (0 < fine)%Z -> (0 < coarse)%Z -> (fine | coarse)%Z ->
  candle_start_of fine tick_time = Some fine_start ->
  candle_start_of coarse fine_start = candle_start_of coarse tick_time.
Proof.
  intros Hfine Hcoarse [k ->]. unfold candle_start_of.
  destruct (Z.eqb_spec fine 0); [lia|].
  destruct (Z.eqb_spec (k * fine) 0); [lia|].
  destruct (_ && _)%bool; [|discriminate]. intros [= <-].
  cbn [minute year month day hour].
  assert ((minute tick_time / fine * fine / (k * fine))%Z
          = (minute tick_time / (k * fine))%Z) as ->; [|reflexivity].
  assert (0 < k)%Z by nia.
  rewrite (Z.mul_comm k fine), <- !Z.div_div by lia.
  now rewrite Z.div_mul by lia.
Qed.

(** ** Reading the candles back *)

Lemma py_slice_from_suffix {A : Type} (start : Z) (l : list A) :
  py_slice_from start l `suffix_of` l.
Proof. apply suffix_drop. Qed.

Lemma py_slice_from_last {A : Type} (count : Z) (l : list A) :
  (0 < count)%Z ->
  py_slice_from (- count) l = drop (length l - Z.to_nat count) l.
Proof.
  intros Hc. unfold py_slice_from. destruct (Z.ltb_spec (- count) 0); [|lia].
  f_equal. lia.
Qed.

Lemma get_latest_candles_positive (self : LiveOHLCVData) (count : Z) :
  (0 < count)%Z ->
  let held := all_candles self in
  let latest := get_latest_candles self count in
  latest = drop (length held - Z.to_nat count) held /\
  length latest = Nat.min (Z.to_nat count) (length held) /\
  last latest = last held /\
  (forall cur, current_candle self = Some cur -> last latest = Some cur).
Proof.
  intros Hc. cbv zeta. unfold get_latest_candles.
  rewrite py_slice_from_last by exact Hc.
  assert (last (drop (length (all_candles self) - Z.to_nat count) (all_candles self))
          = last (all_candles self)) as Hlast.
  { rewrite !last_lookup, lookup_drop, length_drop. f_equal.
    destruct (all_candles self); cbn; lia. }
  split_and!; [reflexivity| |exact Hlast|].
  - rewrite length_drop. lia.
  - intros cur Hcur. rewrite Hlast. unfold all_candles. rewrite Hcur. apply last_snoc.
Qed.

(** [get_latest_candles]: the result is always a suffix of the candles
    held, the in-progress one last.  A positive [count] gives the last
    [count] candles (all of them when fewer are held); a [count] of zero
    gives all candles, not none; a negative [count] drops that many from
    the front. *)
Theorem get_latest_candles_spec (self : LiveOHLCVData) (count : Z) :
  let held := all_candles self in
  let latest := get_latest_candles self count in
  latest `suffix_of` held /\
  ((0 < count)%Z ->
     latest = drop (length held - Z.to_nat count) held /\
     length latest = Nat.min (Z.to_nat count) (length held) /\
     last latest = last held /\
     (forall cur, current_candle self = Some cur -> last latest = Some cur)) /\
  (count = 0%Z -> latest = held) /\
  ((count < 0)%Z -> latest = drop (Z.to_nat (- count)) held).
Proof.
  cbv zeta. split_and!.
  - apply py_slice_from_suffix.
  - intros Hc. exact (get_latest_candles_positive self count Hc).
  - unfold get_latest_candles. intros ->. unfold py_slice_from. destruct (Z.ltb_spec (- 0) 0); [lia|].
    rewrite Z.min_l by lia. reflexivity.
  - unfold get_latest_candles. intros Hc.
    unfold py_slice_from. destruct (Z.ltb_spec (- count) 0); [lia|].
    destruct (Z.min_spec (- count) (Z.of_nat (length (all_candles self))))
      as [[_ ->]|[Hle ->]]; [reflexivity|].
    rewrite Nat2Z.id, drop_all. symmetry. apply drop_ge. lia.
Qed.

(** After any tick that carries a time and a price and falls in a bucket,
    the frame handed to the strategy is not empty, has at most 100 rows,
    and its last row is the candle in progress, closing at the tick's
    price and containing it in its range. *)
Theorem get_dataframe_after_tick (self : LiveOHLCVData) (tick_time start : DateTime)
    (price : Q) (vol : option Q) :
  candle_start_of (timeframe_minutes self) tick_time = Some start ->
  let self' := update_from_tick self (mkTick (Some tick_time) (Some price) vol) in
  exists row : Candle,
    last (get_dataframe self') = Some row /\
    current_candle self' = Some row /\
    c_close row = price /\ c_low row <= price /\ price <= c_high row /\
    (0 < length (get_dataframe self') <= 100)%nat.
Proof.
  intros Hstart self'.
  assert (exists row, current_candle self' = Some row /\ c_close row = price /\
                      c_low row <= price /\ price <= c_high row) as (row & Hrow & Hclose & Hlo & Hhi).
  { subst self'. unfold update_from_tick. cbn [tick_timestamp tick_ltp]. rewrite Hstart.
    destruct (current_candle self) as [cur|].
    - destruct (dt_gtb start (c_time cur)).
      + eexists. cbn [current_candle c_close c_low c_high].
        split_and!; [reflexivity..|apply Qle_refl|apply Qle_refl].
      + eexists. cbn [current_candle c_close c_low c_high].
        rewrite py_max_Qmax, py_min_Qmin.
        split_and!; [reflexivity..|apply Q.le_min_r|apply Q.le_max_r].
    - eexists. cbn [current_candle c_close c_low c_high].
      split_and!; [reflexivity..|apply Qle_refl|apply Qle_refl]. }
  exists row.
  destruct (get_latest_candles_positive self' 100) as (_ & Hlen & _ & Hlast); [lia|].
  fold (get_dataframe self') in Hlen, Hlast.
  split_and!; try assumption; [now apply Hlast| |rewrite Hlen; lia].
  specialize (Hlast row Hrow). destruct (get_dataframe self'); [discriminate|cbn; lia].
Qed.

(** ** Loading the historical frame *)

Section HistoricalProperties.

Variable sort_values : list HistoricalRow -> list HistoricalRow.
Hypothesis sort_values_perm : forall rows, sort_values rows ≡ₚ rows.
Hypothesis sort_values_sorted : forall rows, rows_in_time_order (sort_values rows).

(** [initialize_from_historical]: an empty frame changes nothing and gives
    [False]; otherwise every row becomes one completed candle carrying the
    row's own timestamp and prices (a missing volume is 0), appended in
    timestamp order after the candles already held, which are kept (a second
    call appends again).  The candle in progress and the timeframe are left
    alone, and the timeframe plays no part: rows are not resampled into
    buckets. *)
Theorem initialize_from_historical_spec (self : LiveOHLCVData) (rows : list HistoricalRow) :
  let self' := fst (initialize_from_historical sort_values self rows) in
  (rows = [] -> initialize_from_historical sort_values self rows = (self, false)) /\
  (rows <> [] -> snd (initialize_from_historical sort_values self rows) = true) /\
  timeframe_minutes self' = timeframe_minutes self /\
  current_candle self' = current_candle self /\
  (exists loaded : list Candle,
     completed_candles self' = completed_candles self ++ loaded /\
     loaded ≡ₚ map candle_of_row rows /\
     (forall (i j : nat) (ci cj : Candle),
        (i < j)%nat -> loaded !! i = Some ci -> loaded !! j = Some cj ->
        dt_gtb (c_time ci) (c_time cj) = false)) /\
  (forall tf : Z,
     completed_candles
       (fst (initialize_from_historical sort_values
               (mkLive tf (current_candle self) (completed_candles self)) rows))
     = completed_candles self').
Proof.
  cbv zeta. destruct rows as [|row rows].
  - cbn. split_and!; try reflexivity; [congruence|].
    exists []. rewrite app_nil_r. split_and!; [reflexivity..|]. intros ? ? ? ? _ [=].
  - cbn [initialize_from_historical fst snd timeframe_minutes current_candle
           completed_candles].
    split_and!; try reflexivity; [discriminate|].
    exists (map candle_of_row (sort_values (row :: rows))). split_and!; [reflexivity| |].
    + now rewrite sort_values_perm.
    + intros i j ci cj Hij Hi Hj. rewrite list_lookup_fmap in Hi, Hj.
      destruct (sort_values (row :: rows) !! i) as [ri|] eqn:Hri; [|discriminate].
      destruct (sort_values (row :: rows) !! j) as [rj|] eqn:Hrj; [|discriminate].
      injection Hi as <-. injection Hj as <-. cbn [candle_of_row c_time].
      eapply sort_values_sorted; eassumption.
Qed.

End HistoricalProperties.
(** ** Swing points *)

Lemma Qgtb_asym (a b : Q) : Qgtb a b && Qgtb b a = false.
Proof.
  destruct (Qgtb a b) eqn:H1, (Qgtb b a) eqn:H2; try reflexivity.
  apply Qgtb_true in H1, H2. lra.
Qed.

(** Two neighbouring candles are never both swing highs, nor both swing
    lows: each would have to be strictly beyond the other. *)
Theorem adjacent_candles_not_both_swings (candles : list Candle) (i : nat) :
  is_swing_high candles i && is_swing_high candles (S i) = false /\
  is_swing_low candles i && is_swing_low candles (S i) = false.
Proof.
  unfold is_swing_high, is_swing_low, Qltb.
  destruct i as [|before]; [split; reflexivity|].
  destruct (candles !! before) as [prev|]; [|split; reflexivity].
  destruct (candles !! S before) as [current|]; [|split; reflexivity].
  destruct (candles !! S (S before)) as [next|]; [|split; reflexivity].
  destruct (candles !! S (S (S before))) as [after|]; [|split; apply andb_false_r].
  split.
  - pose proof (Qgtb_asym (c_high current) (c_high next)) as H.
    destruct (Qgtb (c_high current) (c_high prev)), (Qgtb (c_high current) (c_high next)),
      (Qgtb (c_high next) (c_high current)); try reflexivity; discriminate.
  - pose proof (Qgtb_asym (c_low next) (c_low current)) as H.
    destruct (Qgtb (c_low prev) (c_low current)), (Qgtb (c_low next) (c_low current)),
      (Qgtb (c_low current) (c_low next)); try reflexivity; discriminate.
Qed.

Lemma swing_needs_both_neighbours (candles : list Candle) (i : nat) :
  (i = 0 \/ length candles <= S i)%nat ->
  is_swing_high candles i = false /\ is_swing_low candles i = false.
Proof.
  unfold is_swing_high, is_swing_low.
  intros [->|Hlast]; [split; reflexivity|].
  destruct i as [|before]; [split; reflexivity|].
  rewrite (proj2 (lookup_ge_None candles (S (S before)))) by lia.
  destruct (candles !! before), (candles !! S before); split; reflexivity.
Qed.

(** A swing needs both neighbours, and nothing else: the first and the
    last candle are never swings, and whether a candle with a right
    neighbour is a swing is not changed by the candles that arrive later. *)
Theorem swing_depends_on_neighbours_only (candles more : list Candle) (i : nat) :
  ((i = 0 \/ length candles <= S i)%nat ->
     is_swing_high candles i = false /\ is_swing_low candles i = false) /\
  ((S i < length candles)%nat ->
     is_swing_high (candles ++ more) i = is_swing_high candles i /\
     is_swing_low (candles ++ more) i = is_swing_low candles i).
Proof.
  split; [apply swing_needs_both_neighbours|].
  unfold is_swing_high, is_swing_low.
  intros Hi. destruct i as [|before]; [split; reflexivity|].
  rewrite !lookup_app_l by lia. split; reflexivity.
Qed.

Lemma swing_step_fold (data : list Candle) (indices : list nat) :
  forall swings : list (nat * Q) * list (nat * Q),
  let result := foldl (swing_step data) swings indices in
  (fst result).*1 = (fst swings).*1 ++ filter (fun i => is_swing_high data i = true) indices /\
  (snd result).*1 = (snd swings).*1 ++ filter (fun i => is_swing_low data i = true) indices /\
  (forall i h, (i, h) ∈ fst result ->
     (i, h) ∈ fst swings \/ c_high <$> data !! i = Some h) /\
  (forall i l, (i, l) ∈ snd result ->
     (i, l) ∈ snd swings \/ c_low <$> data !! i = Some l).
Proof.
  induction indices as [|i indices IH]; intros swings; cbn zeta.
  - cbn [foldl]. rewrite !filter_nil, !app_nil_r. split_and!; auto.
  - cbn [foldl]. destruct (IH (swing_step data swings i)) as (Hh & Hl & Hhv & Hlv).
    rewrite Hh, Hl. clear Hh Hl. rewrite !filter_cons. unfold swing_step in *.
    destruct (data !! i) as [candle|] eqn:Hc.
    + cbn [fst snd] in *. split_and!.
      * destruct (is_swing_high data i) eqn:Hs.
        -- rewrite decide_True by reflexivity. rewrite fmap_app, <- app_assoc. reflexivity.
        -- rewrite decide_False by discriminate. reflexivity.
      * destruct (is_swing_low data i) eqn:Hs.
        -- rewrite decide_True by reflexivity. rewrite fmap_app, <- app_assoc. reflexivity.
        -- rewrite decide_False by discriminate. reflexivity.
      * intros j h Hj. destruct (Hhv j h Hj) as [Hin|?]; [|now right].
        destruct (is_swing_high data i); [|now left].
        apply elem_of_app in Hin as [?|[= -> ->]%list_elem_of_singleton]; [now left|right].
        now rewrite Hc.
      * intros j l Hj. destruct (Hlv j l Hj) as [Hin|?]; [|now right].
        destruct (is_swing_low data i); [|now left].
        apply elem_of_app in Hin as [?|[= -> ->]%list_elem_of_singleton]; [now left|right].
        now rewrite Hc.
    + assert (is_swing_high data i = false /\ is_swing_low data i = false) as [Hsh Hsl].
      { unfold is_swing_high, is_swing_low. destruct i as [|before]; [now split|].
        rewrite Hc. destruct (data !! before); now split. }
      rewrite Hsh, Hsl. rewrite !decide_False by discriminate.
      split_and!; [reflexivity|reflexivity|exact Hhv|exact Hlv].
Qed.

(** [detect_swings] lists exactly the swing highs and the swing lows of the
    whole frame, each once, in increasing order of index and with the high
    (low) of its candle; the loop bounds lose nothing, since the first and
    the last candle are never swings. *)
Theorem detect_swings_spec (data : list Candle) :
  let swing_highs := fst (detect_swings data) in
  let swing_lows := snd (detect_swings data) in
  swing_highs.*1 = filter (fun i => is_swing_high data i = true) (seq 1 (length data - 2)) /\
  swing_lows.*1 = filter (fun i => is_swing_low data i = true) (seq 1 (length data - 2)) /\
  (forall i : nat, i ∈ swing_highs.*1 <-> is_swing_high data i = true) /\
  (forall i : nat, i ∈ swing_lows.*1 <-> is_swing_low data i = true) /\
  (forall (i : nat) (h : Q), (i, h) ∈ swing_highs -> c_high <$> data !! i = Some h) /\
  (forall (i : nat) (l : Q), (i, l) ∈ swing_lows -> c_low <$> data !! i = Some l).
Proof.
  cbv zeta. unfold detect_swings.
  destruct (swing_step_fold data (seq 1 (length data - 2)) ([], [])) as (Hh & Hl & Hhv & Hlv).
  cbn [fst snd fmap list_fmap app] in Hh, Hl.
  assert (forall i, is_swing_high data i = true \/ is_swing_low data i = true ->
                    i ∈ seq 1 (length data - 2)) as Hrange.
  { intros i Hi. apply elem_of_seq.
    destruct (decide (i = 0 \/ length data <= S i)%nat) as [Hout|Hin]; [|lia].
    destruct (swing_needs_both_neighbours data i Hout) as [H1 H2]. rewrite H1, H2 in Hi. destruct Hi; discriminate. }
  split_and!; [exact Hh|exact Hl| | | |].
  - intros i. rewrite Hh, list_elem_of_filter. split; [tauto|]. intros Hi. split; auto.
  - intros i. rewrite Hl, list_elem_of_filter. split; [tauto|]. intros Hi. split; auto.
  - intros i h Hi. destruct (Hhv i h Hi) as [Hin|?]; [inversion Hin|assumption].
  - intros i l Hi. destruct (Hlv i l Hi) as [Hin|?]; [inversion Hin|assumption].
Qed.
(** ** The shape of the structure during the batch pass *)

Ltac destruct_engine e :=
  destruct e as [dt br sg h1p l1p ap bp cp dp ps st cache lo oc sc].

Lemma ledger_same (e e' : Engine) (done : nat) :
  data e' = data e -> signals e' = signals e -> structures e' = structures e ->
  ledger e done -> ledger e' done.
Proof.
  intros Hd Hs Hr [H1 H2 H3]. constructor; rewrite ?Hd, ?Hs, ?Hr; assumption.
Qed.

(** The points form in order: a point that is unset leaves the later ones
    unset. *)
Lemma shape_chain (e : Engine) (done : nat) :
  structure_shape e done ->
  (L1_pt e = None -> H1_pt e = None) /\
  (H1_pt e = None -> A_pt e = None) /\
  (A_pt e = None -> B_pt e = None) /\
  (B_pt e = None -> C_pt e = None) /\
  (C_pt e = None -> D_pt e = None) /\
  (C_pt e = None -> pending_setup e = None).
Proof.
  intros [SL SH SA SB SC SD SS]. split_and!; intros Hn.
  - destruct (H1_pt e) as [h|] eqn:Hh; [|reflexivity].
    destruct (SH h eq_refl) as (l & Hl & _). congruence.
  - destruct (A_pt e) as [a|] eqn:Ha; [|reflexivity].
    destruct (SA a eq_refl) as (h & l & Hh & _). congruence.
  - destruct (B_pt e) as [b|] eqn:Hb; [|reflexivity].
    destruct (SB b eq_refl) as (a & Ha & _). congruence.
  - destruct (C_pt e) as [c|] eqn:Hc; [|reflexivity].
    destruct (SC c eq_refl) as (b & d & Hb & _). congruence.
  - destruct (D_pt e) as [d|] eqn:Hd; [|reflexivity].
    destruct (SD d eq_refl) as [c Hc]. congruence.
  - rewrite SS, Hn. reflexivity.
Qed.

Lemma update_L1_shape (i : nat) (cur : Candle) (e e' : Engine) :
  data e !! i = Some cur -> update_L1 i cur e = Some e' -> structure_shape e i ->
  structure_shape e' i /\
  data e' = data e /\ signals e' = signals e /\ structures e' = structures e.
Proof.
  intros Hcur Hup Hshape. unfold update_L1 in Hup.
  destruct (is_swing_low (data e) i); [|injection Hup as <-; auto].
  destruct (L1_pt e) as [l1|]; [|discriminate]. cbn [mbind option_bind] in Hup.
  destruct (Qltb _ _); injection Hup as <-; [|auto].
  destruct_engine e. cbn in *. split; [|auto].
  constructor; cbn; try (intros ? ?; discriminate); [|reflexivity].
  intros l [= <-]. split; [cbn; lia|]. unfold anchored. cbn. now rewrite Hcur.
Qed.

Lemma update_H1_shape (i : nat) (cur : Candle) (e : Engine) :
  data e !! i = Some cur -> structure_shape e i ->
  structure_shape (update_H1 i cur e) i /\
  data (update_H1 i cur e) = data e /\ signals (update_H1 i cur e) = signals e /\
  structures (update_H1 i cur e) = structures e.
Proof.
  intros Hcur Hshape. unfold update_H1.
  destruct (L1_pt e) as [l1|] eqn:Hl1; [|auto].
  destruct (is_swing_high (data e) i); [|auto].
  destruct (pt_idx l1 <? i)%nat eqn:Hlt; cbn [andb]; [|auto].
  destruct (Qgtb (c_high cur) (pt_price l1)) eqn:Hgt; [|auto].
  apply Nat.ltb_lt in Hlt. apply Qgtb_true in Hgt.
  pose proof (shape_chain e i Hshape) as (_ & HA & HB & HC & HD & HP).
  destruct (H1_pt e) as [h1|] eqn:Hh1.
  - destruct (Qgtb (c_high cur) (pt_price h1)); [|auto].
    destruct Hshape as [SL SH SA SB SC SD SS].
    destruct_engine e. cbn in *. split; [|auto].
    constructor; cbn; try (intros ? ?; discriminate); [exact SL| |reflexivity].
    intros h [= <-]. exists l1. unfold anchored. cbn. rewrite Hcur.
    split_and!; [assumption|lia|lia|assumption|reflexivity].
  - specialize (HA eq_refl). specialize (HB HA). specialize (HC HB).
    specialize (HD HC). specialize (HP HC).
    destruct Hshape as [SL SH SA SB SC SD SS].
    destruct_engine e. cbn in *. subst. split; [|auto].
    constructor; cbn; try (intros ? ?; discriminate); [exact SL| |reflexivity].
    intros h [= <-]. exists l1. unfold anchored. cbn. rewrite Hcur.
    split_and!; [reflexivity|lia|lia|assumption|reflexivity].
Qed.

Lemma detect_A_shape (i : nat) (cur : Candle) (e : Engine) :
  data e !! i = Some cur -> structure_shape e i ->
  structure_shape (detect_A i cur e) i /\
  data (detect_A i cur e) = data e /\ signals (detect_A i cur e) = signals e /\
  structures (detect_A i cur e) = structures e.
Proof.
  intros Hcur Hshape. unfold detect_A.
  destruct (H1_pt e) as [h1|] eqn:Hh1; [|auto].
  destruct (L1_pt e) as [l1|] eqn:Hl1; [|auto].
  destruct (A_pt e) as [a|] eqn:Ha; [auto|].
  destruct (is_swing_low (data e) i); [|auto].
  destruct (pt_idx h1 <? i)%nat eqn:Hlt; cbn [andb]; [|auto].
  destruct (Qgtb (c_low cur) (pt_price l1)) eqn:Hgt; [|auto].
  apply Nat.ltb_lt in Hlt. apply Qgtb_true in Hgt.
  pose proof (shape_chain e i Hshape) as (_ & _ & HB & HC & HD & HP).
  specialize (HB Ha). specialize (HC HB). specialize (HD HC). specialize (HP HC).
  destruct Hshape as [SL SH SA SB SC SD SS].
  destruct_engine e. cbn in *. subst. split; [|auto].
  constructor; cbn; try (intros ? ?; discriminate); [exact SL|exact SH| |reflexivity].
  intros a [= <-]. exists h1, l1. unfold anchored. cbn. rewrite Hcur.
  split_and!; [reflexivity|reflexivity|lia|lia|assumption|reflexivity].
Qed.

Lemma detect_B_shape (i : nat) (cur : Candle) (e : Engine) :
  data e !! i = Some cur -> structure_shape e i ->
  structure_shape (detect_B i cur e) i /\
  data (detect_B i cur e) = data e /\ signals (detect_B i cur e) = signals e /\
  structures (detect_B i cur e) = structures e.
Proof.
  intros Hcur Hshape. unfold detect_B.
  destruct (A_pt e) as [a|] eqn:Ha; [|auto].
  destruct (B_pt e) as [b|] eqn:Hb; [auto|].
  destruct (is_swing_low (data e) i); [|auto].
  destruct (pt_idx a + 1 <? i)%nat eqn:Hlt; cbn [andb]; [|auto].
  destruct (Qgtb (c_low cur) (pt_price a)) eqn:Hgt; [|auto].
  apply Nat.ltb_lt in Hlt. apply Qgtb_true in Hgt.
  pose proof (shape_chain e i Hshape) as (_ & _ & _ & HC & HD & HP).
  specialize (HC Hb). specialize (HD HC). specialize (HP HC).
  destruct Hshape as [SL SH SA SB SC SD SS].
  destruct_engine e. cbn in *. subst. split; [|auto].
  constructor; cbn; try (intros ? ?; discriminate);
    [exact SL|exact SH|exact SA| |reflexivity].
  intros b [= <-]. exists a. unfold anchored. cbn. rewrite Hcur.
  split_and!; [reflexivity|lia|lia|assumption|reflexivity].
Qed.

Lemma calculate_point_D_structures (self self' : Engine) :
  calculate_point_D self = Some self' -> structures self' = structures self.
Proof.
  unfold calculate_point_D, refresh_option_greeks.
  destruct (H1_pt self), (B_pt self), (C_pt self); try (now intros [= <-]).
  destruct (data self !! _); [|discriminate]. cbn [mbind option_bind].
  destruct (scan_highs _ _ _); [|discriminate]. cbn [mbind option_bind].
  intros [= <-]. destruct_engine self. cbn. destruct br; reflexivity.
Qed.

Lemma detect_C_shape (i : nat) (cur prev : Candle) (e e' : Engine) :
  data e !! i = Some cur -> detect_C i cur prev e = Some e' -> structure_shape e i ->
  structure_shape e' i /\
  data e' = data e /\ signals e' = signals e /\ structures e' = structures e.
Proof.
  intros Hcur Hdet Hshape. unfold detect_C in Hdet.
  destruct (B_pt e) as [b|] eqn:Hb; [|injection Hdet as <-; auto].
  destruct (C_pt e) as [c|] eqn:Hc; [injection Hdet as <-; auto|].
  destruct (pt_idx b <? i)%nat eqn:Hlt; cbn [andb] in Hdet; [|injection Hdet as <-; auto].
  destruct (Qltb (c_low cur) (c_low prev)); cbn [andb] in Hdet; [|injection Hdet as <-; auto].
  destruct (Qgtb (c_low cur) (pt_price b)) eqn:Hgt; [|injection Hdet as <-; auto].
  apply Nat.ltb_lt in Hlt. apply Qgtb_true in Hgt.
  pose proof (lookup_lt_Some _ _ _ Hcur) as Hi.
  pose proof (shape_chain e i Hshape) as (_ & _ & _ & _ & HD & HP).
  specialize (HD Hc). specialize (HP Hc).
  destruct Hshape as [SL SH SA SB SC SD SS].
  destruct (SB b Hb) as (a & Ha & Hab & Hpab & Hanb).
  destruct (SA a Ha) as (h1 & l1 & Hh1 & Hl1 & Hha & Hpla & Hana).
  set (self := set_C (Some (mkPoint (c_low cur) i)) e) in *.
  destruct (calculate_point_D_spec self h1 b (mkPoint (c_low cur) i))
    as (self' & d & Hcalc & Hdata & Hsig & HL & HH & HA & HB & HC & HDd & Hpend & Hidx
        & Hand & Hmax & _).
  { subst self. now destruct_engine e. }
  { subst self. now destruct_engine e. }
  { subst self. now destruct_engine e. }
  { subst self. destruct_engine e. cbn in *. lia. }
  rewrite Hcalc in Hdet. injection Hdet as ->.
  pose proof (calculate_point_D_structures _ _ Hcalc) as Hst.
  assert (data self = data e /\ signals self = signals e /\ structures self = structures e
          /\ L1_pt self = L1_pt e /\ H1_pt self = H1_pt e /\ A_pt self = A_pt e
          /\ B_pt self = B_pt e /\ C_pt self = Some (mkPoint (c_low cur) i))
    as (Ed & Es & Er & El & Eh & Ea & Eb & Ec).
  { subst self. now destruct_engine e. }
  clearbody self.
  rewrite Ed in *. rewrite Ec in *. cbn [pt_idx pt_price] in *.
  split; [|split_and!; congruence].
  constructor.
  - rewrite Hdata, HL, El. exact SL.
  - rewrite Hdata, HH, HL, Eh, El. exact SH.
  - rewrite Hdata, HA, HH, HL, Ea, Eh, El. exact SA.
  - rewrite Hdata, HB, HA, Eb, Ea. exact SB.
  - rewrite Hdata, HC, HB, HDd, Eb. intros c [= <-]. exists b, d. cbn [pt_idx pt_price].
    split_and!; try assumption; try reflexivity; try lia.
    + unfold anchored. cbn. now rewrite Hcur.
    + intros k ck Hbk Hk Hck. cbn [pt_idx] in Hk. apply (Hmax k ck); [lia|exact Hck].
  - rewrite HC. eauto.
  - rewrite Hpend, HC, HDd. unfold setup_of, structure_of.
    rewrite HH, HL, HA, HB, HC, HDd. reflexivity.
Qed.

(** The shape carries over to the next candle when the high of the
    current one does not exceed D. *)
Lemma shape_next (i : nat) (cur : Candle) (e : Engine) :
  data e !! i = Some cur -> structure_shape e i ->
  (forall d, D_pt e = Some d -> c_high cur <= pt_price d) ->
  structure_shape e (S i).
Proof.
  intros Hcur [SL SH SA SB SC SD SS] Hquiet. constructor; try assumption.
  - intros l Hl. destruct (SL l Hl). split; [lia|assumption].
  - intros h Hh. destruct (SH h Hh) as (l & ? & ? & ? & ?). exists l.
    split_and!; try assumption; lia.
  - intros a Ha. destruct (SA a Ha) as (h & l & ? & ? & ? & ? & ?). exists h, l.
    split_and!; try assumption; lia.
  - intros b Hb. destruct (SB b Hb) as (a & ? & ? & ? & ?). exists a.
    split_and!; try assumption; lia.
  - intros c Hc. destruct (SC c Hc) as (b & d & ? & Hd & ? & ? & ? & ? & ? & Hdom).
    exists b, d. split_and!; try assumption; try lia.
    intros k ck Hbk Hk Hck. destruct (decide (k = i)) as [->|Hne].
    + rewrite Hcur in Hck. injection Hck as <-. now apply Hquiet.
    + apply (Hdom k ck); [assumption|lia|assumption].
Qed.

Lemma recorded_breakout_later (candles : list Candle) (signals : list SignalRow)
    (i : nat) (row : SignalRow) (rec : StructureRecord) :
  recorded_breakout candles signals i rec ->
  recorded_breakout candles (<[i := row]> signals) (S i) rec.
Proof.
  intros (j & l1 & h1 & a & b & c & d & cj & Hj & Hrec & Hrow & Hrest).
  exists j, l1, h1, a, b, c, d, cj.
  split; [lia|]. split; [exact Hrec|]. split; [|exact Hrest].
  rewrite list_lookup_insert_ne by lia. exact Hrow.
Qed.

Lemma detect_breakout_step (i : nat) (cur : Candle) (e e' : Engine) :
  data e !! i = Some cur -> detect_breakout i cur e = Some e' ->
  structure_shape e i -> ledger e i ->
  structure_shape e' (S i) /\ ledger e' (S i) /\ data e' = data e.
Proof.
  intros Hcur Hdet Hshape Hledger.
  pose proof (lookup_lt_Some _ _ _ Hcur) as Hi.
  assert (ledger e i -> ledger e (S i)) as Hkeep.
  { intros [L1 L2 L3]. constructor; [exact L1| |].
    - intros rec Hrec. destruct (L2 rec Hrec)
        as (j & l1 & h1 & a & b & c & d & cj & Hj & Hrest).
      exists j, l1, h1, a, b, c, d, cj. split; [lia|exact Hrest].
    - intros j row Hrow. destruct (L3 j row Hrow) as [?|[? ?]]; [now left|right].
      split; [lia|assumption]. }
  destruct (pending_setup e) as [setup|] eqn:Hp.
  2:{ unfold detect_breakout in Hdet. rewrite Hp in Hdet. injection Hdet as <-.
      split_and!; [|auto|reflexivity].
      apply (shape_next i cur); [assumption..|].
      intros d Hd. pose proof (shape_setup _ _ Hshape) as SS. rewrite Hp, Hd in SS.
      destruct (shape_D _ _ Hshape d Hd) as [c Hc]. rewrite Hc in SS. discriminate. }
  pose proof (shape_setup _ _ Hshape) as SS. rewrite Hp in SS.
  destruct (C_pt e) as [c|] eqn:Hc; [|discriminate].
  destruct (D_pt e) as [d|] eqn:Hd; [|discriminate].
  injection SS as ->.
  destruct (Qgtb (c_high cur) (pt_price d)) eqn:Hgt.
  2:{ unfold detect_breakout in Hdet. rewrite Hp, Hd in Hdet. cbn [mbind option_bind] in Hdet.
      rewrite Hgt in Hdet. injection Hdet as <-. apply Qgtb_false in Hgt.
      split_and!; [|auto|reflexivity].
      apply (shape_next i cur); [assumption..|]. intros d' Hd'. congruence. }
  apply Qgtb_true in Hgt.
  destruct (lookup_lt_is_Some_2 (signals e) i) as [row Hrow].
  { rewrite (ledger_length _ _ Hledger). exact Hi. }
  rewrite (detect_breakout_fires i cur e _ d row Hp Hd Hrow Hgt) in Hdet.
  injection Hdet as <-.
  destruct (shape_C _ _ Hshape c Hc) as (b & d' & Hb & Hd' & Hbc & Hpbc & Hanc & Hbd & Hand & Hdom).
  assert (d' = d) as -> by congruence.
  destruct (shape_B _ _ Hshape b Hb) as (a & Ha & Hab & Hpab & Hanb).
  destruct (shape_A _ _ Hshape a Ha) as (h1 & l1 & Hh1 & Hl1 & Hha & Hpla & Hana).
  destruct (shape_H1 _ _ Hshape h1 Hh1) as (l1' & Hl1' & Hlh & Hplh & Hanh).
  assert (l1' = l1) as -> by congruence.
  destruct (shape_L1 _ _ Hshape l1 Hl1) as (_ & Hanl).
  assert (pt_idx c < i)%nat as Hci.
  { destruct (decide (pt_idx c = i)) as [Heq|Hne]; [|lia].
    assert (c_high cur <= pt_price d); [|lra].
    apply (Hdom i cur); [lia|left; lia|exact Hcur]. }
  destruct Hledger as [L1 L2 L3].
  split_and!; [| |reflexivity].
  - constructor; cbn; try (intros ? ?; discriminate); [|reflexivity].
    intros l [= <-]. split; [cbn; lia|]. unfold anchored. cbn. now rewrite Hcur.
  - constructor; cbn [data signals structures].
    + rewrite length_insert. exact L1.
    + intros rec [Hrec| ->%list_elem_of_singleton]%elem_of_app.
      * apply recorded_breakout_later. now apply L2.
      * exists i, l1, h1, a, b, c, d, cur.
        split_and!; try assumption; try lia.
        -- unfold setup_of, structure_of. cbn. now rewrite Hh1, Hl1, Ha, Hb, Hc, Hd.
        -- cbn. apply list_lookup_insert_eq. rewrite L1. exact Hi.
        -- intros k ck Hk Hck. apply (Hdom k ck); [lia|right; lia|exact Hck].
    + intros j row' Hrow'. destruct (decide (i = j)) as [<-|Hne].
      * rewrite list_lookup_insert_eq in Hrow' by (rewrite L1; exact Hi).
        injection Hrow' as <-. right. split; [lia|].
        eexists. split; [apply elem_of_app; right; apply list_elem_of_singleton; reflexivity|].
        split; reflexivity.
      * rewrite list_lookup_insert_ne in Hrow' by exact Hne.
        destruct (L3 j row' Hrow') as [?|(Hj & rec & Hrec & Hrest)]; [now left|right].
        split; [lia|]. exists rec. split; [apply elem_of_app; now left|exact Hrest].
Qed.

Lemma process_candle_step (i : nat) (e e' : Engine) :
  process_candle i e = Some e' -> structure_shape e i -> ledger e i ->
  structure_shape e' (S i) /\ ledger e' (S i) /\ data e' = data e.
Proof.
  intros Hstep Hshape Hledger.
  destruct (data e !! i) as [cur|] eqn:Hcur.
  2:{ unfold process_candle in Hstep. rewrite Hcur in Hstep. discriminate. }
  destruct (data e !! (i - 1)%nat) as [prev|] eqn:Hprev.
  2:{ unfold process_candle in Hstep. rewrite Hcur, Hprev in Hstep. discriminate. }
  rewrite (process_candle_unfold i e cur prev Hcur Hprev) in Hstep.
  destruct (update_L1 i cur e) as [e1|] eqn:H1; [|discriminate].
  destruct (update_L1_shape i cur e e1 Hcur H1 Hshape) as (S1 & D1 & G1 & R1).
  assert (data e1 !! i = Some cur) as Hcur1 by now rewrite D1.
  destruct (update_H1_shape i cur e1 Hcur1 S1) as (S2 & D2 & G2 & R2).
  set (e2 := update_H1 i cur e1) in *.
  assert (data e2 !! i = Some cur) as Hcur2 by now rewrite D2.
  destruct (detect_A_shape i cur e2 Hcur2 S2) as (S3 & D3 & G3 & R3).
  set (e3 := detect_A i cur e2) in *.
  assert (data e3 !! i = Some cur) as Hcur3 by now rewrite D3.
  destruct (detect_B_shape i cur e3 Hcur3 S3) as (S4 & D4 & G4 & R4).
  set (e4 := detect_B i cur e3) in *.
  assert (data e4 !! i = Some cur) as Hcur4 by now rewrite D4.
  destruct (detect_C i cur prev e4) as [e5|] eqn:H5; [|discriminate].
  destruct (detect_C_shape i cur prev e4 e5 Hcur4 H5 S4) as (S5 & D5 & G5 & R5).
  assert (data e5 !! i = Some cur) as Hcur5 by now rewrite D5.
  assert (ledger e5 i) as L5.
  { apply (ledger_same e); [congruence..|exact Hledger]. }
  destruct (detect_breakout_step i cur e5 e' Hcur5 Hstep S5 L5) as (S6 & L6 & D6).
  split_and!; [exact S6|exact L6|congruence].
Qed.

Lemma process_candles_steps (len first : nat) (e e' : Engine) :
  process_candles (seq first len) e = Some e' ->
  structure_shape e first -> ledger e first ->
  structure_shape e' (first + len) /\ ledger e' (first + len) /\ data e' = data e.
Proof.
  revert first e. induction len as [|len IH]; intros first e Hrun Hshape Hledger.
  - injection Hrun as <-. rewrite Nat.add_0_r. auto.
  - cbn [seq process_candles] in Hrun.
    destruct (process_candle first e) as [e1|] eqn:H1; [|discriminate].
    cbn [mbind option_bind] in Hrun.
    destruct (process_candle_step first e e1 H1 Hshape Hledger) as (S1 & L1 & D1).
    destruct (IH (S first) e1 Hrun S1 L1) as (S2 & L2 & D2).
    replace (first + S len)%nat with (S first + len)%nat by lia.
    split_and!; [exact S2|exact L2|congruence].
Qed.

Lemma zero_rows_lookup (candles : list Candle) (j : nat) (row : SignalRow) :
  map (fun _ : Candle => mkSignalRow 0 None None None) candles !! j = Some row ->
  row = zero_row.
Proof.
  rewrite list_lookup_fmap. destruct (candles !! j); [|discriminate]. now intros [= <-].
Qed.

(** The batch pass over a new engine: it does not raise, and it leaves the
    points in shape and the signal table in step with the recorded
    structures. *)
Lemma batch_pass_invariant (candles : list Candle) (broker : bool) :
  exists e : Engine,
    generate_signals (new_strategy candles broker) = Some e /\
    structure_shape e (length candles) /\ ledger e (length candles) /\
    data e = candles.
Proof.
  destruct (generate_signals_total (new_strategy candles broker)) as (e & Hgen & _).
  { unfold in_sync. cbn. split; intros [? [=]]. }
  { cbn. apply length_map. }
  exists e. split; [exact Hgen|]. unfold generate_signals in Hgen.
  destruct candles as [|first rest].
  - injection Hgen as <-. split_and!; [| |reflexivity].
    + constructor; cbn; try (intros ? ?; discriminate); reflexivity.
    + constructor;
        cbn [initialize_H1_L1 new_strategy data signals structures map length].
      * reflexivity.
      * intros rec H. inversion H.
      * intros j row H. rewrite lookup_nil in H. discriminate.
  - apply process_candles_steps in Hgen.
    + replace (1 + (length (data (new_strategy (first :: rest) broker)) - 1))%nat
        with (length (first :: rest)) in Hgen by (cbn; lia).
      exact Hgen.
    + constructor; cbn; try (intros ? ?; discriminate); [|reflexivity].
      intros l [= <-]. split; [cbn; lia|reflexivity].
    + constructor; cbn [initialize_H1_L1 new_strategy data signals structures set_H1 set_L1].
      * apply length_map.
      * intros ? H; inversion H.
      * intros j row Hrow. left. exact (zero_rows_lookup _ j row Hrow).
Qed.

(** *** What the batch pass over a new engine guarantees *)

(** The batch pass over a new engine never raises, and the points it
    leaves are in shape.  In particular, when C is set the whole structure
    is: L1, H1, A, B, C lie on candles in this order (B at least two candles
    after A), the lows rise from L1 over A and B to C, H1 is above L1, D lies
    between B and C and no high from the candle of B to the last candle
    exceeds it, and the setup pending is the one derived from C and D. *)
Theorem batch_pass_structure_shape (candles : list Candle) (broker : bool) :
  exists e : Engine,
    generate_signals (new_strategy candles broker) = Some e /\
    data e = candles /\
    structure_shape e (length candles) /\
    (forall c : Point, C_pt e = Some c ->
       exists l1 h1 a b d : Point,
         L1_pt e = Some l1 /\ H1_pt e = Some h1 /\ A_pt e = Some a /\
         B_pt e = Some b /\ D_pt e = Some d /\
         pending_setup e = Some (setup_of (structure_of e) c d) /\
         (pt_idx l1 < pt_idx h1 < pt_idx a)%nat /\
         (pt_idx a + 1 < pt_idx b < pt_idx c)%nat /\
         (pt_idx b <= pt_idx d <= pt_idx c)%nat /\
         pt_price l1 < pt_price h1 /\ pt_price l1 < pt_price a /\
         pt_price a < pt_price b /\ pt_price b < pt_price c /\
         (forall (k : nat) (ck : Candle),
            (pt_idx b <= k)%nat -> candles !! k = Some ck -> c_high ck <= pt_price d)).
Proof.
  destruct (batch_pass_invariant candles broker) as (e & Hgen & Hshape & _ & Hdata).
  exists e. split_and!; [exact Hgen|exact Hdata|exact Hshape|].
  intros c Hc.
  destruct (shape_C _ _ Hshape c Hc) as (b & d & Hb & Hd & Hbc & Hpbc & _ & Hbd & _ & Hdom).
  destruct (shape_B _ _ Hshape b Hb) as (a & Ha & Hab & Hpab & _).
  destruct (shape_A _ _ Hshape a Ha) as (h1 & l1 & Hh1 & Hl1 & Hha & Hpla & _).
  destruct (shape_H1 _ _ Hshape h1 Hh1) as (l1' & Hl1' & Hlh & Hplh & _).
  assert (l1' = l1) as -> by congruence.
  exists l1, h1, a, b, d.
  split_and!; try assumption; try lia.
  - rewrite (shape_setup _ _ Hshape), Hc, Hd. reflexivity.
  - intros k ck Hk Hck. rewrite Hdata in Hdom. apply (Hdom k ck); [exact Hk| |exact Hck].
    right. eapply lookup_lt_Some, Hck.
Qed.

(** Every signal the batch pass writes is a breakout of a complete
    structure: each recorded structure has its six points in order on
    candles before the signal candle, D is the highest high from B up to the
    candle before the signal, and the high of the signal candle exceeds it;
    every row of the signal table is either untouched or the row of a
    recorded structure; no signal is written on the first six candles. *)
Theorem batch_pass_signals_are_breakouts (candles : list Candle) (broker : bool) :
  exists e : Engine,
    generate_signals (new_strategy candles broker) = Some e /\
    length (signals e) = length candles /\
    (forall rec : StructureRecord, rec ∈ structures e ->
       recorded_breakout candles (signals e) (length candles) rec) /\
    (forall (j : nat) (row : SignalRow), signals e !! j = Some row ->
       row = zero_row \/
       exists rec : StructureRecord,
         rec ∈ structures e /\ fst (sr_entry rec) = j /\
         row = mkSignalRow 1 (Some (snd (sr_entry rec)))
                 (Some (snd (sr_stop_loss rec))) (Some (snd (sr_target rec)))) /\
    (forall (j : nat) (row : SignalRow),
       (j < 6)%nat -> signals e !! j = Some row -> row = zero_row).
Proof.
  destruct (batch_pass_invariant candles broker) as (e & Hgen & _ & [L1 L2 L3] & Hdata).
  rewrite Hdata in *.
  exists e. split_and!; [exact Hgen|exact L1|exact L2| |].
  - intros j row Hrow. destruct (L3 j row Hrow) as [?|[_ ?]]; [now left|now right].
  - intros j row Hj Hrow. destruct (L3 j row Hrow) as [?|[_ (rec & Hrec & Hentry & _)]];
      [assumption|exfalso].
    destruct (L2 rec Hrec) as (j' & l1 & h1 & a & b & c & d & cj & _ & -> & _ & ? & ? & ? & _).
    cbn in Hentry. lia.
Qed.

(** [_check_for_entry_trigger] after the batch pass over a new engine: it
    raises exactly when the index is past the last candle, and it answers
    True exactly at the candles where a structure was recorded, never on
    the first six candles. *)
Theorem entry_trigger_marks_recorded_structures (candles : list Candle) (broker : bool) :
  exists e : Engine,
    generate_signals (new_strategy candles broker) = Some e /\
    forall idx : nat,
      (check_for_entry_trigger e idx = None <-> (length candles <= idx)%nat) /\
      (check_for_entry_trigger e idx = Some true <->
       exists rec : StructureRecord, rec ∈ structures e /\ fst (sr_entry rec) = idx) /\
      ((idx < 6)%nat -> check_for_entry_trigger e idx <> Some true).
Proof.
  destruct (batch_pass_invariant candles broker) as (e & Hgen & _ & [L1 L2 L3] & Hdata).
  rewrite Hdata in *.
  exists e. split; [exact Hgen|]. intros idx. unfold check_for_entry_trigger.
  assert (forall rec, rec ∈ structures e -> (6 <= fst (sr_entry rec))%nat) as Hsix.
  { intros rec Hrec.
    destruct (L2 rec Hrec) as (j' & l1 & h1 & a & b & c & d & cj & _ & -> & _ & ? & ? & ? & _).
    cbn. lia. }
  split_and!.
  - rewrite <- L1. destruct (signals e !! idx) as [row|] eqn:Hrow; cbn.
    + split; [discriminate|]. apply lookup_lt_Some in Hrow. lia.
    + split; [|reflexivity]. intros _. now apply lookup_ge_None.
  - destruct (signals e !! idx) as [row|] eqn:Hrow; cbn.
    + destruct (L3 idx row Hrow) as [->|[_ (rec & Hrec & Hentry & ->)]]; cbn.
      * split; [discriminate|]. intros (rec & Hrec & Hentry).
        destruct (L2 rec Hrec) as (j & l1 & h1 & a & b & c & d & cj & _ & -> & Hj & _).
        cbn in Hentry. subst j. rewrite Hrow in Hj. discriminate.
      * split; [eauto|reflexivity].
    + split; [discriminate|]. intros (rec & Hrec & Hentry).
      destruct (L2 rec Hrec) as (j & l1 & h1 & a & b & c & d & cj & _ & -> & Hj & _).
      cbn in Hentry. subst j. rewrite Hrow in Hj. discriminate.
  - intros Hidx. destruct (signals e !! idx) as [row|] eqn:Hrow; cbn; [|discriminate].
    destruct (L3 idx row Hrow) as [->|[_ (rec & Hrec & Hentry & ->)]]; cbn; [discriminate|].
    specialize (Hsix rec Hrec). lia.
Qed.

(** On candles whose low is not above their high, every signal row of the
    batch pass has its stop-loss below its entry price and its target above
    it, at exactly twice the distance; the entry price is D + 0.05 while the
    signal fires as soon as a high exceeds D itself. *)
Theorem batch_signal_prices_ordered (candles : list Candle) (broker : bool) :
  Forall (fun c => c_low c <= c_high c) candles ->
  exists e : Engine,
    generate_signals (new_strategy candles broker) = Some e /\
    forall (j : nat) (row : SignalRow),
      signals e !! j = Some row -> row_signal row = 1%Z ->
      exists (entry stop target : Q) (cj : Candle),
        row = mkSignalRow 1 (Some entry) (Some stop) (Some target) /\
        stop < entry /\ entry < target /\
        target - entry == 2 * (entry - stop) /\
        candles !! j = Some cj /\ entry - 0.05 < c_high cj.
Proof.
  intros Hok.
  destruct (batch_pass_invariant candles broker) as (e & Hgen & _ & [L1 L2 L3] & Hdata).
  rewrite Hdata in *.
  exists e. split; [exact Hgen|]. intros j row Hrow Hsig.
  destruct (L3 j row Hrow) as [->|[_ (rec & Hrec & Hentry & ->)]]; [discriminate|].
  destruct (L2 rec Hrec)
    as (j' & l1 & h1 & a & b & c & d & cj & _ & -> & _ & _ & Hbc & Hcj & _ & _ & _ & _ & _
        & _ & _ & _ & _ & Hanc & _ & Hj & Hbreak & Hdom).
  cbn in Hentry. subst j'. cbn [sr_entry sr_stop_loss sr_target snd].
  unfold anchored in Hanc. destruct (candles !! pt_idx c) as [cc|] eqn:Hcc; [|discriminate].
  injection Hanc as Hlow.
  assert (c_low cc <= c_high cc) as Hwf.
  { rewrite Forall_forall in Hok. apply Hok. eapply list_elem_of_lookup_2, Hcc. }
  assert (c_high cc <= pt_price d) as Hle by (apply (Hdom (pt_idx c) cc); [lia|exact Hcc]).
  assert (pt_price c <= pt_price d) as Hcd by (rewrite <- Hlow; lra).
  eexists _, _, _, cj. split; [reflexivity|].
  split_and!; [lra|lra|ring|exact Hj|lra].
Qed.
(** ** Resetting points *)

Lemma reset_points_field {A : Type} (field : Engine -> option A) (name : string) :
  (forall e, field (reset_point e name) = None) ->
  (forall e p, p <> name -> field (reset_point e p) = field e) ->
  forall (which : list string) (e : Engine),
    field (reset_points which e) =
    if bool_decide (name ∈ which) then None else field e.
Proof.
  intros Hhit Hmiss which. unfold reset_points.
  induction which as [|p which IH]; intros e; [reflexivity|].
  cbn [foldl]. rewrite IH. destruct (decide (p = name)) as [->|Hne].
  - rewrite (bool_decide_eq_true_2 (name ∈ name :: which)) by left.
    rewrite Hhit. now destruct (bool_decide _).
  - rewrite (Hmiss e p Hne). destruct (decide (name ∈ which)) as [Hin|Hnin].
    + rewrite !bool_decide_eq_true_2; [reflexivity|now right|exact Hin].
    + rewrite !bool_decide_eq_false_2; [reflexivity| |exact Hnin].
      intros Hin. apply elem_of_cons in Hin as [Heq|Hin]; [congruence|contradiction].
Qed.

Lemma reset_points_frame {A : Type} (field : Engine -> A) :
  (forall e p, field (reset_point e p) = field e) ->
  forall (which : list string) (e : Engine), field (reset_points which e) = field e.
Proof.
  intros Hframe which. unfold reset_points.
  induction which as [|p which IH]; intros e; [reflexivity|].
  cbn [foldl]. now rewrite IH, Hframe.
Qed.

Ltac reset_point_cases p :=
  unfold reset_point;
  destruct (String.eqb_spec p "H1"), (String.eqb_spec p "L1"), (String.eqb_spec p "A"),
    (String.eqb_spec p "B"), (String.eqb_spec p "C"), (String.eqb_spec p "D");
  subst; try reflexivity; try congruence.

Ltac reset_point_hit :=
  let x := fresh "x" in intros x; destruct x; reflexivity.
Ltac reset_point_miss :=
  let x := fresh "x" in let p := fresh "p" in
  intros x p ?; destruct x; reset_point_cases p.
Ltac reset_point_frame :=
  let x := fresh "x" in let p := fresh "p" in
  intros x p; destruct x; reset_point_cases p.

(** [reset_points] clears exactly the points it is given by name, "D"
    together with the pending setup; names it does not know, repeated names
    and the order of the names make no difference, and nothing else of the
    engine changes.  So two lists that name the same points reset alike. *)
Theorem reset_points_clears_named_points (which : list string) (e : Engine) :
  let e' := reset_points which e in
  let cleared (name : string) (before : option Point) : option Point :=
    if bool_decide (name ∈ which) then None else before in
  H1_pt e' = cleared "H1"%string (H1_pt e) /\
  L1_pt e' = cleared "L1"%string (L1_pt e) /\
  A_pt e' = cleared "A"%string (A_pt e) /\
  B_pt e' = cleared "B"%string (B_pt e) /\
  C_pt e' = cleared "C"%string (C_pt e) /\
  D_pt e' = cleared "D"%string (D_pt e) /\
  pending_setup e' = (if bool_decide ("D"%string ∈ which) then None else pending_setup e) /\
  data e' = data e /\ has_broker e' = has_broker e /\ signals e' = signals e /\
  structures e' = structures e /\ cached_options_data e' = cached_options_data e /\
  last_order_id e' = last_order_id e /\ order_counter e' = order_counter e /\
  signal_counter e' = signal_counter e /\
  (forall which' : list string,
     (forall name, name ∈ point_names -> name ∈ which <-> name ∈ which') ->
     reset_points which' e = e').
Proof.
  cbv zeta.
  assert (forall w, H1_pt (reset_points w e) = if bool_decide ("H1"%string ∈ w) then None else H1_pt e)
    as F1 by (intros w; apply reset_points_field; [reset_point_hit|reset_point_miss]).
  assert (forall w, L1_pt (reset_points w e) = if bool_decide ("L1"%string ∈ w) then None else L1_pt e)
    as F2 by (intros w; apply reset_points_field; [reset_point_hit|reset_point_miss]).
  assert (forall w, A_pt (reset_points w e) = if bool_decide ("A"%string ∈ w) then None else A_pt e)
    as F3 by (intros w; apply reset_points_field; [reset_point_hit|reset_point_miss]).
  assert (forall w, B_pt (reset_points w e) = if bool_decide ("B"%string ∈ w) then None else B_pt e)
    as F4 by (intros w; apply reset_points_field; [reset_point_hit|reset_point_miss]).
  assert (forall w, C_pt (reset_points w e) = if bool_decide ("C"%string ∈ w) then None else C_pt e)
    as F5 by (intros w; apply reset_points_field; [reset_point_hit|reset_point_miss]).
  assert (forall w, D_pt (reset_points w e) = if bool_decide ("D"%string ∈ w) then None else D_pt e)
    as F6 by (intros w; apply reset_points_field; [reset_point_hit|reset_point_miss]).
  assert (forall w, pending_setup (reset_points w e)
                    = if bool_decide ("D"%string ∈ w) then None else pending_setup e)
    as F7 by (intros w; apply reset_points_field; [reset_point_hit|reset_point_miss]).
  assert (forall w, data (reset_points w e) = data e)
    as G1 by (intros w; apply reset_points_frame; reset_point_frame).
  assert (forall w, has_broker (reset_points w e) = has_broker e)
    as G2 by (intros w; apply reset_points_frame; reset_point_frame).
  assert (forall w, signals (reset_points w e) = signals e)
    as G3 by (intros w; apply reset_points_frame; reset_point_frame).
  assert (forall w, structures (reset_points w e) = structures e)
    as G4 by (intros w; apply reset_points_frame; reset_point_frame).
  assert (forall w, cached_options_data (reset_points w e) = cached_options_data e)
    as G5 by (intros w; apply reset_points_frame; reset_point_frame).
  assert (forall w, last_order_id (reset_points w e) = last_order_id e)
    as G6 by (intros w; apply reset_points_frame; reset_point_frame).
  assert (forall w, order_counter (reset_points w e) = order_counter e)
    as G7 by (intros w; apply reset_points_frame; reset_point_frame).
  assert (forall w, signal_counter (reset_points w e) = signal_counter e)
    as G8 by (intros w; apply reset_points_frame; reset_point_frame).
  split_and!; try easy.
  intros which' Hsame.
  assert (forall name, name ∈ point_names ->
            bool_decide (name ∈ which') = bool_decide (name ∈ which)) as Hdec.
  { intros name Hname. apply bool_decide_ext. symmetry. now apply Hsame. }
  specialize (F1 which') as F1'. specialize (F2 which') as F2'. specialize (F3 which') as F3'.
  specialize (F4 which') as F4'. specialize (F5 which') as F5'. specialize (F6 which') as F6'.
  specialize (F7 which') as F7'.
  rewrite Hdec in F1', F2', F3', F4', F5', F6', F7' by (unfold point_names; repeat constructor).
  rewrite <- F1 in F1'. rewrite <- F2 in F2'. rewrite <- F3 in F3'. rewrite <- F4 in F4'.
  rewrite <- F5 in F5'. rewrite <- F6 in F6'. rewrite <- F7 in F7'.
  pose proof (eq_trans (G1 which') (eq_sym (G1 which))) as E1.
  pose proof (eq_trans (G2 which') (eq_sym (G2 which))) as E2.
  pose proof (eq_trans (G3 which') (eq_sym (G3 which))) as E3.
  pose proof (eq_trans (G4 which') (eq_sym (G4 which))) as E4.
  pose proof (eq_trans (G5 which') (eq_sym (G5 which))) as E5.
  pose proof (eq_trans (G6 which') (eq_sym (G6 which))) as E6.
  pose proof (eq_trans (G7 which') (eq_sym (G7 which))) as E7.
  pose proof (eq_trans (G8 which') (eq_sym (G8 which))) as E8.
  clear F1 F2 F3 F4 F5 F6 F7 G1 G2 G3 G4 G5 G6 G7 G8 Hdec Hsame.
  destruct (reset_points which' e), (reset_points which e). cbn in *.
  f_equal; assumption.
Qed.

(** ** The options cache *)

Lemma update_L1_cache (i : nat) (cur : Candle) (e e' : Engine) :
  update_L1 i cur e = Some e' -> cached_options_data e' = cached_options_data e.
Proof.
  unfold update_L1. destruct (is_swing_low (data e) i); [|now intros [= <-]].
  destruct (L1_pt e); [|discriminate]. cbn [mbind option_bind].
  destruct (Qltb _ _); intros [= <-]; [|reflexivity]. now destruct e.
Qed.

Lemma update_H1_cache (i : nat) (cur : Candle) (e : Engine) :
  cached_options_data (update_H1 i cur e) = cached_options_data e.
Proof.
  unfold update_H1. destruct e. cbn -[is_swing_high Qgtb]. phase_cases; reflexivity.
Qed.

Lemma detect_A_cache (i : nat) (cur : Candle) (e : Engine) :
  cached_options_data (detect_A i cur e) = cached_options_data e.
Proof.
  unfold detect_A. destruct e. cbn -[is_swing_low Qgtb]. phase_cases; reflexivity.
Qed.

Lemma detect_B_cache (i : nat) (cur : Candle) (e : Engine) :
  cached_options_data (detect_B i cur e) = cached_options_data e.
Proof.
  unfold detect_B. destruct e. cbn -[is_swing_low Qgtb]. phase_cases; reflexivity.
Qed.

Lemma calculate_point_D_cache (e e' : Engine) :
  calculate_point_D e = Some e' -> no_options_table e -> no_options_table e'.
Proof.
  unfold calculate_point_D, refresh_option_greeks, no_options_table.
  destruct (H1_pt e), (B_pt e), (C_pt e); try (now intros [= <-]).
  destruct (data e !! _); [|discriminate]. cbn [mbind option_bind].
  destruct (scan_highs _ _ _); [|discriminate]. cbn [mbind option_bind].
  intros [= <-]. destruct e as [dt br sg h1p l1p ap bp cp dp ps st cache lo oc sc].
  cbn. destruct br; cbn; auto.
Qed.

Lemma detect_C_cache (i : nat) (cur prev : Candle) (e e' : Engine) :
  detect_C i cur prev e = Some e' -> no_options_table e -> no_options_table e'.
Proof.
  unfold detect_C. destruct (B_pt e); [|now intros [= <-]].
  destruct (C_pt e); [now intros [= <-]|].
  destruct (_ && _); [|now intros [= <-]].
  intros Hcalc Hno. apply (calculate_point_D_cache _ _ Hcalc).
  revert Hno. unfold no_options_table. now destruct e.
Qed.

Lemma detect_breakout_cache (i : nat) (cur : Candle) (e e' : Engine) :
  detect_breakout i cur e = Some e' -> cached_options_data e' = cached_options_data e.
Proof.
  unfold detect_breakout. destruct (pending_setup e); [|now intros [= <-]].
  destruct (D_pt e); [|discriminate]. cbn [mbind option_bind].
  destruct (Qgtb _ _); [|now intros [= <-]].
  destruct (signals e !! i); [|discriminate]. cbn [mbind option_bind].
  intros [= <-]. now destruct e.
Qed.

Lemma process_candle_cache (i : nat) (e e' : Engine) :
  process_candle i e = Some e' -> no_options_table e -> no_options_table e'.
Proof.
  intros Hstep Hno.
  destruct (data e !! i) as [cur|] eqn:Hcur.
  2:{ unfold process_candle in Hstep. rewrite Hcur in Hstep. discriminate. }
  destruct (data e !! (i - 1)%nat) as [prev|] eqn:Hprev.
  2:{ unfold process_candle in Hstep. rewrite Hcur, Hprev in Hstep. discriminate. }
  rewrite (process_candle_unfold i e cur prev Hcur Hprev) in Hstep.
  destruct (update_L1 i cur e) as [e1|] eqn:H1; [|discriminate].
  destruct (detect_C i cur prev _) as [e5|] eqn:H5; [|discriminate].
  apply detect_C_cache in H5.
  - unfold no_options_table in *. now rewrite (detect_breakout_cache _ _ _ _ Hstep).
  - unfold no_options_table in *.
    now rewrite detect_B_cache, detect_A_cache, update_H1_cache, (update_L1_cache _ _ _ _ H1).
Qed.

Lemma generate_signals_cache (e e' : Engine) :
  generate_signals e = Some e' -> no_options_table e -> no_options_table e'.
Proof.
  unfold generate_signals. intros Hrun Hno.
  assert (no_options_table (initialize_H1_L1 e)) as Hinit.
  { revert Hno. unfold no_options_table, initialize_H1_L1.
    destruct (data e); [auto|]. now destruct e. }
  revert Hrun Hinit. generalize (initialize_H1_L1 e).
  generalize (seq 1 (length (data e) - 1)). clear.
  intros indices. induction indices as [|i indices IH]; intros e0 Hrun Hno.
  - now injection Hrun as <-.
  - cbn [process_candles] in Hrun.
    destruct (process_candle i e0) as [e1|] eqn:H1; [|discriminate].
    cbn [mbind option_bind] in Hrun. apply (IH e1 Hrun).
    now apply (process_candle_cache i e0).
Qed.

Section LiveExtras.

Variable pow_overflow : Q -> bool.

Lemma check_live_tick_silent (e : Engine) (price : Q) :
  no_options_table e ->
  snd (check_live_tick pow_overflow e price) = None /\
  no_options_table (fst (check_live_tick pow_overflow e price)) /\
  signal_counter (fst (check_live_tick pow_overflow e price)) = signal_counter e.
Proof.
  unfold no_options_table.
  destruct e as [dt br sg h1p l1p ap bp cp dp ps st cache lo oc sc].
  unfold check_live_tick, refresh_option_greeks. cbn [C_pt D_pt order_counter cached_options_data].
  intros Hno.
  destruct cp as [c|]; [|cbn; auto].
  destruct dp as [d|]; [|cbn; auto].
  destruct (Qgtb price (pt_price d)); [|cbn; auto].
  destruct (MAX_SIGNAL_ATTEMPTS <=? oc)%nat; [cbn; auto|].
  destruct Hno as [->| ->]; destruct br; cbn; auto.
Qed.

Lemma check_breakout_signals_silent (e : Engine) (price : Q)
    (broker_answer : option string) :
  no_options_table e ->
  check_breakout_signals pow_overflow e price broker_answer
  = fst (check_live_tick pow_overflow e price).
Proof.
  intros Hno. destruct (check_live_tick_silent e price Hno) as (Hsnd & _).
  unfold check_breakout_signals.
  destruct (check_live_tick pow_overflow e price) as [e' sig]. cbn in Hsnd. now subst sig.
Qed.

(** While the cache holds no options table the live check never returns a
    signal, whatever the price, the structure and the broker: the refresh it
    triggers stores an empty frame.  The tick then changes nothing but,
    possibly, the setup and the cache, which still holds no table; so no
    order is sent either. *)
Theorem live_tick_without_options_table (e : Engine) (price : Q)
    (broker_answer : option string) :
  no_options_table e ->
  let e' := fst (check_live_tick pow_overflow e price) in
  snd (check_live_tick pow_overflow e price) = None /\
  check_breakout_signals pow_overflow e price broker_answer = e' /\
  no_options_table e' /\
  signal_counter e' = signal_counter e /\ order_counter e' = order_counter e /\
  last_order_id e' = last_order_id e /\
  data e' = data e /\ signals e' = signals e /\
  L1_pt e' = L1_pt e /\ H1_pt e' = H1_pt e /\ A_pt e' = A_pt e /\
  B_pt e' = B_pt e /\ C_pt e' = C_pt e /\ D_pt e' = D_pt e.
Proof.
  intros Hno. cbv zeta.
  destruct (check_live_tick_silent e price Hno) as (Hsnd & Hno' & Hsc).
  destruct (check_live_tick_frame pow_overflow e price)
    as (Hd & Hs & HL & HH & HA & HB & HC & HD & _ & Hoc & Hlo & _).
  split_and!; try assumption.
  now apply check_breakout_signals_silent.
Qed.

(** Once the order counter has reached MAX_SIGNAL_ATTEMPTS the engine is
    deaf to ticks: no sequence of prices and broker answers changes
    anything in it. *)
Theorem capped_engine_ignores_ticks (e : Engine) (ticks : list (Q * option string)) :
  (MAX_SIGNAL_ATTEMPTS <= order_counter e)%nat ->
  foldl (fun strategy tick =>
           check_breakout_signals pow_overflow strategy (fst tick) (snd tick)) e ticks = e.
Proof.
  intros Hcap. induction ticks as [|[price answer] ticks IH]; [reflexivity|].
  cbn [foldl fst snd]. unfold check_breakout_signals at 2.
  rewrite (check_live_tick_capped pow_overflow e price Hcap). exact IH.
Qed.

End LiveExtras.
(** ** What the batch pass never writes *)

Lemma update_L1_bookkeeping (i : nat) (cur : Candle) (e e' : Engine) :
  update_L1 i cur e = Some e' -> bookkeeping e' = bookkeeping e.
Proof.
  unfold update_L1. destruct (is_swing_low (data e) i); [|now intros [= <-]].
  destruct (L1_pt e); [|discriminate]. cbn [mbind option_bind].
  destruct (Qltb _ _); intros [= <-]; [|reflexivity]. now destruct e.
Qed.

Lemma update_H1_bookkeeping (i : nat) (cur : Candle) (e : Engine) :
  bookkeeping (update_H1 i cur e) = bookkeeping e.
Proof.
  unfold update_H1. destruct e. cbn -[is_swing_high Qgtb]. phase_cases; reflexivity.
Qed.

Lemma detect_A_bookkeeping (i : nat) (cur : Candle) (e : Engine) :
  bookkeeping (detect_A i cur e) = bookkeeping e.
Proof.
  unfold detect_A. destruct e. cbn -[is_swing_low Qgtb]. phase_cases; reflexivity.
Qed.

Lemma detect_B_bookkeeping (i : nat) (cur : Candle) (e : Engine) :
  bookkeeping (detect_B i cur e) = bookkeeping e.
Proof.
  unfold detect_B. destruct e. cbn -[is_swing_low Qgtb]. phase_cases; reflexivity.
Qed.

Lemma detect_C_bookkeeping (i : nat) (cur prev : Candle) (e e' : Engine) :
  detect_C i cur prev e = Some e' -> bookkeeping e' = bookkeeping e.
Proof.
  unfold detect_C. destruct (B_pt e); [|now intros [= <-]].
  destruct (C_pt e); [now intros [= <-]|].
  destruct (_ && _); [|now intros [= <-]].
  unfold calculate_point_D, refresh_option_greeks.
  destruct e as [dt br sg h1p l1p ap bp cp dp ps st cache lo oc sc].
  cbn [set_C H1_pt B_pt C_pt data].
  destruct h1p, bp; try (now intros [= <-]).
  destruct (dt !! _); [|discriminate]. cbn [mbind option_bind].
  destruct (scan_highs _ _ _); [|discriminate]. cbn [mbind option_bind].
  intros [= <-]. cbn. now destruct br.
Qed.

Lemma detect_breakout_bookkeeping (i : nat) (cur : Candle) (e e' : Engine) :
  detect_breakout i cur e = Some e' -> bookkeeping e' = bookkeeping e.
Proof.
  unfold detect_breakout. destruct (pending_setup e); [|now intros [= <-]].
  destruct (D_pt e); [|discriminate]. cbn [mbind option_bind].
  destruct (Qgtb _ _); [|now intros [= <-]].
  destruct (signals e !! i); [|discriminate]. cbn [mbind option_bind].
  intros [= <-]. now destruct e.
Qed.

Lemma process_candle_bookkeeping (i : nat) (e e' : Engine) :
  process_candle i e = Some e' -> bookkeeping e' = bookkeeping e.
Proof.
  intros Hstep.
  destruct (data e !! i) as [cur|] eqn:Hcur.
  2:{ unfold process_candle in Hstep. rewrite Hcur in Hstep. discriminate. }
  destruct (data e !! (i - 1)%nat) as [prev|] eqn:Hprev.
  2:{ unfold process_candle in Hstep. rewrite Hcur, Hprev in Hstep. discriminate. }
  rewrite (process_candle_unfold i e cur prev Hcur Hprev) in Hstep.
  destruct (update_L1 i cur e) as [e1|] eqn:H1; [|discriminate].
  destruct (detect_C i cur prev _) as [e5|] eqn:H5; [|discriminate].
  rewrite (detect_breakout_bookkeeping _ _ _ _ Hstep), (detect_C_bookkeeping _ _ _ _ _ H5).
  now rewrite detect_B_bookkeeping, detect_A_bookkeeping, update_H1_bookkeeping,
    (update_L1_bookkeeping _ _ _ _ H1).
Qed.

Lemma generate_signals_bookkeeping (e e' : Engine) :
  generate_signals e = Some e' -> bookkeeping e' = bookkeeping e.
Proof.
  unfold generate_signals. intros Hrun.
  assert (bookkeeping (initialize_H1_L1 e) = bookkeeping e) as <-.
  { unfold initialize_H1_L1. destruct (data e); [reflexivity|]. now destruct e. }
  revert Hrun. generalize (initialize_H1_L1 e).
  generalize (seq 1 (length (data e) - 1)).
  intros indices. induction indices as [|i indices IH]; intros e0 Hrun.
  - now injection Hrun as <-.
  - cbn [process_candles] in Hrun.
    destruct (process_candle i e0) as [e1|] eqn:H1; [|discriminate].
    cbn [mbind option_bind] in Hrun.
    rewrite (IH e1 Hrun). now apply (process_candle_bookkeeping i e0).
Qed.

Lemma update_strategies_fresh_fields (e e' : Engine) (first : Candle) (rest : list Candle) :
  update_strategies e (first :: rest) = Some e' ->
  data e' = first :: rest /\ has_broker e' = has_broker e /\
  order_counter e' = 0%nat /\ signal_counter e' = 0%nat /\ last_order_id e' = None /\
  no_options_table e'.
Proof.
  unfold update_strategies. intros Hrun.
  pose proof (generate_signals_bookkeeping _ _ Hrun) as Hbook.
  pose proof (generate_signals_cache _ _ Hrun) as Hcache.
  unfold bookkeeping in Hbook. destruct (pending_setup e); cbn in Hbook, Hcache.
  all: injection Hbook as -> -> -> -> ->; split_and!; try reflexivity.
  all: apply Hcache; now left.
Qed.

(** The periodic re-evaluation starts afresh: its result depends on the old
    engine only through the broker, the points A, B, C, D and the pending
    setup (the H1 and L1 it copies over are overwritten by the seeding of the
    batch pass), and the new engine holds the new frame with its order
    counter, its signal counter and its last order id back at their initial
    values, so the cap on orders does not outlive a re-evaluation. *)
Theorem update_strategies_starts_afresh (e1 e2 : Engine) (spot_df : list Candle) :
  spot_df <> [] ->
  has_broker e1 = has_broker e2 ->
  A_pt e1 = A_pt e2 -> B_pt e1 = B_pt e2 -> C_pt e1 = C_pt e2 -> D_pt e1 = D_pt e2 ->
  pending_setup e1 = pending_setup e2 ->
  update_strategies e1 spot_df = update_strategies e2 spot_df /\
  forall e' : Engine,
    update_strategies e1 spot_df = Some e' ->
    data e' = spot_df /\ has_broker e' = has_broker e1 /\
    order_counter e' = 0%nat /\ signal_counter e' = 0%nat /\ last_order_id e' = None.
Proof.
  intros Hdf Hbr HA HB HC HD HP. unfold update_strategies.
  destruct spot_df as [|first rest]; [congruence|]. clear Hdf.
  rewrite <- HP, <- Hbr, <- HA, <- HB, <- HC, <- HD.
  split.
  - destruct (pending_setup e1); [|reflexivity].
    unfold generate_signals.
    set (r1 := set_pending_setup _ (set_D _ (set_C _ (set_B _ (set_A _
                 (set_L1 (L1_pt e1) (set_H1 (H1_pt e1) _))))))).
    set (r2 := set_pending_setup _ (set_D _ (set_C _ (set_B _ (set_A _
                 (set_L1 (L1_pt e2) (set_H1 (H1_pt e2) _))))))).
    assert (data r1 = data r2) as -> by reflexivity.
    assert (initialize_H1_L1 r1 = initialize_H1_L1 r2) as -> by reflexivity.
    reflexivity.
  - intros e' Hrun.
    destruct (update_strategies_fresh_fields e1 e' first rest) as (? & ? & ? & ? & ? & _).
    + unfold update_strategies. exact Hrun.
    + now split_and!.
Qed.
(** ** The application *)

Lemma update_strategies_total (strategy : Engine) (spot_df : list Candle) :
  in_sync strategy ->
  exists strategy' : Engine,
    update_strategies strategy spot_df = Some strategy' /\ in_sync strategy'.
Proof.
  intros Hsync. unfold update_strategies. destruct spot_df as [|first rest]; [eauto|].
  destruct (pending_setup strategy) as [setup|] eqn:Hp.
  - destruct (proj1 Hsync) as [d Hd]; [rewrite Hp; eauto|].
    match goal with |- context [generate_signals ?r] =>
      destruct (generate_signals_total r) as (e' & Hgen & _ & _ & _ & _ & _ & Hsync')
    end.
    + unfold in_sync. cbn. rewrite Hd. split; eauto.
    + cbn. now rewrite length_map.
    + eauto.
  - match goal with |- context [generate_signals ?r] =>
      destruct (generate_signals_total r) as (e' & Hgen & _ & _ & _ & _ & _ & Hsync')
    end.
    + unfold in_sync. cbn. split; intros [? [=]].
    + cbn. now rewrite length_map.
    + eauto.
Qed.

Section ApplicationProperties.

Variable pow_overflow : Q -> bool.
Variable sort_values : list HistoricalRow -> list HistoricalRow.

Lemma new_strategy_idle (candles : list Candle) (strategy : Engine) :
  generate_signals (new_strategy candles true) = Some strategy -> idle strategy.
Proof.
  intros Hgen.
  destruct (generate_signals_total (new_strategy candles true))
    as (e' & Hgen' & _ & _ & _ & _ & _ & Hsync).
  { unfold in_sync. cbn. split; intros [? [=]]. }
  { cbn [new_strategy signals data]. apply length_map. }
  assert (e' = strategy) as -> by congruence.
  pose proof (generate_signals_bookkeeping _ _ Hgen) as Hbook.
  injection Hbook as _ _ Hlo Hoc Hsc.
  split_and!; [exact Hsync| |exact Hsc|exact Hoc|exact Hlo].
  apply (generate_signals_cache _ _ Hgen). now left.
Qed.

Lemma check_breakout_signals_idle (strategy : Engine) (price : Q)
    (broker_answer : option string) :
  idle strategy -> idle (check_breakout_signals pow_overflow strategy price broker_answer).
Proof.
  intros (Hsync & Hno & Hsc & Hoc & Hlo).
  rewrite (check_breakout_signals_silent pow_overflow _ _ _ Hno).
  destruct (check_live_tick_silent pow_overflow strategy price Hno) as (_ & Hno' & Hsc').
  destruct (check_live_tick_frame pow_overflow strategy price)
    as (_ & _ & _ & _ & _ & _ & _ & _ & _ & Hoc' & Hlo' & Hsync' & _).
  split_and!; [auto|exact Hno'|congruence|congruence|congruence].
Qed.

Lemma update_strategies_idle (strategy strategy' : Engine) (spot_df : list Candle) :
  idle strategy -> update_strategies strategy spot_df = Some strategy' -> idle strategy'.
Proof.
  intros (Hsync & Hno & Hsc & Hoc & Hlo) Hup.
  destruct (update_strategies_total strategy spot_df Hsync) as (e' & Hup' & Hsync').
  assert (e' = strategy') as -> by congruence.
  destruct spot_df as [|first rest].
  { injection Hup as <-. now split_and!. }
  destruct (update_strategies_fresh_fields strategy strategy' first rest Hup)
    as (_ & _ & Hoc' & Hsc' & Hlo' & Hno').
  now split_and!.
Qed.


Lemma process_item_idle (app : App) (item : TickItem) :
  (forall strategy, spot_strategy app = Some strategy -> idle strategy) ->
  forall strategy,
    spot_strategy (process_item pow_overflow app item) = Some strategy -> idle strategy.
Proof.
  intros Hidle strategy. unfold process_item.
  destruct (String.eqb _ _); [|apply Hidle]. cbn [spot_strategy].
  destruct (spot_strategy app) as [old|]; [|discriminate].
  intros [= <-]. apply check_breakout_signals_idle. now apply Hidle.
Qed.

Lemma process_tick_idle (tick_data : list TickItem) (app : App) :
  (forall strategy, spot_strategy app = Some strategy -> idle strategy) ->
  forall strategy,
    spot_strategy (process_tick pow_overflow app tick_data) = Some strategy ->
    idle strategy.
Proof.
  unfold process_tick. revert app.
  induction tick_data as [|item tick_data IH]; intros app Hidle; [exact Hidle|].
  cbn [foldl]. apply IH. now apply process_item_idle.
Qed.

Lemma app_step_idle (app : App) (event : AppEvent) :
  (forall strategy, spot_strategy app = Some strategy -> idle strategy) ->
  exists app' : App,
    app_step pow_overflow sort_values app event = Some app' /\
    forall strategy, spot_strategy app' = Some strategy -> idle strategy.
Proof.
  intros Hidle. destruct event as [spot_historical|tick_data|]; cbn [app_step].
  - unfold initialize_historical_data. destruct spot_historical as [|row rows].
    { exists app. split; [reflexivity|exact Hidle]. }
    match goal with |- context [generate_signals ?e] =>
      destruct (generate_signals_total e) as (s & Hgen & _)
    end.
    { unfold in_sync. cbn. split; intros [? [=]]. }
    { cbn [new_strategy signals data]. apply length_map. }
    rewrite Hgen. cbn [mbind option_bind]. eexists. split; [reflexivity|].
    cbn [spot_strategy]. intros ? [= <-]. exact (new_strategy_idle _ _ Hgen).
  - eexists. split; [reflexivity|]. now apply process_tick_idle.
  - unfold app_update_strategies. destruct (spot_strategy app) as [old|] eqn:Hold.
    2:{ exists app. split; [reflexivity|]. intros s Hs. rewrite Hold in Hs. discriminate. }
    destruct (update_strategies_total old (get_dataframe (app_spot_5min app)))
      as (s & Hup & _); [apply (Hidle old eq_refl)|].
    rewrite Hup. cbn [mbind option_bind]. eexists. split; [reflexivity|].
    cbn [spot_strategy]. intros ? [= <-].
    exact (update_strategies_idle old s _ (Hidle old eq_refl) Hup).
Qed.

(** As written, the application never signals live and never sends an
    order.  Whatever historical frames, tick messages and re-evaluations
    arrive, in whatever order, no step raises, and the strategy it holds has
    its signal counter and its order counter at zero, no order id, and no
    options table in its cache: nothing in the program fills the table that
    the live check needs ([refresh_option_greeks] stores an empty frame). *)
Theorem application_never_signals_live (events : list AppEvent) :
  exists app : App,
    run_app pow_overflow sort_values new_app events = Some app /\
    forall strategy : Engine,
      spot_strategy app = Some strategy ->
      no_options_table strategy /\
      signal_counter strategy = 0%nat /\ order_counter strategy = 0%nat /\
      last_order_id strategy = None.
Proof.
  assert (forall (events : list AppEvent) (app : App),
            (forall strategy, spot_strategy app = Some strategy -> idle strategy) ->
            exists app' : App,
              run_app pow_overflow sort_values app events = Some app' /\
              forall strategy, spot_strategy app' = Some strategy -> idle strategy) as Hrun.
  { clear events. intros events. induction events as [|event events IH]; intros app Hidle.
    - exists app. split; [reflexivity|exact Hidle].
    - cbn [run_app]. destruct (app_step_idle app event Hidle) as (app1 & -> & Hidle1).
      cbn [mbind option_bind]. now apply IH. }
  destruct (Hrun events new_app) as (app & Hrunning & Hidle); [intros ? [=]|].
  exists app. split; [exact Hrunning|]. intros strategy Hs.
  destruct (Hidle strategy Hs) as (_ & ? & ? & ? & ?). now split_and!.
Qed.

(** A tick item for the spot token reaches all three aggregators with the
    same price: afterwards the candle in progress of the 1-, 5- and
    15-minute series closes at the last traded price (converted from paise),
    which lies within its range, and that price is the one recorded as the
    last spot price; the tick is counted and buffered.  An item for any other
    token changes nothing. *)
Theorem process_item_feeds_all_timeframes (app : App) (item : TickItem) :
  timeframe_minutes (app_spot_1min app) = 1%Z ->
  timeframe_minutes (app_spot_5min app) = 5%Z ->
  timeframe_minutes (app_spot_15min app) = 15%Z ->
  (0 <= minute (item_now item) <= 59)%Z ->
  let app' := process_item pow_overflow app item in
  let price := item_last_traded_price item * 0.01 in
  (item_token item <> SPOT_TOKEN -> app' = app) /\
  (item_token item = SPOT_TOKEN ->
     spot_ltp app' = price /\ tick_count app' = S (tick_count app) /\
     length (spot_ticks app') = S (length (spot_ticks app)) /\
     forall live : LiveOHLCVData,
       live ∈ [app_spot_1min app'; app_spot_5min app'; app_spot_15min app'] ->
       exists candle : Candle,
         current_candle live = Some candle /\ c_close candle = price /\
         c_low candle <= price /\ price <= c_high candle).
Proof.
  intros H1 H5 H15 Hmin. cbv zeta. unfold process_item. split.
  - intros Hne. apply String.eqb_neq in Hne. now rewrite Hne.
  - intros Heq. apply String.eqb_eq in Heq. rewrite Heq.
    cbn [spot_ltp tick_count spot_ticks app_spot_1min app_spot_5min app_spot_15min].
    split_and!; [reflexivity|reflexivity|rewrite length_app; cbn; lia|].
    assert (forall (live : LiveOHLCVData) (tf : Z),
              timeframe_minutes live = tf -> (0 < tf)%Z ->
              exists candle : Candle,
                current_candle
                  (update_from_tick live
                     (mkTick (Some (item_now item)) (Some (item_last_traded_price item * 0.01))
                        (item_volume item))) = Some candle /\
                c_close candle = item_last_traded_price item * 0.01 /\
                c_low candle <= item_last_traded_price item * 0.01 /\
                item_last_traded_price item * 0.01 <= c_high candle) as Hfed.
    { intros live tf Htf Hpos.
      destruct (candle_start_of_positive tf (item_now item) Hpos Hmin) as (m & Hstart & _).
      rewrite <- Htf in Hstart.
      unfold update_from_tick. cbn [tick_timestamp tick_ltp]. rewrite Hstart.
      destruct (current_candle live) as [cur|].
      - destruct (dt_gtb _ (c_time cur)).
        + eexists. cbn [current_candle c_close c_low c_high].
          split_and!; [reflexivity..|apply Qle_refl|apply Qle_refl].
        + eexists. cbn [current_candle c_close c_low c_high].
          rewrite py_max_Qmax, py_min_Qmin.
          split_and!; [reflexivity..|apply Q.le_min_r|apply Q.le_max_r].
      - eexists. cbn [current_candle c_close c_low c_high].
        split_and!; [reflexivity..|apply Qle_refl|apply Qle_refl]. }
    intros live Hlive.
    apply elem_of_cons in Hlive as [->|Hlive]; [apply (Hfed _ 1%Z H1); lia|].
    apply elem_of_cons in Hlive as [->|Hlive]; [apply (Hfed _ 5%Z H5); lia|].
    apply list_elem_of_singleton in Hlive as ->. apply (Hfed _ 15%Z H15); lia.
Qed.

End ApplicationProperties.
(** ** More on the risk model and the strike selector *)

Section RiskExtras.

Variable pow_overflow : Q -> bool.

Lemma calculate_stop_loss_total_nonneg (o o' : OptionData) (entry sl : Q) (r : StopLossCalc) :
  calculate_stop_loss pow_overflow o entry sl = Some (o', r) ->
  0 <= delta o -> 0 <= gamma o -> 0 <= total_sl r.
Proof.
  intros Hcalc Hdelta Hgamma.
  assert (total_sl r = delta o * Qabs (entry - sl) + 0.5 * gamma o * Qabs (entry - sl) ^ 2
                       + Qabs (theta o) / inject_Z (24 * 6) * (10 / 60)) as ->.
  { revert Hcalc. unfold calculate_stop_loss. destruct (pow_overflow _); [discriminate|].
    intros [= _ <-]. reflexivity. }
  pose proof (Qabs_nonneg (entry - sl)) as Hmove.
  pose proof (Qabs_nonneg (theta o)) as Htheta.
  assert (0 <= delta o * Qabs (entry - sl)) by now apply Qmult_le_0_compat.
  assert (0 <= 0.5 * gamma o * Qabs (entry - sl) ^ 2).
  { apply Qmult_le_0_compat; [apply Qmult_le_0_compat; [lra|assumption]|].
    change (0 <= Qabs (entry - sl) * Qabs (entry - sl)). now apply Qmult_le_0_compat. }
  assert (0 <= Qabs (theta o) / inject_Z (24 * 6) * (10 / 60)).
  { apply Qmult_le_0_compat; [|unfold Qle; cbn; lia]. apply Qle_shift_div_l; [reflexivity|].
    rewrite Qmult_0_l. exact Htheta. }
  set (a := delta o * Qabs (entry - sl)) in *.
  set (b := 0.5 * gamma o * Qabs (entry - sl) ^ 2) in *.
  set (c := Qabs (theta o) / inject_Z (24 * 6) * (10 / 60)) in *.
  lra.
Qed.

(** Where the stop-loss and the target of an option end up.  With
    non-negative delta and gamma the computed risk is non-negative.  When
    the last price is positive the stop-loss is at least 0.1 and the target
    lies at twice the distance on the other side of the last price; for a
    last price of at least 0.1 the stop-loss is at or below it, by no more
    than the computed risk, and the target at or above it; but for a last
    price below 0.1 the floor puts the stop-loss above the last price and the
    target below it.  When the last price is not positive neither is
    assigned. *)
Theorem stop_loss_and_target_bounds (o o' : OptionData) (entry sl : Q) (r : StopLossCalc) :
  calculate_stop_loss pow_overflow o entry sl = Some (o', r) ->
  0 <= delta o -> 0 <= gamma o ->
  0 <= total_sl r /\
  (last_price o <= 0 -> stop_loss o' = stop_loss o /\ target o' = target o) /\
  (0 < last_price o ->
     exists stop tgt : Q,
       stop_loss o' = Some stop /\ target o' = Some tgt /\
       0.1 <= stop /\ tgt - last_price o == 2 * (last_price o - stop) /\
       (0.1 <= last_price o ->
          stop <= last_price o /\ last_price o <= tgt /\
          last_price o - stop <= total_sl r) /\
       (last_price o < 0.1 -> stop == 0.1 /\ last_price o < stop /\ tgt < last_price o)).
Proof.
  intros Hcalc Hdelta Hgamma.
  pose proof (calculate_stop_loss_total_nonneg o o' entry sl r Hcalc Hdelta Hgamma) as Htotal.
  split; [exact Htotal|].
  revert Hcalc Htotal. unfold calculate_stop_loss. destruct (pow_overflow _); [discriminate|].
  cbn [last_price set_risk_per_lot].
  set (total := delta o * Qabs (entry - sl) + 0.5 * gamma o * Qabs (entry - sl) ^ 2
                + Qabs (theta o) / inject_Z (24 * 6) * (10 / 60)).
  destruct (Qgtb (last_price o) 0) eqn:Hlp; intros [= <- <-]; cbn [total_sl]; intros Htotal.
  - apply Qgtb_true in Hlp. split; [intros ?; lra|]. intros _.
    eexists _, _. cbn [stop_loss target set_stop_target set_risk_per_lot].
    split; [reflexivity|]. split; [reflexivity|].
    rewrite py_max_Qmax.
    pose proof (Q.le_max_r (last_price o - total) 0.1) as Hfloor.
    destruct (Q.max_spec (last_price o - total) 0.1) as [[Hlt Hmax]|[Hge Hmax]].
    + split_and!; [lra|ring| |]; intros Hcheap; rewrite Hmax; split_and!; lra.
    + split_and!; [lra|ring| |]; intros Hcheap; rewrite Hmax; split_and!; lra.
  - apply Qgtb_false in Hlp. split; [|intros ?; lra]. intros _. split; reflexivity.
Qed.

(** The early exit of the lot scan loses no candidate when risk cannot
    fall with the lot count: for a non-negative lot size and contracts of
    non-negative risk per lot, the recorded candidates are exactly the
    pairs of a valid contract and a lot count from 1 to 50 whose total risk
    lies within the band. *)
Theorem lot_scan_early_exit_is_safe (valid : list OptionData) (lot_size : Z)
    (target_min target_max target_mid : Q) (c : Candidate) :
  (0 <= lot_size)%Z ->
  (forall o, o ∈ valid -> 0 <= risk_of o) ->
  c ∈ options_in_range_of valid lot_size target_min target_max target_mid <->
  exists (o : OptionData) (lots : Z),
    o ∈ valid /\ (1 <= lots <= 50)%Z /\
    c = candidate_at o lot_size target_mid lots /\
    target_min <= cand_total_risk c /\ cand_total_risk c <= target_max.
Proof.
  intros Hls Hrisk. rewrite (elem_of_options_in_range pow_overflow). split.
  - intros (o & lots & Ho & Hlots & Hc & Hmin & Hmax & _). exists o, lots. now split_and!.
  - intros (o & lots & Ho & Hlots & Hc & Hmin & Hmax). exists o, lots.
    split_and!; try assumption; try lia. intros l' Hl'.
    apply Qle_trans with (risk_of o * inject_Z (lots * lot_size)).
    + rewrite !(Qmult_comm (risk_of o)).
      apply Qmult_le_compat_r; [|now apply Hrisk]. rewrite <- Zle_Qle. nia.
    + subst c. exact Hmax.
Qed.

Lemma select_optimal_strike_elem (rows : list OptionRow) (price target_min target_max : Q)
    (lot_size : Z) (o : OptionData) (quantity : option Z) (total_risk : option Q) :
  select_optimal_strike pow_overflow (Some rows) price (target_min, target_max) lot_size
  = (Some o, quantity, total_risk) ->
  let valid := valid_options_of pow_overflow (map OptionData_init rows) price in
  let cands := options_in_range_of valid lot_size target_min target_max
                 ((target_min + target_max) / 2) in
  o ∈ valid /\
  exists lots : Z,
    (1 <= lots <= 50)%Z /\
    quantity = Some (lots * lot_size)%Z /\
    total_risk = Some (risk_of o * inject_Z (lots * lot_size)) /\
    (cands <> [] -> candidate_at o lot_size ((target_min + target_max) / 2) lots ∈ cands) /\
    (cands = [] -> lots = 1%Z).
Proof.
  cbv zeta. unfold select_optimal_strike. destruct rows as [|row rows]; [discriminate|].
  set (valid := valid_options_of pow_overflow (map OptionData_init (row :: rows)) price).
  destruct valid as [|v valid'] eqn:Hv; [discriminate|]. rewrite <- Hv.
  set (cands := options_in_range_of valid lot_size target_min target_max
                  ((target_min + target_max) / 2)).
  destruct (sort_by_key cand_distance cands) as [|best rest] eqn:Hs.
  - apply sort_by_key_nil in Hs.
    destruct (sort_by_key _ valid) as [|closest rest] eqn:Hs'; [discriminate|].
    intros [= <- <- <-].
    apply sort_by_key_head, first_min_elem in Hs' as [Hel _].
    split; [exact Hel|]. exists 1%Z. rewrite Z.mul_1_l.
    split_and!; [lia|lia|reflexivity|reflexivity|congruence|reflexivity].
  - intros [= <- <- <-].
    apply sort_by_key_head, first_min_elem in Hs as [Hel _].
    pose proof Hel as Hel'.
    apply (elem_of_options_in_range pow_overflow) in Hel as (o1 & lots & Ho1 & Hlots & -> & _).
    cbn [candidate_at cand_option cand_quantity cand_total_risk].
    split; [exact Ho1|]. exists lots.
    split_and!; [lia|lia|reflexivity|reflexivity|intros _; exact Hel'|].
    intros Hnil. rewrite Hnil in Hel'. inversion Hel'.
Qed.

(** The selector is all-or-nothing, and only its fallback leaves the band:
    it returns either three values or three times none; a returned quantity
    is between 1 and 50 lots of the lot size and the returned risk is the
    risk per lot of the returned option times that quantity; the returned
    risk lies within the target band exactly when some lot count of some
    valid contract does (otherwise the closest single lot is returned, out
    of band). *)
Theorem selection_in_band_iff_candidate (rows : list OptionRow)
    (price target_min target_max : Q) (lot_size : Z) :
  let result :=
    select_optimal_strike pow_overflow (Some rows) price (target_min, target_max) lot_size in
  let valid := valid_options_of pow_overflow (map OptionData_init rows) price in
  let cands := options_in_range_of valid lot_size target_min target_max
                 ((target_min + target_max) / 2) in
  result = (None, None, None) \/
  exists (o : OptionData) (lots : Z),
    result = (Some o, Some (lots * lot_size)%Z,
              Some (risk_of o * inject_Z (lots * lot_size))) /\
    o ∈ valid /\ is_Some (risk_per_lot o) /\ (1 <= lots <= 50)%Z /\
    (target_min <= risk_of o * inject_Z (lots * lot_size) <= target_max <-> cands <> []).
Proof.
  cbv zeta.
  destruct (select_optimal_strike pow_overflow (Some rows) price (target_min, target_max)
              lot_size) as [[[o|] quantity] total_risk] eqn:Hsel.
  2:{ left. revert Hsel. unfold select_optimal_strike.
      destruct rows; [now intros [= <- <-]|].
      destruct (valid_options_of _ _ _); [now intros [= <- <-]|].
      destruct (sort_by_key cand_distance _); [|discriminate].
      destruct (sort_by_key _ _); [now intros [= <- <-]|discriminate]. }
  right.
  destruct (select_optimal_strike_elem _ _ _ _ _ _ _ _ Hsel)
    as (Hvalid & lots & Hlots & -> & -> & Hin & Hone).
  exists o, lots. split; [reflexivity|]. split; [exact Hvalid|].
  split.
  { apply elem_of_valid_options in Hvalid as (o0 & r & _ & Hcalc).
    apply calculate_stop_loss_frame in Hcalc as (_ & _ & _ & _ & _ & _ & ->). eauto. }
  split; [exact Hlots|]. split.
  - intros [Hmin Hmax] Hnil. specialize (Hone Hnil). subst lots.
    assert (candidate_at o lot_size ((target_min + target_max) / 2) 1
            ∈ options_in_range_of
                (valid_options_of pow_overflow (map OptionData_init rows) price)
                lot_size target_min target_max ((target_min + target_max) / 2)) as Habs.
    { apply (elem_of_options_in_range pow_overflow). exists o, 1%Z.
      split_and!; [exact Hvalid|lia|lia|reflexivity|exact Hmin|exact Hmax|intros; lia]. }
    rewrite Hnil in Habs. inversion Habs.
  - intros Hne. specialize (Hin Hne).
    apply (elem_of_options_in_range pow_overflow) in Hin as (_ & _ & _ & _ & _ & Hmin & Hmax & _).
    split; assumption.
Qed.

(** A live signal on an option without a quote never becomes an order.
    When the option selected for a signal has a last price of zero or less,
    its stop-loss and target are unset, so [place_order] raises while it
    computes the bracket and the driver only logs it: the signal is counted,
    the order counter stays where it was, and the next tick above D signals
    again. *)
Theorem unquoted_option_signal_places_no_order (e e' : Engine) (price : Q)
    (sig : SignalData) (broker_answer : option string) :
  check_live_tick pow_overflow e price = (e', Some sig) ->
  last_price (sd_option_data sig) <= 0 ->
  stop_loss (sd_option_data sig) = None /\ target (sd_option_data sig) = None /\
  (has_broker e = true -> place_order e' sig broker_answer = None) /\
  check_breakout_signals pow_overflow e price broker_answer = e' /\
  order_counter e' = order_counter e /\ signal_counter e' = S (signal_counter e) /\
  (order_counter e' < MAX_SIGNAL_ATTEMPTS)%nat.
Proof.
  intros Htick Hlp.
  destruct (check_live_tick_signal pow_overflow e e' price sig Htick)
    as (c & d & row & rows & opt & quantity & total_risk & Hc & Hd & Hgt & Hcap & Hcache
        & Hsel & He' & Hsig).
  assert (sd_option_data sig = opt) as Hopt by (subst sig; reflexivity).
  rewrite Hopt in *.
  destruct (select_optimal_strike_elem _ _ _ _ _ _ _ _ Hsel) as (Hvalid & _).
  apply elem_of_valid_options in Hvalid as (o0 & r & Ho0 & Hcalc).
  apply list_elem_of_fmap in Ho0 as (row0 & -> & _).
  assert (stop_loss opt = None /\ target opt = None) as [Hstop Htarget].
  { pose proof (calculate_stop_loss_frame pow_overflow _ _ _ _ _ Hcalc) as (Hlast & _).
    revert Hcalc. unfold calculate_stop_loss. destruct (pow_overflow _); [discriminate|].
    cbn [last_price set_risk_per_lot].
    destruct (Qgtb (last_price (OptionData_init row0)) 0) eqn:Hg.
    - apply Qgtb_true in Hg. rewrite <- Hlast in Hg. lra.
    - intros [= <- _]. split; reflexivity. }
  assert (has_broker e' = has_broker e /\ order_counter e' = order_counter e /\
          signal_counter e' = S (signal_counter e)) as (Hbr & Hoc & Hsc).
  { subst e'. destruct e. split_and!; reflexivity. }
  assert (place_order e' sig broker_answer
          = if has_broker e then None else Some (e', None)) as Hplace.
  { unfold place_order. rewrite Hbr, Hopt, Hstop, Htarget. now destruct (has_broker e). }
  split_and!; try assumption.
  - intros Htrue. rewrite Hplace, Htrue. reflexivity.
  - unfold check_breakout_signals. rewrite Htick, Hplace. now destruct (has_broker e).
  - lia.
Qed.

End RiskExtras.
(** ** The broker: pacing and retries *)

Lemma sleeps_app (e1 e2 : list RetryEvent) : sleeps (e1 ++ e2) = sleeps e1 ++ sleeps e2.
Proof. unfold sleeps. apply omap_app. Qed.

Lemma calls_app (e1 e2 : list RetryEvent) : calls (e1 ++ e2) = calls e1 ++ calls e2.
Proof. unfold calls. apply omap_app. Qed.

Lemma total_sleep_app (e1 e2 : list RetryEvent) :
  total_sleep (e1 ++ e2) == total_sleep e1 + total_sleep e2.
Proof.
  unfold total_sleep. rewrite sleeps_app.
  induction (sleeps e1) as [|s l IH]; cbn [foldr app]; [ring|]. rewrite IH. ring.
Qed.

Lemma py_min_le_r (a b : Q) : py_min a b <= b.
Proof. rewrite py_min_Qmin. apply Q.le_min_r. Qed.

Lemma one_sleep_bound (seconds bound : Q) :
  seconds <= bound -> bound <= 30 ->
  total_sleep [Sleep seconds] <= bound /\
  Forall (fun seconds => seconds <= 30) (sleeps [Sleep seconds]).
Proof.
  intros Hle Hb. unfold total_sleep, sleeps. cbn [omap foldr].
  change (seconds + 0 <= bound /\ Forall (fun s => s <= 30) [seconds]).
  split; [lra|]. repeat constructor. lra.
Qed.

Lemma no_sleep_bound (bound : Q) :
  0 <= bound ->
  total_sleep [] <= bound /\ Forall (fun seconds => seconds <= 30) (sleeps []).
Proof. intros Hb. split; [exact Hb|constructor]. Qed.

Lemma greeks_loop_sleep_bound (remaining : nat) :
  forall (responses : list GreekResponse) (jitters : list Q) (retry : nat),
    total_sleep (fst (greeks_loop responses jitters retry remaining))
    <= inject_Z (35 * Z.of_nat remaining) /\
    Forall (fun seconds => seconds <= 30) (sleeps (fst (greeks_loop responses jitters retry remaining))).
Proof.
  induction remaining as [|remaining IH]; intros responses jitters retry.
  - cbn. split; [apply Qle_refl|constructor].
  - cbn [greeks_loop].
    set (backoff := match retry with
                    | O => []
                    | S _ => [Sleep (py_min (inject_Z (2 ^ Z.of_nat retry)
                                             + default 0 (head jitters)) 5)]
                    end).
    set (jitters' := match retry with O => jitters | S _ => tail jitters end).
    assert (total_sleep backoff <= 5 /\ Forall (fun seconds => seconds <= 30) (sleeps backoff))
      as [Hb Hb'].
    { subst backoff. destruct retry; [apply no_sleep_bound; lra|].
      apply one_sleep_bound; [apply py_min_le_r|lra]. }
    assert (inject_Z (35 * Z.of_nat (S remaining)) == 35 + inject_Z (35 * Z.of_nat remaining))
      as Hsucc.
    { rewrite Nat2Z.inj_succ. unfold Z.succ. rewrite Z.mul_add_distr_l, inject_Z_plus.
      change (inject_Z (35 * 1)) with 35. ring. }
    rewrite Hsucc.
    assert (0 <= inject_Z (35 * Z.of_nat remaining)) as Hpos.
    { change 0 with (inject_Z 0). rewrite <- Zle_Qle. lia. }
    destruct (default GreekRaise (head responses)) as [data|message|].
    + cbn [fst]. rewrite total_sleep_app, sleeps_app.
      assert (total_sleep [Call retry] == 0) as Hcall by reflexivity.
      split; [rewrite Hcall; lra|].
      rewrite Forall_app. split; [exact Hb'|constructor].
    + destruct (IH (tail responses) jitters' (S retry)) as [Hrest Hrest'].
      destruct (greeks_loop (tail responses) jitters' (S retry) remaining) as [events result].
      cbn [fst] in *. rewrite !total_sleep_app, !sleeps_app.
      assert (total_sleep (if is_transient message
                           then [Sleep (py_min (inject_Z (5 * (Z.of_nat retry + 1))) 30)]
                           else []) <= 30 /\
              Forall (fun seconds => seconds <= 30)
                (sleeps (if is_transient message
                         then [Sleep (py_min (inject_Z (5 * (Z.of_nat retry + 1))) 30)]
                         else []))) as [Hl Hl'].
      { destruct (is_transient message); [|apply no_sleep_bound; lra].
        apply one_sleep_bound; [apply py_min_le_r|lra]. }
      assert (total_sleep [Call retry] == 0) as Hcall by reflexivity.
      split; [rewrite Hcall; lra|].
      rewrite !Forall_app. split_and!; [exact Hb'|constructor|exact Hl'|exact Hrest'].
    + destruct (IH (tail responses) jitters' (S retry)) as [Hrest Hrest'].
      destruct (greeks_loop (tail responses) jitters' (S retry) remaining) as [events result].
      cbn [fst] in *. rewrite !total_sleep_app, !sleeps_app.
      assert (total_sleep [Call retry] == 0) as Hcall by reflexivity.
      split; [rewrite Hcall; lra|].
      rewrite !Forall_app. split_and!; [exact Hb'|constructor|exact Hrest'].
Qed.

(** The Greeks fetch blocks for a bounded time: no single sleep exceeds 30
    seconds, and all sleeps together take at most 35 seconds per attempt of
    the budget, whatever the provider answers and whatever the jitter. *)
Theorem greeks_fetch_sleeps_are_bounded (responses : list GreekResponse) (jitters : list Q)
    (max_retries : nat) :
  let events := fst (get_option_greeks responses jitters max_retries) in
  total_sleep events <= inject_Z (35 * Z.of_nat max_retries) /\
  Forall (fun seconds => seconds <= 30) (sleeps events) /\
  (length (calls events) <= max_retries)%nat.
Proof.
  cbv zeta. unfold get_option_greeks.
  destruct (greeks_loop_sleep_bound max_retries responses jitters 0) as [Htotal Heach].
  split_and!; [exact Htotal|exact Heach|]. clear Htotal Heach.
  generalize 0%nat. revert responses jitters.
  induction max_retries as [|remaining IH]; intros responses jitters retry; [cbn; lia|].
  cbn [greeks_loop].
  set (backoff := match retry with O => [] | S _ => [Sleep _] end).
  assert (calls backoff = []) as Hb by (subst backoff; now destruct retry).
  destruct (default GreekRaise (head responses)) as [data|message|].
  - cbn [fst]. rewrite calls_app, Hb. cbn. lia.
  - specialize (IH (tail responses)
                  (match retry with O => jitters | S _ => tail jitters end) (S retry)).
    destruct (greeks_loop _ _ _ _) as [events result]. cbn [fst] in *.
    rewrite !calls_app, Hb.
    assert (calls (if is_transient message
                   then [Sleep (py_min (inject_Z (5 * (Z.of_nat retry + 1))) 30)] else []) = [])
      as -> by now destruct (is_transient message).
    cbn. lia.
  - specialize (IH (tail responses)
                  (match retry with O => jitters | S _ => tail jitters end) (S retry)).
    destruct (greeks_loop _ _ _ _) as [events result]. cbn [fst] in *.
    rewrite !calls_app, Hb. cbn. lia.
Qed.

(** *** The minute window and the pacing *)

(** After the minute window the request count is below the limit, whatever
    it was before, and a wait, if any, is positive. *)
Lemma minute_window_spec (count : nat) (start current_time resumed : Q) :
  let '(count', start', waits) := minute_window count start current_time resumed in
  (count' < MAX_REQUESTS_PER_MINUTE)%nat /\
  (count' = count \/ count' = 0%nat) /\
  calls waits = [] /\ Forall (fun seconds => 0 < seconds) (sleeps waits).
Proof.
  unfold minute_window. destruct (Qle_bool 60 (current_time - start)) eqn:Hwin.
  { split_and!; [unfold MAX_REQUESTS_PER_MINUTE; lia|now right|reflexivity|constructor]. }
  apply Qle_bool_false in Hwin.
  destruct (Nat.leb_spec MAX_REQUESTS_PER_MINUTE count) as [Hfull|Hroom].
  - assert (Qgtb (60 - (current_time - start)) 0 = true) as -> by (apply Qgtb_true; lra).
    split_and!; [unfold MAX_REQUESTS_PER_MINUTE; lia|now right|reflexivity|].
    repeat constructor. lra.
  - split_and!; [exact Hroom|now left|reflexivity|constructor].
Qed.

Lemma pace_spec (current_time last : Q) :
  calls (pace current_time last) = [] /\
  Forall (fun seconds => 0 < seconds) (sleeps (pace current_time last)) /\
  (last <= current_time ->
   Forall (fun seconds => seconds <= MIN_REQUEST_INTERVAL_MS / 1000)
          (sleeps (pace current_time last))).
Proof.
  unfold pace. destruct (Qltb _ _) eqn:Hlt.
  - apply Qltb_true in Hlt. split_and!; [reflexivity| |intros Hmono].
    + repeat constructor. lra.
    + repeat constructor.
      change (MIN_REQUEST_INTERVAL_MS / 1000 - (current_time - last)
              <= MIN_REQUEST_INTERVAL_MS / 1000). lra.
  - split_and!; [reflexivity|constructor|intros _; constructor].
Qed.

Lemma isalnum_not_empty (text : string) : isalnum text = true -> text <> ""%string.
Proof. now intros H ->. Qed.

(** [AngelOneBroker.place_order]: without a connection nothing is sent
    and nothing changes.  Otherwise exactly one order is sent, with the
    caller's variety or else the order type; every sleep before it is
    positive; afterwards the minute count is at most
    MAX_REQUESTS_PER_MINUTE, whatever it was before; the bookkeeping of the
    status checks is untouched.  An order id is returned only when the
    response carries one, as the 'orderid' of a dict with a true 'status' or
    as an alphanumeric string, and it is never the empty string. *)
Theorem broker_place_order_spec (self : Broker) (connected : bool) (variety : option string)
    (order_type : string) (current_time resumed placed_at : Q) (response : OrderResponse) :
  let outcome :=
    broker_place_order self connected variety order_type current_time resumed placed_at
      response in
  let self' := fst (fst (fst outcome)) in
  let events := snd (fst (fst outcome)) in
  let sent_variety := snd (fst outcome) in
  let order_id := snd outcome in
  (connected = false -> outcome = (self, [], None, None)) /\
  (connected = true ->
     calls events = [0%nat] /\
     sent_variety = Some (default order_type variety) /\
     Forall (fun seconds => 0 < seconds) (sleeps events) /\
     (minute_order_count self' <= MAX_REQUESTS_PER_MINUTE)%nat /\
     last_status_check self' = last_status_check self /\
     minute_status_count self' = minute_status_count self /\
     minute_status_start self' = minute_status_start self) /\
  (forall id : string,
     order_id = Some id ->
     connected = true /\ id <> ""%string /\
     last_order_time self' = placed_at /\
     (response = ResponseDict true (Some (Some id)) \/
      response = ResponseStr id /\ isalnum id = true)).
Proof.
  cbv zeta. unfold broker_place_order. destruct connected; cbn [negb].
  2:{ split_and!; [reflexivity|discriminate|intros id [=]]. }
  pose proof (minute_window_spec (minute_order_count self) (minute_start_time self)
                current_time resumed) as Hwin.
  destruct (minute_window _ _ _ _) as [[count start] waits].
  destruct Hwin as (Hcount & _ & Hcalls & Hsleeps).
  destruct (pace_spec current_time (last_order_time self)) as (Hpc & Hps & _).
  assert (calls (waits ++ pace current_time (last_order_time self) ++ [Call 0]) = [0%nat])
    as Hcall1.
  { rewrite !calls_app, Hcalls, Hpc. reflexivity. }
  assert (Forall (fun seconds => 0 < seconds)
            (sleeps (waits ++ pace current_time (last_order_time self) ++ [Call 0])))
    as Hpos.
  { rewrite !sleeps_app, !Forall_app. split_and!; [exact Hsleeps|exact Hps|constructor]. }
  split; [discriminate|]. split.
  - intros _. destruct response; cbn [fst snd minute_order_count last_status_check
                                        minute_status_count minute_status_start].
    all: split_and!; try reflexivity; try assumption; lia.
  - intros id. destruct response as [status data|text| |]; cbn [fst snd order_id_of last_order_time].
    + destruct status; [|discriminate]. destruct data as [[orderid|]|]; try discriminate.
      destruct (String.eqb_spec orderid ""); [discriminate|]. intros [= <-].
      split_and!; [reflexivity|assumption|reflexivity|now left].
    + destruct (isalnum text) eqn:Halnum; [|discriminate].
      destruct (String.eqb_spec text ""); [discriminate|]. intros [= <-].
      split_and!; [reflexivity|assumption|reflexivity|now right].
    + discriminate.
    + discriminate.
Qed.

(** *** The order-status loop *)

Lemma status_loop_calls (order_id : string) (current_time : Q) (remaining : nat) :
  forall (attempts : list (BookResponse * Q)) (self : Broker) (retry : nat),
    let outcome := status_loop order_id current_time attempts self retry remaining in
    let self' := fst (fst outcome) in
    let events := snd (fst outcome) in
    exists n : nat,
      (n <= remaining)%nat /\ calls events = seq retry n /\
      (minute_status_count self' <= minute_status_count self + n)%nat /\
      last_order_time self' = last_order_time self /\
      minute_order_count self' = minute_order_count self /\
      minute_start_time self' = minute_start_time self /\
      minute_status_start self' = minute_status_start self /\
      Forall (fun seconds => 0 < seconds) (sleeps events).
Proof.
  induction remaining as [|remaining IH]; intros attempts self retry; cbv zeta.
  - exists 0%nat. cbn. split_and!; try reflexivity; try lia. constructor.
  - cbn [status_loop].
    destruct (pace_spec current_time (last_status_check self)) as (Hpc & Hps & _).
    assert (Forall (fun seconds => 0 < seconds)
              (sleeps match remaining with O => [] | S _ => [Sleep 0.5] end)) as Hrw.
    { destruct remaining; repeat constructor. }
    assert (calls match remaining with O => [] | S _ => [Sleep 0.5] end = []) as Hrc
      by now destruct remaining.
    destruct (default (BookRaise, 0) (head attempts)) as [response checked_at].
    destruct response as [orders| | |].
    + exists 1%nat. cbn [fst snd note_status_check minute_status_count last_order_time
                          minute_order_count minute_start_time minute_status_start].
      rewrite calls_app, sleeps_app, Hpc, Forall_app.
      split_and!; try reflexivity; try lia; [exact Hps|constructor].
    + specialize (IH (tail attempts) (note_status_check checked_at self) (S retry)).
      cbv zeta in IH. destruct (status_loop _ _ _ _ _ _) as [[self' events] result].
      destruct IH as (n & Hn & Hcalls & Hcount & ? & ? & ? & ? & Hpos).
      exists (S n). cbn [fst snd] in *.
      rewrite !calls_app, !sleeps_app, !Forall_app, Hpc, Hrc, Hcalls.
      cbn [note_status_check minute_status_count last_order_time minute_order_count
             minute_start_time minute_status_start] in *.
      split_and!; try assumption; try lia; try reflexivity. constructor.
    + specialize (IH (tail attempts) (note_status_check checked_at self) (S retry)).
      cbv zeta in IH. destruct (status_loop _ _ _ _ _ _) as [[self' events] result].
      destruct IH as (n & Hn & Hcalls & Hcount & ? & ? & ? & ? & Hpos).
      exists (S n). cbn [fst snd] in *.
      rewrite !calls_app, !sleeps_app, !Forall_app, Hpc, Hrc, Hcalls.
      cbn [note_status_check minute_status_count last_order_time minute_order_count
             minute_start_time minute_status_start] in *.
      split_and!; try assumption; try lia; try reflexivity. constructor.
    + specialize (IH (tail attempts) self (S retry)).
      cbv zeta in IH. destruct (status_loop _ _ _ _ _ _) as [[self' events] result].
      destruct IH as (n & Hn & Hcalls & Hcount & ? & ? & ? & ? & Hpos).
      exists (S n). cbn [fst snd] in *.
      rewrite !calls_app, !sleeps_app, !Forall_app, Hpc, Hrc, Hcalls.
      split_and!; try assumption; try lia; try reflexivity. constructor.
Qed.

(** The first order book that can be read decides the answer. *)
Lemma status_loop_first_book (order_id : string) (current_time : Q) (remaining : nat) :
  forall (attempts : list (BookResponse * Q)) (self : Broker) (retry k : nat)
         (orders : list BookOrder) (checked_at : Q),
    (k < remaining)%nat ->
    attempts !! k = Some (BookOrders orders, checked_at) ->
    (forall (j : nat) (orders' : list BookOrder) (t : Q),
       (j < k)%nat -> attempts !! j <> Some (BookOrders orders', t)) ->
    let outcome := status_loop order_id current_time attempts self retry remaining in
    snd outcome = find_order order_id orders /\
    calls (snd (fst outcome)) = seq retry (S k) /\
    last_status_check (fst (fst outcome)) = checked_at.
Proof.
  induction remaining as [|remaining IH];
    intros attempts self retry k orders checked_at Hk Hbook Hfirst; [lia|].
  cbv zeta. cbn [status_loop].
  destruct (pace_spec current_time (last_status_check self)) as (Hpc & _).
  assert (calls match remaining with O => [] | S _ => [Sleep 0.5] end = []) as Hrc
    by now destruct remaining.
  destruct k as [|k].
  - destruct attempts as [|[response t] attempts]; [discriminate|].
    injection Hbook as -> ->.
    cbn [head default from_option id fst snd note_status_check last_status_check].
    rewrite calls_app, Hpc. split_and!; reflexivity.
  - destruct attempts as [|[response t] attempts]; [discriminate|].
    cbn [head tail default from_option id].
    assert (forall orders', response <> BookOrders orders') as Hnot.
    { intros orders' ->. apply (Hfirst 0%nat orders' t); [lia|reflexivity]. }
    assert (forall (j : nat) (orders' : list BookOrder) (t' : Q),
              (j < k)%nat -> attempts !! j <> Some (BookOrders orders', t')) as Hfirst'.
    { intros j orders' t' Hj. apply (Hfirst (S j) orders' t'). lia. }
    destruct response as [orders'| | |]; [now destruct (Hnot orders')|..].
    + specialize (IH attempts (note_status_check t self) (S retry) k orders checked_at
                    ltac:(lia) Hbook Hfirst').
      cbv zeta in IH. destruct (status_loop _ _ _ _ _ _) as [[self' events] result].
      cbn [fst snd] in *. destruct IH as (-> & Hcalls & ->).
      rewrite !calls_app, Hpc, Hrc, Hcalls. split_and!; reflexivity.
    + specialize (IH attempts (note_status_check t self) (S retry) k orders checked_at
                    ltac:(lia) Hbook Hfirst').
      cbv zeta in IH. destruct (status_loop _ _ _ _ _ _) as [[self' events] result].
      cbn [fst snd] in *. destruct IH as (-> & Hcalls & ->).
      rewrite !calls_app, Hpc, Hrc, Hcalls. split_and!; reflexivity.
    + specialize (IH attempts self (S retry) k orders checked_at ltac:(lia) Hbook Hfirst').
      cbv zeta in IH. destruct (status_loop _ _ _ _ _ _) as [[self' events] result].
      cbn [fst snd] in *. destruct IH as (-> & Hcalls & ->).
      rewrite !calls_app, Hpc, Hrc, Hcalls. split_and!; reflexivity.
Qed.

Lemma status_loop_no_book (order_id : string) (current_time : Q) (remaining : nat) :
  forall (attempts : list (BookResponse * Q)) (self : Broker) (retry : nat),
    (forall (j : nat) (orders : list BookOrder) (t : Q),
       (j < remaining)%nat -> attempts !! j <> Some (BookOrders orders, t)) ->
    let outcome := status_loop order_id current_time attempts self retry remaining in
    snd outcome = None /\ calls (snd (fst outcome)) = seq retry remaining.
Proof.
  induction remaining as [|remaining IH]; intros attempts self retry Hnone; [now split|].
  cbv zeta. cbn [status_loop].
  destruct (pace_spec current_time (last_status_check self)) as (Hpc & _).
  assert (calls match remaining with O => [] | S _ => [Sleep 0.5] end = []) as Hrc
    by now destruct remaining.
  assert (forall (j : nat) (orders : list BookOrder) (t : Q),
            (j < remaining)%nat -> tail attempts !! j <> Some (BookOrders orders, t)) as Hnone'.
  { intros j orders t Hj. rewrite lookup_tail'. apply Hnone. lia. }
  destruct (default (BookRaise, 0) (head attempts)) as [response t] eqn:Hhead.
  destruct response as [orders| | |].
  - exfalso. destruct attempts as [|a attempts]; [discriminate|].
    cbn in Hhead. subst a. apply (Hnone 0%nat orders t); [lia|reflexivity].
  - specialize (IH (tail attempts) (note_status_check t self) (S retry) Hnone').
    cbv zeta in IH. destruct (status_loop _ _ _ _ _ _) as [[self' events] result].
    cbn [fst snd] in *. destruct IH as (-> & Hcalls).
    rewrite !calls_app, Hpc, Hrc, Hcalls. split; reflexivity.
  - specialize (IH (tail attempts) (note_status_check t self) (S retry) Hnone').
    cbv zeta in IH. destruct (status_loop _ _ _ _ _ _) as [[self' events] result].
    cbn [fst snd] in *. destruct IH as (-> & Hcalls).
    rewrite !calls_app, Hpc, Hrc, Hcalls. split; reflexivity.
  - specialize (IH (tail attempts) self (S retry) Hnone').
    cbv zeta in IH. destruct (status_loop _ _ _ _ _ _) as [[self' events] result].
    cbn [fst snd] in *. destruct IH as (-> & Hcalls).
    rewrite !calls_app, Hpc, Hrc, Hcalls. split; reflexivity.
Qed.

Lemma find_order_Some (order_id : string) (orders : list BookOrder) (status : OrderStatus) :
  find_order order_id orders = Some status ->
  os_order_id status = order_id /\
  exists order : BookOrder,
    order ∈ orders /\ bo_orderid order = Some order_id /\
    os_status status = bo_status order /\ os_filled_quantity status = bo_filledqty order /\
    os_average_price status = bo_averageprice order.
Proof.
  induction orders as [|order orders IH]; [discriminate|]. cbn [find_order].
  destruct (bool_decide_reflect (bo_orderid order = Some order_id)) as [Heq|Hne].
  - intros [= <-]. split; [reflexivity|]. exists order.
    split_and!; [left|assumption|reflexivity..].
  - intros Hfind. destruct (IH Hfind) as (Hid & o & Ho & Hrest).
    split; [exact Hid|]. exists o. split; [now right|exact Hrest].
Qed.

Lemma status_loop_result (order_id : string) (current_time : Q) (remaining : nat) :
  forall (attempts : list (BookResponse * Q)) (self : Broker) (retry : nat)
         (status : OrderStatus),
    snd (status_loop order_id current_time attempts self retry remaining) = Some status ->
    exists (k : nat) (orders : list BookOrder) (t : Q),
      (k < remaining)%nat /\ attempts !! k = Some (BookOrders orders, t) /\
      find_order order_id orders = Some status.
Proof.
  induction remaining as [|remaining IH]; intros attempts self retry status; [discriminate|].
  cbn [status_loop].
  destruct attempts as [|[response t] attempts]; cbn [head tail default from_option id].
  - specialize (IH [] self (S retry) status).
    destruct (status_loop _ _ _ _ _ _) as [[self' events] result]. cbn [snd] in *.
    intros Hres. destruct (IH Hres) as (k & orders & t & _ & Hat & _). discriminate.
  - destruct response as [orders| | |].
    + cbn [snd]. intros Hfind. exists 0%nat, orders, t. split_and!; [lia|reflexivity|exact Hfind].
    + specialize (IH attempts (note_status_check t self) (S retry) status).
      destruct (status_loop _ _ _ _ _ _) as [[self' events] result]. cbn [snd] in *.
      intros Hres. destruct (IH Hres) as (k & orders & t' & Hk & Hat & Hfind).
      exists (S k), orders, t'. split_and!; [lia|exact Hat|exact Hfind].
    + specialize (IH attempts (note_status_check t self) (S retry) status).
      destruct (status_loop _ _ _ _ _ _) as [[self' events] result]. cbn [snd] in *.
      intros Hres. destruct (IH Hres) as (k & orders & t' & Hk & Hat & Hfind).
      exists (S k), orders, t'. split_and!; [lia|exact Hat|exact Hfind].
    + specialize (IH attempts self (S retry) status).
      destruct (status_loop _ _ _ _ _ _) as [[self' events] result]. cbn [snd] in *.
      intros Hres. destruct (IH Hres) as (k & orders & t' & Hk & Hat & Hfind).
      exists (S k), orders, t'. split_and!; [lia|exact Hat|exact Hfind].
Qed.

(** [check_order_status]: without an order id nothing is asked and
    nothing changes.  With one, the order book is asked at most
    [max_retries] times, attempts 0, 1, ... in order, and every sleep is
    positive.  The first book that can be read decides: the status of the
    order is returned if the book lists it, and otherwise none, without
    another attempt; when no attempt within the budget gives a readable
    book the answer is none after [max_retries] attempts.  The minute
    count is checked once, before the loop, so it can pass
    MAX_REQUESTS_PER_MINUTE, by fewer than [max_retries]. *)
Theorem check_order_status_spec (self : Broker) (order_id : option string)
    (max_retries : nat) (current_time resumed : Q) (attempts : list (BookResponse * Q)) :
  let outcome :=
    check_order_status self order_id max_retries current_time resumed attempts in
  let self' := fst (fst outcome) in
  let events := snd (fst outcome) in
  let result := snd outcome in
  (order_id = None \/ order_id = Some ""%string -> outcome = (self, [], None)) /\
  (forall id : string, order_id = Some id -> id <> ""%string ->
     (exists n : nat, (n <= max_retries)%nat /\ calls events = seq 0 n) /\
     Forall (fun seconds => 0 < seconds) (sleeps events) /\
     (minute_status_count self' < MAX_REQUESTS_PER_MINUTE + max_retries)%nat /\
     last_order_time self' = last_order_time self /\
     minute_order_count self' = minute_order_count self /\
     (forall (k : nat) (orders : list BookOrder) (checked_at : Q),
        (k < max_retries)%nat ->
        attempts !! k = Some (BookOrders orders, checked_at) ->
        (forall (j : nat) (orders' : list BookOrder) (t : Q),
           (j < k)%nat -> attempts !! j <> Some (BookOrders orders', t)) ->
        result = find_order id orders /\ calls events = seq 0 (S k)) /\
     ((forall (j : nat) (orders : list BookOrder) (t : Q),
         (j < max_retries)%nat -> attempts !! j <> Some (BookOrders orders, t)) ->
      result = None /\ calls events = seq 0 max_retries) /\
     (forall status : OrderStatus, result = Some status -> os_order_id status = id)).
Proof.
  cbv zeta. split.
  - intros [->| ->]; reflexivity.
  - intros id -> Hid. unfold check_order_status.
    apply String.eqb_neq in Hid. rewrite Hid.
    pose proof (minute_window_spec (minute_status_count self) (minute_status_start self)
                  current_time resumed) as Hwin.
    destruct (minute_window _ _ _ _) as [[count start] waits].
    destruct Hwin as (Hcount & _ & Hwc & Hws).
    set (self0 := mkBroker _ _ _ _ count start).
    pose proof (status_loop_calls id current_time max_retries attempts self0 0) as Hcalls.
    pose proof (status_loop_first_book id current_time max_retries attempts self0 0) as Hbook.
    pose proof (status_loop_no_book id current_time max_retries attempts self0 0) as Hnone.
    pose proof (status_loop_result id current_time max_retries attempts self0 0) as Hsome.
    cbv zeta in Hcalls, Hbook, Hnone.
    destruct (status_loop id current_time attempts self0 0 max_retries)
      as [[self' events] result] eqn:Hloop.
    cbn [fst snd] in *.
    destruct Hcalls as (n & Hn & Hc & Hmc & Hlo & Hoc & _ & _ & Hpos).
    rewrite calls_app, sleeps_app, Forall_app, Hwc. cbn [app].
    split_and!.
    + exists n. split; assumption.
    + exact Hws.
    + exact Hpos.
    + subst self0. cbn [minute_status_count] in Hmc. lia.
    + exact Hlo.
    + exact Hoc.
    + intros k orders checked_at Hk Hat Hfirst.
      destruct (Hbook k orders checked_at Hk Hat Hfirst) as (Hres & Hcs & _). now split.
    + exact Hnone.
    + intros status Hres. destruct (Hsome status Hres) as (k & orders & t & _ & _ & Hfind).
      now apply find_order_Some in Hfind as [Hfound _].
Qed.
(** *** The life of a pending setup *)

Section Lifecycle.

Variable pow_overflow : Q -> bool.

(** No engine the application can hold has an options table in its cache. *)
Lemma reachable_no_table (e : Engine) :
  reachable pow_overflow e -> no_options_table e.
Proof.
  induction 1 as [candles broker|e e' _ IH Hgen|e price answer _ IH|e e' df _ IH Hupd].
  - left. reflexivity.
  - exact (generate_signals_cache e e' Hgen IH).
  - rewrite (check_breakout_signals_silent pow_overflow e price answer IH).
    apply (check_live_tick_silent pow_overflow e price IH).
  - unfold update_strategies in Hupd.
    destruct df as [|first rest]; [now injection Hupd as <-|].
    apply (generate_signals_cache _ e' Hupd).
    destruct (pending_setup e); left; reflexivity.
Qed.

(** C3 (as the code has it).  The engine has one optional setup.
    In every engine the application can hold the setup is present exactly
    when point D is, the signal table has one row per candle, the order
    counter is at most MAX_SIGNAL_ATTEMPTS, the cache holds no options table
    and the live check therefore returns no signal.
    For every engine whose setup is in step with D and whose signal table
    has one row per candle (those the application can hold, and those whose
    cache a caller has filled):
    - the batch pass does not raise;
    - [reset_points] destroys the setup exactly when "D" is among the points
      it resets;
    - the seeding of a batch pass clears H1 and leaves the setup and D;
    - a batch signal destroys the setup together with D;
    - the live check returns no signal once the order counter has reached
      the cap, and a signal it returns leaves the setup in place;
    - a tick of the live driver never removes a pending setup, whether or
      not an order is placed; it moves the order counter by one, from below
      the cap only, and only when the broker returns an order id. *)
Theorem pending_setup_lifecycle :
  (forall e : Engine,
     reachable pow_overflow e ->
     (is_Some (pending_setup e) <-> is_Some (D_pt e)) /\
     length (signals e) = length (data e) /\
     (order_counter e <= MAX_SIGNAL_ATTEMPTS)%nat /\
     no_options_table e /\
     forall price : Q, snd (check_live_tick pow_overflow e price) = None)
  /\
  (forall e : Engine,
     (is_Some (pending_setup e) <-> is_Some (D_pt e)) ->
     length (signals e) = length (data e) ->
     is_Some (generate_signals e) /\
     (forall which : list string,
        pending_setup (reset_points which e) =
        if bool_decide ("D"%string ∈ which) then None else pending_setup e) /\
     (pending_setup (initialize_H1_L1 e) = pending_setup e /\
      D_pt (initialize_H1_L1 e) = D_pt e /\
      (data e <> [] -> H1_pt (initialize_H1_L1 e) = None)) /\
     (forall (i : nat) (candle : Candle) (d : Point),
        (i < length (data e))%nat -> D_pt e = Some d -> pt_price d < c_high candle ->
        exists e' : Engine,
          detect_breakout i candle e = Some e' /\
          pending_setup e' = None /\ D_pt e' = None) /\
     (forall price : Q,
        (MAX_SIGNAL_ATTEMPTS <= order_counter e)%nat ->
        check_live_tick pow_overflow e price = (e, None)) /\
     (forall (price : Q) (e' : Engine) (sig : SignalData),
        check_live_tick pow_overflow e price = (e', Some sig) ->
        (order_counter e < MAX_SIGNAL_ATTEMPTS)%nat /\
        pending_setup e' = pending_setup e /\ is_Some (pending_setup e')) /\
     (forall (price : Q) (broker_answer : option string),
        let e' := check_breakout_signals pow_overflow e price broker_answer in
        (is_Some (pending_setup e') <-> is_Some (D_pt e')) /\
        D_pt e' = D_pt e /\
        (is_Some (pending_setup e) -> pending_setup e' = pending_setup e) /\
        (order_counter e' = order_counter e \/
         (order_counter e < MAX_SIGNAL_ATTEMPTS)%nat /\ is_Some broker_answer /\
         order_counter e' = S (order_counter e)))).
Proof.
  split.
  - intros e Hreach.
    destruct (reachable_invariant pow_overflow e Hreach) as (Hsync & Hlen & Hcap).
    pose proof (reachable_no_table e Hreach) as Hno.
    split; [exact Hsync|]. split; [exact Hlen|]. split; [exact Hcap|].
    split; [exact Hno|].
    intros price. apply (check_live_tick_silent pow_overflow e price Hno).
  - intros e Hsync Hlen.
    split. { destruct (generate_signals_total e Hsync Hlen) as (e' & -> & _). eauto. }
    split. { intros which. apply reset_points_pending. }
    split.
    { unfold initialize_H1_L1. destruct (data e); [|now destruct e].
      split; [reflexivity|]. split; [reflexivity|]. intros Hne. now destruct Hne. }
    split.
    { intros i candle d Hi Hd Hlt.
      destruct (proj2 Hsync) as [setup Hp]; [rewrite Hd; eauto|].
      destruct (lookup_lt_is_Some_2 (signals e) i ltac:(lia)) as [row Hrow].
      eexists. split; [exact (detect_breakout_fires _ _ _ _ _ _ Hp Hd Hrow Hlt)|].
      split; reflexivity. }
    split. { intros price. apply check_live_tick_capped. }
    split.
    { intros price e' sig Hlive.
      apply check_live_tick_signal in Hlive
        as (c & d & r & rows & opt & q & t & _ & Hd & _ & Hlt & _ & _ & -> & _).
      assert (Hsome : is_Some (pending_setup e)) by (apply Hsync; rewrite Hd; eauto).
      split; [exact Hlt|].
      destruct e. cbn in *. destruct Hsome as [setup ->]. unfold live_setup. cbn. eauto. }
    intros price broker_answer.
    pose proof (check_breakout_signals_frame pow_overflow e price broker_answer) as Hframe.
    cbv zeta in *.
    destruct Hframe as (_ & _ & _ & _ & _ & _ & _ & HD & Hy & Hk & Hcount).
    split; [exact (Hy Hsync)|]. split; [exact HD|]. split; [exact Hk|exact Hcount].
Qed.

End Lifecycle.

(** * Worked runs *)

(** ** C1: the live check signals without resetting *)

(** On [live_engine] (setup pending, D = 109) and the price 109.5 > D, the
    batch step signals and clears every point, re-seeding L1, while the live
    check signals and leaves every point and the setup in place; with the
    order counter at the cap the live check does not signal at all although
    the price is above D. *)
Lemma live_signal_without_reset :
  is_Some (pending_setup live_engine) /\
  D_pt live_engine = Some (mkPoint 109 6) /\
  c_high breakout_candle = 109.5 /\
  (D_pt <$> detect_breakout 7 breakout_candle live_engine) = Some None /\
  (L1_pt <$> detect_breakout 7 breakout_candle live_engine) = Some (Some (mkPoint 107.5 7)) /\
  is_Some (snd (check_live_tick no_overflow live_engine 109.5)) /\
  D_pt (fst (check_live_tick no_overflow live_engine 109.5)) = Some (mkPoint 109 6) /\
  L1_pt (fst (check_live_tick no_overflow live_engine 109.5)) = Some (mkPoint 95 1) /\
  is_Some (pending_setup (fst (check_live_tick no_overflow live_engine 109.5))) /\
  snd (check_live_tick no_overflow (set_order "A1" live_engine) 109.5) = None.
Proof.
  split_and!; try (vm_compute; reflexivity); vm_compute; eauto.
Qed.

Lemma breakout_batch_and_live_witness :
  pending_setup live_engine
    = Some (mkSetup 109.05 106.95 113.250000
              (mkStructure (Some (mkPoint 110 2)) (Some (mkPoint 95 1)) (Some (mkPoint 105 3))
                 (Some (mkPoint 106 5)) (Some (mkPoint 107 7)) (Some (mkPoint 109 6)))
              (Some "CE_BUYING"%string)) /\
  exists self' : Engine,
    detect_breakout 7 breakout_candle live_engine = Some self' /\
    L1_pt self' = Some (mkPoint (c_low breakout_candle) 7) /\
    D_pt self' = None /\ pending_setup self' = None.
Proof.
  split; [reflexivity|].
  destruct (breakout_batch_and_live no_overflow live_engine
              (mkSetup 109.05 106.95 113.250000
                 (mkStructure (Some (mkPoint 110 2)) (Some (mkPoint 95 1))
                    (Some (mkPoint 105 3)) (Some (mkPoint 106 5)) (Some (mkPoint 107 7))
                    (Some (mkPoint 109 6)))
                 (Some "CE_BUYING"%string))
              (mkPoint 107 7) (mkPoint 109 6) 7%nat breakout_candle
              (mkSignalRow 0 None None None) eq_refl eq_refl eq_refl eq_refl)
    as (Hfire & _).
  destruct Hfire as (self' & Hb & _ & HL & _ & _ & _ & _ & HD & Hp).
  - reflexivity.
  - exists self'. split_and!; assumption.
Defined.

(** ** C2 *)

Lemma C_forms_D_is_max_witness :
  exists (self' : Engine),
    detect_C 7 (candle_at 50 109 107) (candle_at 45 109 108) before_C_engine = Some self' /\
    C_pt self' = Some (mkPoint 107 7) /\ D_pt self' = Some (mkPoint 109 6).
Proof.
  destruct (C_forms_D_is_max before_C_engine 7 (candle_at 50 109 107) (candle_at 45 109 108)
              (mkPoint 110 2) (mkPoint 106 5) eq_refl eq_refl eq_refl eq_refl)
    as (self' & d & setup & Hc & HC & HD & _).
  - cbn. lia.
  - cbn. lra.
  - cbn. lra.
  - exists self'. vm_compute in Hc. injection Hc as <-. split_and!; reflexivity.
Defined.

(** ** C3: a setup outlives the reset of H1 *)

(** [replay_engine] is an engine the application holds after its first
    batch pass: H1 = 112 at candle 2, D = 106, a setup pending.  The
    re-evaluation over the same candles copies the points and the setup
    into a new engine, which is [replay_engine] with an unset cache, and
    runs the batch pass on it.  The seeding resets H1 and leaves the setup
    pending; the setup then fires on candle 2, the candle of the old H1,
    whose high is above D, and the engine the application holds afterwards
    has that signal row and the structure recorded with it. *)
Lemma setup_survives_seeding :
  reachable no_overflow replay_engine /\
  H1_pt replay_engine = Some (mkPoint 112 2) /\
  D_pt replay_engine = Some (mkPoint 106 6) /\
  is_Some (pending_setup replay_engine) /\
  update_strategies replay_engine replay_candles
  = generate_signals (set_cached_options_data None replay_engine) /\
  H1_pt (set_cached_options_data None replay_engine) = Some (mkPoint 112 2) /\
  H1_pt (initialize_H1_L1 (set_cached_options_data None replay_engine)) = None /\
  pending_setup (initialize_H1_L1 (set_cached_options_data None replay_engine))
  = pending_setup replay_engine /\
  exists e' : Engine,
    update_strategies replay_engine replay_candles = Some e' /\
    reachable no_overflow e' /\
    row_signal <$> signals e' !! 2%nat = Some 1%Z /\
    row_entry_price <$> signals e' !! 2%nat = Some (Some 106.05) /\
    (fun rec => (s_H1 (sr_structure rec), sr_entry rec)) <$> structures e'
    = [(Some (mkPoint 112 2), (2%nat, 106.05))] /\
    pending_setup e' = None.
Proof.
  assert (Hreach : reachable no_overflow replay_engine).
  { eapply reach_generate; [apply (reach_new _ replay_candles true)|].
    vm_compute. reflexivity. }
  split; [exact Hreach|].
  split; [vm_compute; reflexivity|]. split; [vm_compute; reflexivity|].
  split; [vm_compute; eauto|].
  split; [vm_compute; reflexivity|]. split; [vm_compute; reflexivity|].
  split; [vm_compute; reflexivity|]. split; [vm_compute; reflexivity|].
  destruct (update_strategies replay_engine replay_candles) as [e'|] eqn:Hupd;
    [|vm_compute in Hupd; discriminate].
  exists e'. split; [reflexivity|]. split; [exact (reach_update _ _ _ _ Hreach Hupd)|].
  vm_compute in Hupd. injection Hupd as <-.
  split; [reflexivity|]. split; [reflexivity|]. split; reflexivity.
Qed.

(** The invariants at [replay_engine], and the live driver at
    [live_engine], whose cache a caller has filled: a tick above D on which
    the broker returns an order id places the order, and the setup is still
    pending afterwards. *)
Lemma pending_setup_lifecycle_witness :
  ((is_Some (pending_setup replay_engine) <-> is_Some (D_pt replay_engine)) /\
   forall price : Q, snd (check_live_tick no_overflow replay_engine price) = None) /\
  (let placed := check_breakout_signals no_overflow live_engine 109.5 (Some "A1"%string) in
   order_counter placed = 1%nat /\
   pending_setup placed = pending_setup live_engine /\
   is_Some (pending_setup placed)).
Proof.
  destruct (pending_setup_lifecycle no_overflow) as [Hheld Hlife]. split.
  - destruct (Hheld replay_engine) as (Hsync & _ & _ & _ & Hsilent).
    { eapply reach_generate; [apply (reach_new _ replay_candles true)|].
      vm_compute. reflexivity. }
    split; assumption.
  - destruct (Hlife live_engine) as (_ & _ & _ & _ & _ & _ & Htick).
    { vm_compute. split; intros _; eauto. }
    { reflexivity. }
    destruct (Htick 109.5 (Some "A1"%string)) as (_ & _ & Hkeep & _).
    cbv zeta. split; [vm_compute; reflexivity|].
    split; [apply Hkeep; vm_compute; eauto|vm_compute; eauto].
Defined.

(** ** C6: a tick of an earlier bucket is merged *)

(** The tick stamped 09:17:30 belongs to the bucket 09:15, earlier than the
    bucket 09:20 in progress; the update raises the high and the close of
    the candle in progress to the tick's price: the aggregator is not left
    unchanged.  The volume stays 0 although the tick carries one. *)
Lemma late_tick_is_merged :
  candle_start_of 5 (mkDateTime 2024 1 15 9 17 30 0) = Some (at_minute 15) /\
  dt_gtb (at_minute 20) (at_minute 15) = true /\
  tick_volume late_tick = Some 10 /\
  update_from_tick spot_5min late_tick
    = mkLive 5 (Some (mkCandle (at_minute 20) 100 120 100 120 0)) [] /\
  update_from_tick spot_5min late_tick <> spot_5min.
Proof.
  split_and!; try (vm_compute; reflexivity).
  vm_compute. discriminate.
Qed.

Lemma update_from_tick_spec_witness :
  candle_start_of (timeframe_minutes spot_5min) (mkDateTime 2024 1 15 9 17 30 0)
    = Some (at_minute 15) /\
  completed_candles (update_from_tick spot_5min late_tick) = completed_candles spot_5min.
Proof.
  split; [reflexivity|].
  destruct (update_from_tick_spec spot_5min (mkDateTime 2024 1 15 9 17 30 0) (at_minute 15)
              120 (Some 10) (mkCandle (at_minute 20) 100 100 100 100 0) eq_refl eq_refl)
    as (_ & _ & Hmerge).
  destruct Hmerge as (Hcompleted & _); [right; reflexivity|exact Hcompleted].
Defined.

(** ** C7: a non-transient error is retried *)


(** ** C8: the example of the specification does not run as described *)

(** Over [spec_example_candles] the detection pass does not end with the
    points the example lists: A is 102 at index 4 and B is never set. *)
Lemma spec_example_not_as_described :
  ~ (exists e : Engine,
       generate_signals (new_strategy spec_example_candles false) = Some e /\
       L1_pt e = Some (mkPoint 95 1) /\ H1_pt e = Some (mkPoint 110 2) /\
       A_pt e = Some (mkPoint 105 3) /\ B_pt e = Some (mkPoint 102 4) /\
       C_pt e = Some (mkPoint 108 5) /\ is_Some (D_pt e)).
Proof.
  intros (e & He & _ & _ & HA & _). vm_compute in He. injection He as <-.
  discriminate HA.
Qed.

Lemma spec_example_run_witness :
  exists e : Engine,
    generate_signals (new_strategy spec_example_candles true) = Some e /\
    A_pt e = Some (mkPoint 102 4) /\ B_pt e = None.
Proof.
  destruct (spec_example_run (candle_at 15 101 100) (candle_at 20 100 95)
              (candle_at 25 110 106) (candle_at 30 108 105) (candle_at 35 107 102)
              (candle_at 40 109 108) true eq_refl eq_refl eq_refl eq_refl eq_refl eq_refl)
    as (e & He & _ & _ & HA & HB & _).
  - cbn. lra.
  - cbn. lra.
  - cbn. lra.
  - cbn. lra.
  - exists e. split_and!; assumption.
Defined.

(** ** C9: a second pass through the same engine *)

(** Both passes over [replay_candles] seed L1 = 90 at candle 0.  The first,
    from a new strategy, ends with D = 106 pending and no signal.  The
    second, through the engine the first one left, starts with that setup:
    it signals on candle 2 and ends with L1 = 97 at candle 3 and no D.  The
    re-evaluation of the application, which copies the points and the setup
    into a new engine, ends the same way. *)
Lemma replay_through_same_engine_differs :
  generate_signals (new_strategy replay_candles true) = Some replay_engine /\
  data replay_engine = replay_candles /\
  L1_pt (initialize_H1_L1 (new_strategy replay_candles true)) = Some (mkPoint 90 0) /\
  L1_pt (initialize_H1_L1 replay_engine) = Some (mkPoint 90 0) /\
  exists second : Engine,
    generate_signals replay_engine = Some second /\
    data second = replay_candles /\
    structure_state second <> structure_state replay_engine /\
    L1_pt replay_engine = Some (mkPoint 90 0) /\ L1_pt second = Some (mkPoint 97 3) /\
    D_pt replay_engine = Some (mkPoint 106 6) /\ D_pt second = None /\
    map row_signal (signals replay_engine) = [0; 0; 0; 0; 0; 0; 0; 0]%Z /\
    map row_signal (signals second) = [0; 0; 1; 0; 0; 0; 0; 0]%Z /\
    structure_state <$> update_strategies replay_engine replay_candles
    = Some (structure_state second).
Proof.
  split_and!; try (vm_compute; reflexivity).
  destruct (generate_signals replay_engine) as [second|] eqn:Hsecond;
    [|vm_compute in Hsecond; discriminate].
  exists second. split; [reflexivity|].
  vm_compute in Hsecond. injection Hsecond as <-.
  split_and!; try (vm_compute; reflexivity).
  vm_compute. discriminate.
Qed.

(** Two engines over [pending_candles] that agree on A, B, C, D, the setup
    and the signal rows but differ in L1, the options cache, the order
    counter and the last order id. *)
Lemma generate_signals_deterministic_witness :
  structure_state <$> generate_signals pending_engine
  = structure_state <$>
      generate_signals (set_L1 None (set_order "A1" live_engine)).
Proof.
  apply (proj2 (generate_signals_deterministic pending_candles));
    [discriminate|reflexivity..].
Defined.

(** ** C10 *)

(** Over a table of a quoted and an unquoted contract, with the default
    band and lot size, the selector returns the unquoted one, for 40 lots,
    with its risk set and neither stop-loss nor target. *)
Lemma nonpositive_last_price_selected_witness :
  exists (sel : OptionData) (total_risk : Q),
    select_optimal_strike no_overflow (Some [example_row; unquoted_near_row]) 109.5
      (TARGET_RISK_MIN, TARGET_RISK_MAX) DEFAULT_LOT_SIZE
    = (Some sel, Some 3000%Z, Some total_risk) /\
    symbol sel = r_symbol unquoted_near_row /\
    last_price sel = 0 /\ stop_loss sel = None /\ target sel = None /\
    is_Some (risk_per_lot sel) /\ total_risk == 854.1.
Proof.
  destruct (nonpositive_last_price_selected no_overflow (OptionData_init unquoted_row)
              109.5 108.9525 unquoted_near_row [example_row; unquoted_near_row] 109.5
              TARGET_RISK_MIN TARGET_RISK_MAX DEFAULT_LOT_SIZE)
    as (_ & o' & r & _ & _ & _ & _ & _ & _ & _ & sel & quantity & total_risk & Hsel & _ & Hunset & _).
  - cbn. lra.
  - reflexivity.
  - cbn. lra.
  - apply list_elem_of_further, list_elem_of_here.
  - reflexivity.
  - exists sel, total_risk. pose proof Hsel as Hrun. vm_compute in Hrun.
    injection Hrun as <- <- <-.
    split; [exact Hsel|].
    destruct Hunset as [Hstop Htarget]; [vm_compute; discriminate|].
    split_and!; [reflexivity|reflexivity|exact Hstop|exact Htarget|vm_compute; eauto|].
    vm_compute. reflexivity.
Defined.
(** ** The sample sort *)

Lemma insert_row_perm (row : HistoricalRow) (rows : list HistoricalRow) :
  insert_row row rows ≡ₚ row :: rows.
Proof.
  induction rows as [|first rest IH]; cbn [insert_row]; [reflexivity|].
  destruct (dt_gtb _ _); [|reflexivity]. rewrite IH. apply Permutation_swap.
Qed.

Lemma sort_rows_perm (rows : list HistoricalRow) : sort_rows rows ≡ₚ rows.
Proof.
  induction rows as [|row rows IH]; [reflexivity|].
  cbn [sort_rows foldr]. fold (sort_rows rows). now rewrite insert_row_perm, IH.
Qed.

Lemma dt_not_later_trans (t1 t2 t3 : DateTime) :
  dt_gtb t1 t2 = false -> dt_gtb t2 t3 = false -> dt_gtb t1 t3 = false.
Proof.
  intros H12 H23. apply dt_gtb_false in H12 as [->|H12]; [exact H23|].
  apply dt_gtb_false in H23 as [<-|H23]; [now apply dt_gtb_false; right|].
  apply dt_gtb_false. right. exact (dt_gtb_trans _ _ _ H23 H12).
Qed.

Lemma rows_in_time_order_cons (row : HistoricalRow) (rows : list HistoricalRow) :
  rows_in_time_order (row :: rows) <->
  (forall later, later ∈ rows -> dt_gtb (h_timestamp row) (h_timestamp later) = false) /\
  rows_in_time_order rows.
Proof.
  unfold rows_in_time_order. split.
  - intros H. split.
    + intros later [j Hj]%list_elem_of_lookup_1. apply (H 0%nat (S j) row later); [lia|..]; easy.
    + intros i j ri rj Hij Hi Hj. apply (H (S i) (S j) ri rj); [lia|..]; easy.
  - intros [Hfirst Hrest] i j ri rj Hij Hi Hj. destruct j as [|j]; [lia|].
    destruct i as [|i].
    + injection Hi as <-. apply Hfirst. eapply list_elem_of_lookup_2, Hj.
    + apply (Hrest i j ri rj); [lia|..]; easy.
Qed.

Lemma insert_row_in_time_order (row : HistoricalRow) (rows : list HistoricalRow) :
  rows_in_time_order rows -> rows_in_time_order (insert_row row rows).
Proof.
  induction rows as [|first rest IH]; intros Hsorted; cbn [insert_row].
  - intros i j ri rj Hij Hi Hj. destruct i, j; try lia; discriminate.
  - apply rows_in_time_order_cons in Hsorted as [Hfirst Hrest].
    destruct (dt_gtb (h_timestamp row) (h_timestamp first)) eqn:Hgt.
    + apply rows_in_time_order_cons. split; [|now apply IH].
      intros later Hlater. rewrite insert_row_perm in Hlater.
      apply elem_of_cons in Hlater as [->|Hlater]; [|now apply Hfirst].
      now apply dt_gtb_false; right.
    + apply rows_in_time_order_cons. split.
      * intros later [->|Hlater]%elem_of_cons; [exact Hgt|].
        exact (dt_not_later_trans _ _ _ Hgt (Hfirst later Hlater)).
      * apply rows_in_time_order_cons. now split.
Qed.

Lemma sort_rows_in_time_order (rows : list HistoricalRow) :
  rows_in_time_order (sort_rows rows).
Proof.
  induction rows as [|row rows IH].
  - intros i j ri rj _ Hi. discriminate.
  - cbn [sort_rows foldr]. now apply insert_row_in_time_order.
Qed.

(** ** Instances *)

Lemma ticks_keep_candles_well_formed_witness :
  Forall candle_ok (all_candles (foldl update_from_tick spot_5min [late_tick; later_tick])).
Proof.
  apply ticks_keep_candles_well_formed.
  repeat constructor; cbn; apply Qle_refl.
Defined.

Lemma ticks_keep_times_increasing_witness :
  times_increasing (all_candles (foldl update_from_tick spot_5min [late_tick; later_tick])).
Proof.
  apply ticks_keep_times_increasing.
  - intros i j ci cj Hij Hi Hj. destruct i, j; try lia; discriminate.
  - discriminate.
Defined.

Lemma candle_start_of_bucket_witness :
  exists start : DateTime,
    candle_start_of 5 (mkDateTime 2024 1 15 9 17 30 0) = Some start /\
    candle_start_of 5 start = Some start /\ minute start = 15%Z.
Proof.
  destruct (candle_start_of_bucket 5 (mkDateTime 2024 1 15 9 17 30 0))
    as (start & Hstart & Hidem & _); [lia|cbn; lia|cbn; lia|cbn; lia|].
  exists start. split; [exact Hstart|]. split; [exact Hidem|].
  vm_compute in Hstart. injection Hstart as <-. reflexivity.
Defined.

Lemma candle_start_of_nested_witness :
  candle_start_of 15 (at_minute 15)
  = candle_start_of 15 (mkDateTime 2024 1 15 9 17 30 0).
Proof.
  apply (candle_start_of_nested 5 15); [lia|lia|now exists 3%Z|reflexivity].
Defined.

Lemma get_dataframe_after_tick_witness :
  exists row : Candle,
    last (get_dataframe (update_from_tick spot_5min late_tick)) = Some row /\
    c_close row = 120.
Proof.
  destruct (get_dataframe_after_tick spot_5min (mkDateTime 2024 1 15 9 17 30 0)
              (at_minute 15) 120 (Some 10) eq_refl) as (row & Hlast & _ & Hclose & _).
  exists row. split; [exact Hlast|exact Hclose].
Defined.

Lemma initialize_from_historical_spec_witness :
  snd (initialize_from_historical sort_rows spot_5min history_rows) = true /\
  current_candle (fst (initialize_from_historical sort_rows spot_5min history_rows))
  = current_candle spot_5min.
Proof.
  destruct (initialize_from_historical_spec sort_rows sort_rows_perm sort_rows_in_time_order
              spot_5min history_rows) as (_ & Hret & _ & Hcur & _).
  split; [apply Hret; discriminate|exact Hcur].
Defined.

Lemma batch_signal_prices_ordered_witness :
  exists e : Engine,
    generate_signals (new_strategy breakout_run true) = Some e /\
    forall (j : nat) (row : SignalRow),
      signals e !! j = Some row -> row_signal row = 1%Z ->
      exists (entry stop target : Q) (cj : Candle),
        row = mkSignalRow 1 (Some entry) (Some stop) (Some target) /\
        stop < entry /\ entry < target /\
        target - entry == 2 * (entry - stop) /\
        breakout_run !! j = Some cj /\ entry - 0.05 < c_high cj.
Proof.
  apply batch_signal_prices_ordered.
  unfold breakout_run, pending_candles. cbn [app].
  repeat constructor; unfold Qle; cbn; lia.
Defined.

Lemma live_tick_without_options_table_witness :
  snd (check_live_tick no_overflow pending_engine 109.5) = None /\
  check_breakout_signals no_overflow pending_engine 109.5 (Some "A1"%string)
  = fst (check_live_tick no_overflow pending_engine 109.5).
Proof.
  destruct (live_tick_without_options_table no_overflow pending_engine 109.5
              (Some "A1"%string)) as (Hsilent & Hsame & _).
  - right. reflexivity.
  - split; [exact Hsilent|exact Hsame].
Defined.

Lemma capped_engine_ignores_ticks_witness :
  foldl (fun strategy tick =>
           check_breakout_signals no_overflow strategy (fst tick) (snd tick))
        capped_engine [(109.5, Some "B2"%string); (120, None)]
  = capped_engine.
Proof.
  apply capped_engine_ignores_ticks. vm_compute. lia.
Defined.

Lemma update_strategies_starts_afresh_witness :
  update_strategies pending_engine pending_candles
  = update_strategies capped_engine pending_candles.
Proof.
  apply update_strategies_starts_afresh; [discriminate|reflexivity..].
Defined.

Lemma process_item_feeds_all_timeframes_witness :
  spot_ltp (process_item no_overflow new_app spot_item) = 2150000 * 0.01 /\
  tick_count (process_item no_overflow new_app spot_item) = 1%nat.
Proof.
  destruct (process_item_feeds_all_timeframes no_overflow new_app spot_item)
    as (_ & Hspot); [reflexivity|reflexivity|reflexivity|cbn; lia|].
  destruct (Hspot eq_refl) as (Hltp & Hcount & _).
  split; [exact Hltp|exact Hcount].
Defined.

Lemma stop_loss_and_target_bounds_witness :
  exists (o' : OptionData) (r : StopLossCalc),
    calculate_stop_loss no_overflow (OptionData_init example_row) 109.5 108.9525
    = Some (o', r) /\
    0 <= total_sl r.
Proof.
  destruct (calculate_stop_loss no_overflow (OptionData_init example_row) 109.5 108.9525)
    as [[o' r]|] eqn:Hcalc.
  - exists o', r. split; [reflexivity|].
    apply (stop_loss_and_target_bounds no_overflow (OptionData_init example_row) o'
             109.5 108.9525 r Hcalc); unfold Qle; cbn; lia.
  - vm_compute in Hcalc. discriminate.
Defined.

Lemma lot_scan_early_exit_is_safe_witness :
  candidate_at priced_option 75 850 1 ∈ options_in_range_of [priced_option] 75 800 900 850.
Proof.
  apply (lot_scan_early_exit_is_safe no_overflow [priced_option] 75 800 900 850).
  - lia.
  - intros o ->%list_elem_of_singleton. unfold Qle. cbn. lia.
  - exists priced_option, 1%Z.
    split_and!; [apply list_elem_of_singleton; reflexivity|lia|lia|reflexivity|..];
      unfold Qle; cbn; lia.
Defined.

Lemma unquoted_option_signal_places_no_order_witness :
  order_counter (check_breakout_signals no_overflow unquoted_engine 109.5 (Some "A1"%string))
  = 0%nat.
Proof.
  destruct (check_live_tick no_overflow unquoted_engine 109.5) as [e' [sig|]] eqn:Htick.
  - destruct (unquoted_option_signal_places_no_order no_overflow unquoted_engine e' 109.5
                sig (Some "A1"%string) Htick) as (_ & _ & _ & Hsame & Hcount & _).
    + vm_compute in Htick. injection Htick as _ <-. unfold Qle. cbn. lia.
    + rewrite Hsame, Hcount. reflexivity.
  - vm_compute in Htick. discriminate.
Defined.
